(** * SecureVibe security core: encryption engine and threat-detection middleware

    A shallow embedding of [utils/secureEncryption.js] (class
    [SecureVibeEncryption]), of [utils/errorHandler.js] (the table of errors,
    [ErrorFactory], [toResponse], [log] and [errorMiddleware]), of the
    security score of [utils/analytics.js], and of the middleware functions
    [verifyRequestSignature], [detectSuspiciousActivity] and [userRateLimit],
    followed by the properties the specification states about them and by
    further properties of the code.

    Conventions.
    - A [Buffer] is a [list byte]. A JavaScript string is a [string], read as
      the bytes of its UTF-8 encoding, so [Buffer.from(s, 'utf8')] and
      [buf.toString('utf8')] are the two conversions of the Standard Library,
      and a regular expression runs over these bytes. The strings of the
      model are the well-formed ones: a string with a lone surrogate, for
      which [Buffer.from] writes U+FFFD, has no counterpart here.
    - JavaScript numbers that the code uses as integers (clock readings,
      counters, byte arithmetic) are [Z]; the 32-bit wrap-around of the
      bitwise operators is written out ([toInt32]). Sums and products are
      exact, as they are in JavaScript while they stay below 2^53 in size.
    - What the code takes from Node.js and from the database is a [Runtime]:
      the clock, the random source, the environment, SHA-256, the AES
      ciphers, base64, [JSON.parse], [JSON.stringify] of a request context
      (an object whose fields and their order the caller chooses) and
      [User.findOne]. The functions of the repository are defined over an
      arbitrary runtime. [JSON.stringify] of a parsed request body is defined
      here, on [JValue].
    - A method that mutates [this] or [global] is a state transformer over
      [Process]; [throw] and [try]/[catch] are an outcome in that monad, and a
      thrown error leaves the mutations made before it in place.
    - Every reading of the clock ([Date.now()], [new Date()]) and every draw
      of random bytes advances a counter of the process, so that two readings
      in one call may differ.
    - Output on the console is not part of the model. *)

From Stdlib Require Import ZArith Lia.
From Stdlib Require Import Strings.Ascii Strings.Byte.
From stdpp Require Import gmap strings list fin_maps.

Local Open Scope Z_scope.

(** ** Bytes and buffers *)

Definition Buffer := list byte.

Definition byte_to_Z (b : byte) : Z := Z.of_N (Byte.to_N b).

(** Storing a number into a [Buffer] cell keeps its low eight bits. *)
Definition byte_of_Z (z : Z) : byte :=
  match Byte.of_N (Z.to_N (z mod 256)) with
  | Some b => b
  | None => x00
  end.

#[global] Instance byte_eq_dec : EqDecision byte.
Proof.
  intros a b. destruct (decide (Byte.to_N a = Byte.to_N b)) as [E|E].
  - left. apply (f_equal Byte.of_N) in E. rewrite !Byte.of_to_N in E. congruence.
  - right. congruence.
Defined.

(** [ToInt32] of ECMAScript, applied by [^] and [&] to their operands. *)
Definition toInt32 (z : Z) : Z := (z + 2 ^ 31) mod 2 ^ 32 - 2 ^ 31.

Definition js_xor (a b : Z) : Z := Z.lxor (toInt32 a) (toInt32 b).
Definition js_and (a b : Z) : Z := Z.land (toInt32 a) (toInt32 b).

(** [Buffer.from(s, 'utf8')] and [buf.toString('utf8')], on well-formed
    strings and on the bytes of such. *)
Definition utf8 (s : string) : Buffer := String.list_byte_of_string s.
Definition utf8_decode (b : Buffer) : string := String.string_of_list_byte b.

(** [buf.slice(start, end)]: negative indices count from the end, both are
    clamped to the buffer, and an empty range gives an empty buffer. *)
Definition clamp_index (len i : Z) : Z :=
  if i <? 0 then Z.max (len + i) 0 else Z.min i len.

Definition slice {A} (l : list A) (start : Z) (stop : option Z) : list A :=
  let len := Z.of_nat (length l) in
  let s := clamp_index len start in
  let e := match stop with Some e => clamp_index len e | None => len end in
  take (Z.to_nat (e - s)) (drop (Z.to_nat s) l).

(** ** Strings *)

(** [Number.prototype.toString()] on an integer: decimal digits, most
    significant first. The recursion is on a bound on the number of digits. *)
Definition digit_char (d : Z) : ascii := ascii_of_N (48 + Z.to_N d).

Fixpoint digits_of (fuel : nat) (n : Z) (acc : string) : string :=
  match fuel with
  | O => acc
  | S fuel' =>
      let acc' := String (digit_char (n mod 10)) acc in
      if n <? 10 then acc' else digits_of fuel' (n / 10) acc'
  end.

Definition toString (n : Z) : string :=
  if n <? 0
  then String "-"%char (digits_of (S (Z.to_nat (Z.log2 (- n)))) (- n) EmptyString)
  else digits_of (S (Z.to_nat (Z.log2 n))) n EmptyString.

(** [haystack.includes(needle)]. *)
Fixpoint starts_with (p s : string) : bool :=
  match p, s with
  | EmptyString, _ => true
  | String a p', String b s' => if Ascii.eqb a b then starts_with p' s' else false
  | String _ _, EmptyString => false
  end.

Fixpoint includes (needle haystack : string) : bool :=
  if starts_with needle haystack then true
  else match haystack with
       | EmptyString => false
       | String _ rest => includes needle rest
       end.

(** ** Constants of [secureEncryption.js] *)

Definition SECUREVIBE_SIGNATURE : Buffer := utf8 "SECUREVIBE_AUTH_2024".
Definition ENCRYPTION_ROUNDS : nat := 12.
Definition KEY_ROTATION_INTERVAL : Z := 3600000.

(** [SECUREVIBE_SIGNATURE[i % SECUREVIBE_SIGNATURE.length]] *)
Definition signature_byte (i : nat) : Z :=
  byte_to_Z (nth (i mod length SECUREVIBE_SIGNATURE)%nat SECUREVIBE_SIGNATURE x00).

(** ** The byte transformation and its inverse *)

(** The loop body of [securevibeTransform] at index [i], for a whole round
    number; the sum is the one JavaScript computes while it stays below 2^53
    in size. *)
Definition transform_byte (round : Z) (i : nat) (b : byte) : byte :=
  let transformedByte :=
    js_xor (byte_to_Z b) (signature_byte i) + round * 7 + Z.of_nat i * 13 in
  byte_of_Z (js_and transformedByte 255).

(** The loop body of [reverseSecurevibeTransform] at index [i]. *)
Definition reverse_byte (round : Z) (i : nat) (b : byte) : byte :=
  let reversedByte :=
    js_xor (byte_to_Z b - round * 7 - Z.of_nat i * 13) (signature_byte i) in
  byte_of_Z (js_and reversedByte 255).

Fixpoint map_indexed {A B} (f : nat -> A -> B) (i : nat) (l : list A) : list B :=
  match l with
  | [] => []
  | x :: l' => f i x :: map_indexed f (S i) l'
  end.

Definition securevibeTransform (data : Buffer) (round : Z) : Buffer :=
  map_indexed (transform_byte round) 0 data.

Definition reverseSecurevibeTransform (data : Buffer) (round : Z) : Buffer :=
  map_indexed (reverse_byte round) 0 data.

(** ** Values shared by the engine and the middleware *)

(** The result of running JavaScript code: a value, or a thrown [Error]
    carrying its [message]. *)
Inductive Outcome (A : Type) : Type :=
  | Ok (value : A)
  | Throw (message : string).
Arguments Ok {A} value.
Arguments Throw {A} message.

(** The request context handed to the engine: the fields it reads. *)
Record Context := {
  ctx_ip : option string;
  ctx_userAgent : option string;
  ctx_body : option string
}.

(** [x || d] for a string [x] that may be undefined: the empty string is
    falsy too. *)
Definition or_default (x : option string) (d : string) : string :=
  match x with
  | Some s => if decide (s = "") then d else s
  | None => d
  end.

(** A document of the user collection: the fields the middleware reads. *)
Record User := {
  user_id : string;
  isPaid : bool
}.

(** ** The runtime

    The services of Node.js and of the database. The clock and the random
    source are read by position: [Date_now n] is what the [n]-th reading of
    the clock returns, [crypto_randomBytes n size] the [n]-th draw. The AES
    operations may throw. [createCipher_gcm password aad data] is
    [crypto.createCipher('aes-256-gcm', password)] followed by [setAAD],
    [update], [final] and [getAuthTag]; [createDecipher_gcm password aad tag
    data] is the matching use of [crypto.createDecipher]. [JSON_parse s] tells
    whether [JSON.parse(s)] returns. *)
Class Runtime := {
  Date_now : nat -> Z;
  crypto_randomBytes : nat -> nat -> Buffer;
  env_JWT_SECRET : option string;
  env_NODE_ENV : option string;
  sha256 : Buffer -> Buffer;
  JSON_stringify : Context -> string;
  JSON_parse : string -> bool;
  createCipher_gcm : Buffer -> Buffer -> Buffer -> Outcome (Buffer * Buffer);
  createDecipher_gcm : Buffer -> Buffer -> Buffer -> Buffer -> Outcome Buffer;
  createCipheriv_cbc : Buffer -> Buffer -> Buffer -> Outcome Buffer;
  createDecipheriv_cbc : Buffer -> Buffer -> Buffer -> Outcome Buffer;
  base64_encode : Buffer -> string;
  base64_decode : string -> Buffer;
  User_findOne : string -> Outcome (option User)
}.

(** ** State of the encryption engine *)

Inductive ThreatLevel := LOW | MEDIUM | HIGH | CRITICAL.

(** An element of [pattern.suspiciousPatterns]. *)
Record SuspiciousEvent := {
  se_timestamp : Z;
  se_indicators : list bool;
  se_context : Context
}.

(** A value of the [attackPatterns] map. *)
Record AttackRecord := {
  requestCount : Z;
  firstRequest : Z;
  suspiciousPatterns : list SuspiciousEvent
}.

Inductive CryptoEvent := ENCRYPTION | DECRYPTION.

(** The objects pushed on [securityLog], by their [event] field. *)
Inductive LogEntry :=
  | KEY_ROTATION (timestamp : Z)
  | EMERGENCY_KEY_ROTATION (timestamp : Z)
  | SECURITY_INCIDENT (timestamp : Z) (ip : string) (context : Context)
      (level : ThreatLevel)
  | CRYPTO_EVENT (timestamp : Z) (event : CryptoEvent) (status : string)
      (context : Context) (error : option string) (level : ThreatLevel).

(** The fields of a [SecureVibeEncryption] instance. *)
Record Engine := {
  masterKey : Buffer;
  sessionKeys : gmap string Buffer;
  attackPatterns : gmap string AttackRecord;
  lastKeyRotation : Z;
  securityLog : list LogEntry;
  threatLevel : ThreatLevel
}.

(** ** State of the middleware *)

(** A value of [global.requestTracker]. *)
Record RateCounter := {
  rc_count : Z;
  rc_firstRequest : Z
}.

(** A value of [global.userRequestTracker]. *)
Record UserCounter := {
  uc_count : Z;
  uc_firstRequest : Z;
  uc_limit : Z;
  uc_windowMs : Z
}.

(** ** The process

    The engine is a singleton of the module, the trackers are properties of
    [global] that do not exist until a middleware creates them. The two
    counters give the position of the next clock reading and random draw. *)
Record Process := {
  engine : Engine;
  requestTracker : option (gmap string RateCounter);
  userRequestTracker : option (gmap string UserCounter);
  clockReads : nat;
  randomDraws : nat
}.

Definition with_engine (f : Engine -> Engine) (p : Process) : Process :=
  {| engine := f (engine p);
     requestTracker := requestTracker p;
     userRequestTracker := userRequestTracker p;
     clockReads := clockReads p;
     randomDraws := randomDraws p |}.

Definition set_masterKey (k : Buffer) (e : Engine) : Engine :=
  {| masterKey := k; sessionKeys := sessionKeys e;
     attackPatterns := attackPatterns e; lastKeyRotation := lastKeyRotation e;
     securityLog := securityLog e; threatLevel := threatLevel e |}.

Definition set_sessionKeys (m : gmap string Buffer) (e : Engine) : Engine :=
  {| masterKey := masterKey e; sessionKeys := m;
     attackPatterns := attackPatterns e; lastKeyRotation := lastKeyRotation e;
     securityLog := securityLog e; threatLevel := threatLevel e |}.

Definition set_attackPatterns (m : gmap string AttackRecord) (e : Engine) : Engine :=
  {| masterKey := masterKey e; sessionKeys := sessionKeys e;
     attackPatterns := m; lastKeyRotation := lastKeyRotation e;
     securityLog := securityLog e; threatLevel := threatLevel e |}.

Definition set_lastKeyRotation (t : Z) (e : Engine) : Engine :=
  {| masterKey := masterKey e; sessionKeys := sessionKeys e;
     attackPatterns := attackPatterns e; lastKeyRotation := t;
     securityLog := securityLog e; threatLevel := threatLevel e |}.

Definition set_securityLog (l : list LogEntry) (e : Engine) : Engine :=
  {| masterKey := masterKey e; sessionKeys := sessionKeys e;
     attackPatterns := attackPatterns e; lastKeyRotation := lastKeyRotation e;
     securityLog := l; threatLevel := threatLevel e |}.

Definition set_threatLevel (t : ThreatLevel) (e : Engine) : Engine :=
  {| masterKey := masterKey e; sessionKeys := sessionKeys e;
     attackPatterns := attackPatterns e; lastKeyRotation := lastKeyRotation e;
     securityLog := securityLog e; threatLevel := t |}.

Definition set_requestTracker (m : gmap string RateCounter) (p : Process) : Process :=
  {| engine := engine p; requestTracker := Some m;
     userRequestTracker := userRequestTracker p;
     clockReads := clockReads p; randomDraws := randomDraws p |}.

Definition set_userRequestTracker (m : gmap string UserCounter) (p : Process) : Process :=
  {| engine := engine p; requestTracker := requestTracker p;
     userRequestTracker := Some m;
     clockReads := clockReads p; randomDraws := randomDraws p |}.

(** ** The monad of the code: state, and exceptions that keep the state *)

Definition M (A : Type) : Type := Process -> Outcome A * Process.

Definition ret {A} (a : A) : M A := fun p => (Ok a, p).

Definition bind {A B} (m : M A) (k : A -> M B) : M B :=
  fun p => match m p with
           | (Ok a, p') => k a p'
           | (Throw e, p') => (Throw e, p')
           end.

Definition throw {A} (message : string) : M A := fun p => (Throw message, p).

(** [try { body } catch (error) { handler(error.message) }] *)
Definition try_catch {A} (body : M A) (handler : string -> M A) : M A :=
  fun p => match body p with
           | (Ok a, p') => (Ok a, p')
           | (Throw e, p') => handler e p'
           end.

(** A runtime operation that may throw. *)
Definition lift {A} (o : Outcome A) : M A := fun p => (o, p).

Definition gets {A} (f : Engine -> A) : M A := fun p => (Ok (f (engine p)), p).

Definition modify (f : Engine -> Engine) : M unit :=
  fun p => (Ok tt, with_engine f p).

Notation "x <- m ;; k" := (bind m (fun x => k))
  (at level 100, m at next level, right associativity).
Notation "m ;; k" := (bind m (fun _ => k))
  (at level 100, right associativity).

Definition result {A} (r : Outcome A * Process) : Outcome A := fst r.
Definition state_after {A} (r : Outcome A * Process) : Process := snd r.

(** The process after one more clock reading, and after one more draw. *)
Definition tick (p : Process) : Process :=
  {| engine := engine p; requestTracker := requestTracker p;
     userRequestTracker := userRequestTracker p;
     clockReads := S (clockReads p); randomDraws := randomDraws p |}.

Definition drawn (p : Process) : Process :=
  {| engine := engine p; requestTracker := requestTracker p;
     userRequestTracker := userRequestTracker p;
     clockReads := clockReads p; randomDraws := S (randomDraws p) |}.

(** [n] calls in a row. *)
Fixpoint times {A} (n : nat) (call : M A) : M unit :=
  match n with
  | O => ret tt
  | S n' => fun p => times n' call (state_after (call p))
  end.

Section WithRuntime.
Context {rt : Runtime}.

(** [Date.now()] *)
Definition now : M Z :=
  fun p => (Ok (Date_now (clockReads p)), tick p).

(** [crypto.randomBytes(size)] *)
Definition randomBytes (size : nat) : M Buffer :=
  fun p => (Ok (crypto_randomBytes (randomDraws p) size), drawn p).

(** ** The methods of [SecureVibeEncryption] *)

(** The loop of [generateMasterKey]: one hash and one transformation per
    round, rounds numbered from 0. *)
Definition mix_rounds (entropy : Buffer) : Buffer :=
  fold_left (fun acc i => securevibeTransform (sha256 acc) (Z.of_nat i))
            (seq 0 ENCRYPTION_ROUNDS) entropy.

Definition generateMasterKey : M Buffer :=
  r32 <- randomBytes 32 ;;
  let secret := utf8 (or_default env_JWT_SECRET "fallback_secret") in
  t <- now ;;
  r16 <- randomBytes 16 ;;
  let combinedEntropy := r32 ++ secret ++ utf8 (toString t) ++ r16 ++ SECUREVIBE_SIGNATURE in
  ret (slice (mix_rounds combinedEntropy) 0 (Some 32)).

(** [buf[i]] read as a number; past the end it is [undefined], which the
    bitwise operators read as 0. *)
Definition byte_at (b : Buffer) (i : nat) : Z := byte_to_Z (nth i b x00).

Definition generateSessionKey (context : Context) : M Buffer :=
  t <- now ;;
  let contextString := (JSON_stringify context +:+ toString t)%stdpp in
  let contextHash := sha256 (utf8 contextString) in
  mk <- gets masterKey ;;
  ret (map (fun i => byte_of_Z (js_and (js_xor (byte_at mk i) (byte_at contextHash i)) 255))
           (seq 0 32)).

Definition push_log (entry : LogEntry) : M unit :=
  modify (fun e => set_securityLog (securityLog e ++ [entry]) e).

Definition checkKeyRotation : M unit :=
  t <- now ;;
  last <- gets lastKeyRotation ;;
  if t - last >? KEY_ROTATION_INTERVAL then
    key <- generateMasterKey ;;
    modify (set_masterKey key) ;;
    modify (set_sessionKeys ∅) ;;
    modify (set_lastKeyRotation t) ;;
    push_log (KEY_ROTATION t)
  else ret tt.

(** The level [detectAttackPattern] assigns for a record with [n] suspicious
    events. *)
Definition threatLevelFor (n : nat) : ThreatLevel :=
  if (5 <? n)%nat then CRITICAL else if (2 <? n)%nat then HIGH else MEDIUM.

Definition truthy_and (body : option string) (test : string -> bool) : bool :=
  match body with
  | Some s => if decide (s = "") then false else test s
  | None => false
  end.

Definition detectAttackPattern (context : Context) : M bool :=
  let ip := or_default (ctx_ip context) "unknown" in
  let userAgent := or_default (ctx_userAgent context) "" in
  timestamp <- now ;;
  patterns <- gets attackPatterns ;;
  let pattern :=
    match patterns !! ip with
    | Some r => r
    | None => {| requestCount := 0; firstRequest := timestamp; suspiciousPatterns := [] |}
    end in
  let count := requestCount pattern + 1 in
  let suspiciousIndicators :=
    [ includes "sqlmap" userAgent || includes "nmap" userAgent;
      truthy_and (ctx_body context)
        (fun body => includes "union select" body || includes "<script" body);
      count >? 100;
      (timestamp - firstRequest pattern <? 1000) && (count >? 10) ] in
  let isSuspicious := existsb (fun indicator => indicator) suspiciousIndicators in
  if isSuspicious then
    let events := suspiciousPatterns pattern ++
      [ {| se_timestamp := timestamp; se_indicators := suspiciousIndicators;
           se_context := context |} ] in
    modify (set_attackPatterns
              (<[ ip := {| requestCount := count; firstRequest := firstRequest pattern;
                           suspiciousPatterns := events |} ]> patterns)) ;;
    modify (set_threatLevel (threatLevelFor (length events))) ;;
    ret true
  else
    modify (set_attackPatterns
              (<[ ip := {| requestCount := count; firstRequest := firstRequest pattern;
                           suspiciousPatterns := suspiciousPatterns pattern |} ]> patterns)) ;;
    ret false.

Definition triggerSecurityResponse (context : Context) : M unit :=
  let ip := or_default (ctx_ip context) "unknown" in
  t <- now ;;
  level <- gets threatLevel ;;
  push_log (SECURITY_INCIDENT t ip context level).

(** [JSON.parse] returns: no anomaly; it throws: anomaly. *)
Definition detectDecryptionAnomaly (decryptedData : string) (context : Context) : bool :=
  negb (JSON_parse decryptedData).

Definition logEncryptionEvent (context : Context) (status : string)
    (error : option string) : M unit :=
  t <- now ;;
  level <- gets threatLevel ;;
  push_log (CRYPTO_EVENT t ENCRYPTION status context error level) ;;
  log <- gets securityLog ;;
  if (1000 <? length log)%nat
  then modify (set_securityLog (slice log (-1000) None))
  else ret tt.

Definition logDecryptionEvent (context : Context) (status : string)
    (error : option string) : M unit :=
  t <- now ;;
  level <- gets threatLevel ;;
  push_log (CRYPTO_EVENT t DECRYPTION status context error level).

Definition LAYER1_AAD : Buffer := utf8 "SECUREVIBE_LAYER1".

(** The [try] block of [encrypt]. *)
Definition encrypt_try (plainText : string) (context : Context) : M string :=
  checkKeyRotation ;;
  sessionKey <- generateSessionKey context ;;
  flagged <- detectAttackPattern context ;;
  if flagged : bool then
    triggerSecurityResponse context ;;
    throw "SECURITY_VIOLATION_DETECTED"
  else
    iv1 <- randomBytes 16 ;;
    sealed <- lift (createCipher_gcm sessionKey LAYER1_AAD (utf8 plainText)) ;;
    let '(encrypted1, authTag1) := sealed in
    let combined1 := iv1 ++ authTag1 ++ encrypted1 in
    let layer2Data := securevibeTransform combined1 1 in
    iv2 <- randomBytes 16 ;;
    key <- gets masterKey ;;
    encrypted2 <- lift (createCipheriv_cbc key iv2 layer2Data) ;;
    t <- now ;;
    let finalData := SECUREVIBE_SIGNATURE ++ iv2 ++ encrypted2 ++ utf8 (toString t) in
    logEncryptionEvent context "SUCCESS" None ;;
    ret (base64_encode finalData).

(** The [catch] block of [encrypt]. *)
Definition encrypt_catch (context : Context) (message : string) : M string :=
  logEncryptionEvent context "FAILED" (Some message) ;;
  throw "ENCRYPTION_FAILED".

Definition encrypt (plainText : string) (context : Context) : M string :=
  try_catch (encrypt_try plainText context) (encrypt_catch context).

Definition signature_length : Z := Z.of_nat (length SECUREVIBE_SIGNATURE).

(** The [try] block of [decrypt]. *)
Definition decrypt_try (encryptedText : string) (context : Context) : M string :=
  checkKeyRotation ;;
  let encryptedData := base64_decode encryptedText in
  let signature := slice encryptedData 0 (Some signature_length) in
  if negb (bool_decide (signature = SECUREVIBE_SIGNATURE)) then
    triggerSecurityResponse context ;;
    throw "INVALID_SIGNATURE"
  else
    let timestamp := slice encryptedData (-13) None in
    let iv2 := slice encryptedData signature_length (Some (signature_length + 16)) in
    let encrypted2 := slice encryptedData (signature_length + 16) (Some (-13)) in
    key <- gets masterKey ;;
    layer2Data <- lift (createDecipheriv_cbc key iv2 encrypted2) ;;
    let combined1 := reverseSecurevibeTransform layer2Data 1 in
    let iv1 := slice combined1 0 (Some 16) in
    let authTag1 := slice combined1 16 (Some 32) in
    let encrypted1 := slice combined1 32 None in
    sessionKey <- generateSessionKey context ;;
    opened <- lift (createDecipher_gcm sessionKey LAYER1_AAD authTag1 encrypted1) ;;
    let decrypted := utf8_decode opened in
    if detectDecryptionAnomaly decrypted context then
      triggerSecurityResponse context ;;
      throw "DECRYPTION_INTEGRITY_VIOLATION"
    else
      logDecryptionEvent context "SUCCESS" None ;;
      ret decrypted.

(** The [catch] block of [decrypt]. *)
Definition decrypt_catch (context : Context) (message : string) : M string :=
  logDecryptionEvent context "FAILED" (Some message) ;;
  throw "DECRYPTION_FAILED".

Definition decrypt (encryptedText : string) (context : Context) : M string :=
  try_catch (decrypt_try encryptedText context) (decrypt_catch context).

Definition emergencyKeyRotation : M unit :=
  key <- generateMasterKey ;;
  modify (set_masterKey key) ;;
  modify (set_sessionKeys ∅) ;;
  t <- now ;;
  modify (set_lastKeyRotation t) ;;
  t' <- now ;;
  push_log (EMERGENCY_KEY_ROTATION t').

(** The constructor, run once when the module is loaded: the process before
    any request. *)
Definition blank : Process :=
  {| engine := {| masterKey := []; sessionKeys := ∅; attackPatterns := ∅;
                  lastKeyRotation := 0; securityLog := []; threatLevel := LOW |};
     requestTracker := None; userRequestTracker := None;
     clockReads := 0; randomDraws := 0 |}.

Definition constructor : M unit :=
  key <- generateMasterKey ;;
  modify (set_masterKey key) ;;
  modify (set_sessionKeys ∅) ;;
  modify (set_attackPatterns ∅) ;;
  t <- now ;;
  modify (set_lastKeyRotation t) ;;
  modify (set_securityLog []) ;;
  modify (set_threatLevel LOW).

Definition startup : Process := state_after (constructor blank).

End WithRuntime.

(** ** JSON values and [JSON.stringify]

    The parsed body and query of a request. Numbers are the integers. *)
#[local] Unset Elimination Schemes.
Inductive JValue :=
  | JNull
  | JBool (b : bool)
  | JNumber (n : Z)
  | JString (s : string)
  | JArray (items : list JValue)
  | JObject (fields : list (string * JValue)).
#[local] Set Elimination Schemes.

(** Induction on a value, with the hypothesis for every element of an array
    and every field of an object. *)
Section JValue_induction.
Variable P : JValue -> Prop.
Hypothesis P_null : P JNull.
Hypothesis P_bool : forall b, P (JBool b).
Hypothesis P_number : forall n, P (JNumber n).
Hypothesis P_string : forall s, P (JString s).
Hypothesis P_array : forall items, Forall P items -> P (JArray items).
Hypothesis P_object :
  forall fields, Forall (fun kv => P (snd kv)) fields -> P (JObject fields).

Fixpoint JValue_induction (v : JValue) : P v :=
  match v with
  | JNull => P_null
  | JBool b => P_bool b
  | JNumber n => P_number n
  | JString s => P_string s
  | JArray items =>
      P_array items
        ((fix all (l : list JValue) : Forall P l :=
            match l with
            | [] => List.Forall_nil P
            | x :: l' => List.Forall_cons P x l' (JValue_induction x) (all l')
            end) items)
  | JObject fields =>
      P_object fields
        ((fix all (l : list (string * JValue)) : Forall (fun kv => P (snd kv)) l :=
            match l with
            | [] => List.Forall_nil _
            | kv :: l' =>
                List.Forall_cons (fun kv => P (snd kv)) kv l'
                            (JValue_induction (snd kv)) (all l')
            end) fields)
  end.

End JValue_induction.

Definition double_quote : ascii := ascii_of_N 34.
Definition backslash : ascii := ascii_of_N 92.

Definition hex_digit (n : N) : ascii :=
  if (n <? 10)%N then ascii_of_N (48 + n) else ascii_of_N (87 + n).

(** One character of a quoted string (QuoteJSONString of ECMAScript). *)
Definition quote_char (c : ascii) : string :=
  let n := N_of_ascii c in
  if (n =? 34)%N then String backslash (String double_quote "")
  else if (n =? 92)%N then String backslash (String backslash "")
  else if (n =? 8)%N then "\b"
  else if (n =? 12)%N then "\f"
  else if (n =? 10)%N then "\n"
  else if (n =? 13)%N then "\r"
  else if (n =? 9)%N then "\t"
  else if (n <? 32)%N then
    "\u00" +:+ String (hex_digit (n / 16)) (String (hex_digit (n mod 16)) "")
  else String c "".

Fixpoint quote_chars (s : string) : string :=
  match s with
  | EmptyString => ""
  | String c s' => quote_char c +:+ quote_chars s'
  end.

Definition quote (s : string) : string :=
  String double_quote (quote_chars s +:+ String double_quote "").

Fixpoint join_with (sep : string) (l : list string) : string :=
  match l with
  | [] => ""
  | [x] => x
  | x :: l' => x +:+ sep +:+ join_with sep l'
  end.

Fixpoint stringify (v : JValue) : string :=
  match v with
  | JNull => "null"
  | JBool true => "true"
  | JBool false => "false"
  | JNumber n => toString n
  | JString s => quote s
  | JArray items => "[" +:+ join_with "," (map stringify items) +:+ "]"
  | JObject fields =>
      "{" +:+ join_with ","
                (map (fun kv => quote (fst kv) +:+ ":" +:+ stringify (snd kv)) fields)
          +:+ "}"
  end.

(** [JSON.stringify(x || {})] for a value [x] that may be undefined. *)
Definition falsy (v : JValue) : bool :=
  match v with
  | JNull | JBool false | JNumber 0 | JString EmptyString => true
  | _ => false
  end.

Definition stringify_or_empty (x : option JValue) : string :=
  match x with
  | Some v => if falsy v then "{}" else stringify v
  | None => "{}"
  end.

(** ** Regular expressions

    The patterns of the middleware, with [pattern.test(text)]: some substring
    of the text matches. Matching is by derivatives. *)
Inductive Regex :=
  | Nothing
  | Epsilon
  | Class (accepts : ascii -> bool)
  | Seq (r1 r2 : Regex)
  | Alt (r1 r2 : Regex)
  | Star (r : Regex).

Fixpoint nullable (r : Regex) : bool :=
  match r with
  | Nothing => false
  | Epsilon => true
  | Class _ => false
  | Seq r1 r2 => nullable r1 && nullable r2
  | Alt r1 r2 => nullable r1 || nullable r2
  | Star _ => true
  end.

Fixpoint derivative (c : ascii) (r : Regex) : Regex :=
  match r with
  | Nothing => Nothing
  | Epsilon => Nothing
  | Class accepts => if accepts c then Epsilon else Nothing
  | Seq r1 r2 =>
      if nullable r1
      then Alt (Seq (derivative c r1) r2) (derivative c r2)
      else Seq (derivative c r1) r2
  | Alt r1 r2 => Alt (derivative c r1) (derivative c r2)
  | Star r' => Seq (derivative c r') (Star r')
  end.

Fixpoint matches (r : Regex) (s : string) : bool :=
  match s with
  | EmptyString => nullable r
  | String c s' => matches (derivative c r) s'
  end.

Definition any_char : Regex := Class (fun _ => true).

(** [pattern.test(text)] for a pattern without anchors. *)
Definition test (pattern : Regex) (text : string) : bool :=
  matches (Seq (Star any_char) (Seq pattern (Star any_char))) text.

Definition to_lower (c : ascii) : ascii :=
  let n := N_of_ascii c in
  if ((65 <=? n) && (n <=? 90))%N then ascii_of_N (n + 32) else c.

(** A character of a pattern, and the same under the [i] flag. *)
Definition chr (c : ascii) : Regex := Class (Ascii.eqb c).
Definition chr_i (c : ascii) : Regex :=
  Class (fun x => Ascii.eqb (to_lower x) (to_lower c)).

(** [.]: any character but a line terminator, which is a line feed, a
    carriage return, U+2028 or U+2029. The patterns have [.] under a star
    only. Over the bytes of UTF-8 the two separators are E2 80 A8 and
    E2 80 A9, and the byte E2 is nowhere but at the head of a character: so
    a step of [.*] takes a byte that is neither a line break nor E2, or E2
    and a byte other than 80, or E2, 80 and a byte other than A8 and A9. *)
Definition line_break (x : ascii) : bool :=
  Ascii.eqb x (ascii_of_N 10) || Ascii.eqb x (ascii_of_N 13).

Definition byte_but (excluded : list N) : Regex :=
  Class (fun x => negb (line_break x) && negb (existsb (N.eqb (N_of_ascii x)) excluded)).

Definition dot : Regex :=
  Alt (byte_but [226%N])
      (Seq (chr (ascii_of_N 226))
           (Alt (byte_but [128%N])
                (Seq (chr (ascii_of_N 128)) (byte_but [168%N; 169%N])))).

Fixpoint literal (s : string) : Regex :=
  match s with
  | EmptyString => Epsilon
  | String c s' => Seq (chr c) (literal s')
  end.

Fixpoint literal_i (s : string) : Regex :=
  match s with
  | EmptyString => Epsilon
  | String c s' => Seq (chr_i c) (literal_i s')
  end.

(** ** The error table of [errorHandler.js] *)

Record ErrorConfig := {
  code : Z;
  message : string;
  details : string;
  category : string;
  upgradeUrl : option string;
  retryAfter : option Z
}.

(** The entries of [ERRORS] that the middleware raises. *)
Definition SUBSCRIPTION_REQUIRED : ErrorConfig :=
  {| code := 402; message := "Subscription required";
     details := "This feature requires an active subscription. Please upgrade your plan.";
     category := "SUBSCRIPTION"; upgradeUrl := Some "/pricing"; retryAfter := None |}.

Definition USAGE_LIMIT_EXCEEDED : ErrorConfig :=
  {| code := 429; message := "Usage limit exceeded";
     details := "You have exceeded your monthly usage limit. Please upgrade or wait until next month.";
     category := "USAGE"; upgradeUrl := Some "/pricing"; retryAfter := None |}.

Definition RATE_LIMIT_EXCEEDED : ErrorConfig :=
  {| code := 429; message := "Rate limit exceeded";
     details := "Too many requests. Please slow down and try again later.";
     category := "RATE_LIMIT"; upgradeUrl := None; retryAfter := Some 60 |}.

(** The other entries of [ERRORS]. *)
Definition INVALID_CREDENTIALS : ErrorConfig :=
  {| code := 401; message := "Invalid credentials provided";
     details := "The email or password you entered is incorrect.";
     category := "AUTHENTICATION"; upgradeUrl := None; retryAfter := None |}.

Definition ACCOUNT_LOCKED : ErrorConfig :=
  {| code := 423; message := "Account temporarily locked";
     details := "Your account has been locked due to multiple failed login attempts. Please try again later.";
     category := "AUTHENTICATION"; upgradeUrl := None; retryAfter := None |}.

Definition EMAIL_NOT_VERIFIED : ErrorConfig :=
  {| code := 403; message := "Email verification required";
     details := "Please verify your email address before logging in.";
     category := "AUTHENTICATION"; upgradeUrl := None; retryAfter := None |}.

Definition TOKEN_EXPIRED : ErrorConfig :=
  {| code := 401; message := "Authentication token expired";
     details := "Your session has expired. Please log in again.";
     category := "AUTHENTICATION"; upgradeUrl := None; retryAfter := None |}.

Definition INVALID_TOKEN : ErrorConfig :=
  {| code := 401; message := "Invalid authentication token";
     details := "The provided token is invalid or malformed.";
     category := "AUTHENTICATION"; upgradeUrl := None; retryAfter := None |}.

Definition SUBSCRIPTION_EXPIRED : ErrorConfig :=
  {| code := 402; message := "Subscription expired";
     details := "Your subscription has expired. Please renew to continue using this service.";
     category := "SUBSCRIPTION"; upgradeUrl := Some "/pricing"; retryAfter := None |}.

Definition FEATURE_NOT_AVAILABLE : ErrorConfig :=
  {| code := 402; message := "Feature not available";
     details := "This feature is not included in your current subscription plan.";
     category := "SUBSCRIPTION"; upgradeUrl := Some "/pricing"; retryAfter := None |}.

Definition RESOURCE_CONFLICT : ErrorConfig :=
  {| code := 409; message := "Resource conflict";
     details := "The requested operation conflicts with existing data.";
     category := "BUSINESS_LOGIC"; upgradeUrl := None; retryAfter := None |}.

Definition ENDPOINT_DEPRECATED : ErrorConfig :=
  {| code := 410; message := "Endpoint deprecated";
     details := "This endpoint has been permanently removed. Please use the updated API.";
     category := "API_VERSION"; upgradeUrl := None; retryAfter := None |}.

Definition MAGIC_LINK_EXPIRED : ErrorConfig :=
  {| code := 410; message := "Magic link expired";
     details := "This magic link has expired for security reasons. Please request a new one.";
     category := "MAGIC_LINK"; upgradeUrl := None; retryAfter := None |}.

Definition MAGIC_LINK_USED : ErrorConfig :=
  {| code := 410; message := "Magic link already used";
     details := "This magic link has already been used and cannot be used again.";
     category := "MAGIC_LINK"; upgradeUrl := None; retryAfter := None |}.

Definition MAGIC_LINK_INVALID : ErrorConfig :=
  {| code := 400; message := "Invalid magic link";
     details := "The magic link format is invalid or corrupted.";
     category := "MAGIC_LINK"; upgradeUrl := None; retryAfter := None |}.

Definition INVALID_INPUT : ErrorConfig :=
  {| code := 400; message := "Invalid input provided";
     details := "Please check your input and try again.";
     category := "VALIDATION"; upgradeUrl := None; retryAfter := None |}.

Definition MISSING_REQUIRED_FIELD : ErrorConfig :=
  {| code := 400; message := "Required field missing";
     details := "A required field is missing from your request.";
     category := "VALIDATION"; upgradeUrl := None; retryAfter := None |}.

Definition INVALID_EMAIL_FORMAT : ErrorConfig :=
  {| code := 400; message := "Invalid email format";
     details := "Please provide a valid email address.";
     category := "VALIDATION"; upgradeUrl := None; retryAfter := None |}.

Definition PASSWORD_TOO_WEAK : ErrorConfig :=
  {| code := 400; message := "Password too weak";
     details := "Password must be at least 6 characters long and contain a mix of letters and numbers.";
     category := "VALIDATION"; upgradeUrl := None; retryAfter := None |}.

Definition INVALID_CLIENT_ID : ErrorConfig :=
  {| code := 403; message := "Invalid client configuration";
     details := "The client ID provided is not authorized to use this service.";
     category := "CLIENT_AUTH"; upgradeUrl := None; retryAfter := None |}.

Definition INTERNAL_ERROR : ErrorConfig :=
  {| code := 500; message := "Internal server error";
     details := "An unexpected error occurred. Our team has been notified.";
     category := "SERVER_ERROR"; upgradeUrl := None; retryAfter := None |}.

Definition SERVICE_UNAVAILABLE : ErrorConfig :=
  {| code := 503; message := "Service temporarily unavailable";
     details := "The service is temporarily down for maintenance. Please try again in a few minutes.";
     category := "SERVER_ERROR"; upgradeUrl := None; retryAfter := None |}.

Definition DATABASE_ERROR : ErrorConfig :=
  {| code := 503; message := "Database temporarily unavailable";
     details := "Unable to connect to database. Please try again.";
     category := "SERVER_ERROR"; upgradeUrl := None; retryAfter := None |}.

Definition EMAIL_SERVICE_ERROR : ErrorConfig :=
  {| code := 503; message := "Email service temporarily unavailable";
     details := "Unable to send email at this time. Please try again later.";
     category := "SERVER_ERROR"; upgradeUrl := None; retryAfter := None |}.

Definition EXTERNAL_SERVICE_ERROR : ErrorConfig :=
  {| code := 502; message := "External service error";
     details := "A required external service is currently unavailable.";
     category := "SERVER_ERROR"; upgradeUrl := None; retryAfter := None |}.

(** The whole table, in the order of the source. *)
Definition ERRORS_entries : list (string * ErrorConfig) :=
  [ ("INVALID_CREDENTIALS", INVALID_CREDENTIALS);
    ("ACCOUNT_LOCKED", ACCOUNT_LOCKED);
    ("EMAIL_NOT_VERIFIED", EMAIL_NOT_VERIFIED);
    ("TOKEN_EXPIRED", TOKEN_EXPIRED);
    ("INVALID_TOKEN", INVALID_TOKEN);
    ("SUBSCRIPTION_REQUIRED", SUBSCRIPTION_REQUIRED);
    ("SUBSCRIPTION_EXPIRED", SUBSCRIPTION_EXPIRED);
    ("FEATURE_NOT_AVAILABLE", FEATURE_NOT_AVAILABLE);
    ("USAGE_LIMIT_EXCEEDED", USAGE_LIMIT_EXCEEDED);
    ("RESOURCE_CONFLICT", RESOURCE_CONFLICT);
    ("ENDPOINT_DEPRECATED", ENDPOINT_DEPRECATED);
    ("MAGIC_LINK_EXPIRED", MAGIC_LINK_EXPIRED);
    ("MAGIC_LINK_USED", MAGIC_LINK_USED);
    ("MAGIC_LINK_INVALID", MAGIC_LINK_INVALID);
    ("INVALID_INPUT", INVALID_INPUT);
    ("MISSING_REQUIRED_FIELD", MISSING_REQUIRED_FIELD);
    ("INVALID_EMAIL_FORMAT", INVALID_EMAIL_FORMAT);
    ("PASSWORD_TOO_WEAK", PASSWORD_TOO_WEAK);
    ("INVALID_CLIENT_ID", INVALID_CLIENT_ID);
    ("INTERNAL_ERROR", INTERNAL_ERROR);
    ("SERVICE_UNAVAILABLE", SERVICE_UNAVAILABLE);
    ("DATABASE_ERROR", DATABASE_ERROR);
    ("EMAIL_SERVICE_ERROR", EMAIL_SERVICE_ERROR);
    ("EXTERNAL_SERVICE_ERROR", EXTERNAL_SERVICE_ERROR);
    ("RATE_LIMIT_EXCEEDED", RATE_LIMIT_EXCEEDED) ].

(** The entry of a table under a key, if the key is written in it. *)
Fixpoint entry_of (errorType : string) (table : list (string * ErrorConfig))
    : option ErrorConfig :=
  match table with
  | [] => None
  | (key, config) :: rest =>
      if decide (key = errorType) then Some config else entry_of errorType rest
  end.

(** [ERRORS[errorType]], for an [errorType] that is not the name of a
    property which every object inherits. *)
Definition ERRORS (errorType : string) : option ErrorConfig :=
  entry_of errorType ERRORS_entries.

(** A [SecureVibeError]: the table entry and the time of construction (the
    clock reading behind [new Date().toISOString()]). *)
Record SecureVibeError := {
  err_config : ErrorConfig;
  err_timestamp : Z
}.

(** [getSuggestions()] *)
Definition getSuggestions (cat : string) : list string :=
  if decide (cat = "AUTHENTICATION") then
    ["Try logging in again with correct credentials";
     "Reset your password if you forgot it"]
  else if decide (cat = "SUBSCRIPTION") then
    ["Check your current subscription status";
     "Contact support to upgrade your plan"]
  else if decide (cat = "VALIDATION") then
    ["Check the API documentation for correct parameter format";
     "Ensure all required fields are provided"]
  else if decide (cat = "MAGIC_LINK") then
    ["Request a new magic link";
     "Check that you clicked the complete link"]
  else if decide (cat = "RATE_LIMIT") then
    ["Wait a few minutes before trying again";
     "Consider upgrading to a higher tier for more requests"]
  else if decide (cat = "SERVER_ERROR") then
    ["Try again in a few minutes";
     "Check our status page for service updates"]
  else [].

(** The [error] object that [toResponse(includeDetails)] builds. *)
Record ErrorResponse := {
  resp_code : Z;
  resp_message : string;
  resp_category : string;
  resp_timestamp : Z;
  resp_upgradeUrl : option string;
  resp_retryAfter : option Z;
  resp_details : option string;
  resp_suggestions : list string
}.

Definition toResponse {rt : Runtime} (includeDetails : bool) (e : SecureVibeError)
    : ErrorResponse :=
  let c := err_config e in
  {| resp_code := code c;
     resp_message := message c;
     resp_category := category c;
     resp_timestamp := err_timestamp e;
     resp_upgradeUrl := upgradeUrl c;
     resp_retryAfter :=
       match retryAfter c with
       | Some 0 => None
       | other => other
       end;
     resp_details :=
       if includeDetails || negb (bool_decide (env_NODE_ENV = Some "production"))
       then Some (details c) else None;
     resp_suggestions := getSuggestions (category c) |}.

(** ** Requests and what a middleware does with them *)

Record Request := {
  req_ip : option string;
  req_remoteAddress : option string;
  req_userAgent : option string;
  req_path : string;
  req_url : string;
  req_body : option JValue;
  req_query : option JValue;
  req_apiKey : option string
}.

(** A middleware either calls [next()] or answers itself with
    [res.status(code).json(body)]. *)
Inductive Verdict :=
  | Next
  | Respond (status : Z) (body : ErrorResponse).

(** The patterns of [detectSuspiciousActivity], in the order of the source. *)
Definition suspiciousPatterns_list : list Regex :=
  [ literal "..";
    literal_i "<script";
    Seq (literal_i "union") (Seq (Star dot) (literal_i "select"));
    literal_i "eval(";
    literal_i "base64" ].

(** A value interpolated in a template literal. *)
Definition interpolate (x : option string) : string :=
  match x with
  | Some s => s
  | None => "undefined"
  end.

(** [a || b] for two strings that may be undefined. *)
Definition or_else (a b : option string) : option string :=
  match a with
  | Some s => if decide (s = "") then b else a
  | None => b
  end.

(** The key of a request in [global.requestTracker]: the template literal
    with [ip] and [path]. *)
Definition rate_key (req : Request) : string :=
  let ip := or_else (req_ip req) (req_remoteAddress req) in
  let path := req_path req in
  interpolate ip +:+ "-" +:+ path.

(** The test [suspiciousPatterns.some(...)] of [detectSuspiciousActivity]. *)
Definition isSuspicious (req : Request) : bool :=
  existsb (fun pattern =>
             test pattern (req_url req) ||
             test pattern (stringify_or_empty (req_body req)) ||
             test pattern (stringify_or_empty (req_query req)))
          suspiciousPatterns_list.

Section Middleware.
Context {rt : Runtime}.

(** [new SecureVibeError(errorType, null, metadata)] *)
Definition new_SecureVibeError (errorType : string) : M SecureVibeError :=
  match ERRORS errorType with
  | None => throw ("Unknown error type: " +:+ errorType)
  | Some config =>
      t <- now ;;
      ret {| err_config := config; err_timestamp := t |}
  end.

Definition respond_with (e : SecureVibeError) : Verdict :=
  Respond (code (err_config e)) (toResponse false e).

Definition get_requestTracker : M (gmap string RateCounter) :=
  fun p => match requestTracker p with
           | Some m => (Ok m, p)
           | None => (Ok ∅, set_requestTracker ∅ p)
           end.

Definition put_requestTracker (m : gmap string RateCounter) : M unit :=
  fun p => (Ok tt, set_requestTracker m p).

Definition get_userRequestTracker : M (gmap string UserCounter) :=
  fun p => match userRequestTracker p with
           | Some m => (Ok m, p)
           | None => (Ok ∅, set_userRequestTracker ∅ p)
           end.

Definition put_userRequestTracker (m : gmap string UserCounter) : M unit :=
  fun p => (Ok tt, set_userRequestTracker m p).

(** The first component of the result is the value of
    [req.suspiciousActivity] the function leaves: [true] when it sets it. *)
Definition detectSuspiciousActivity (req : Request) : M (bool * Verdict) :=
  let isSuspicious := isSuspicious req in
  tracker <- get_requestTracker ;;
  let key := rate_key req in
  t <- now ;;
  let window := 60 * 1000 in
  let limit := 30 in
  match tracker !! key with
  | None =>
      put_requestTracker (<[ key := {| rc_count := 1; rc_firstRequest := t |} ]> tracker) ;;
      ret (isSuspicious, Next)
  | Some data =>
      if t - rc_firstRequest data >? window then
        put_requestTracker (<[ key := {| rc_count := 1; rc_firstRequest := t |} ]> tracker) ;;
        ret (isSuspicious, Next)
      else
        let count := rc_count data + 1 in
        put_requestTracker
          (<[ key := {| rc_count := count; rc_firstRequest := rc_firstRequest data |} ]> tracker) ;;
        if count >? limit then
          error <- new_SecureVibeError "RATE_LIMIT_EXCEEDED" ;;
          ret (isSuspicious, respond_with error)
        else ret (isSuspicious, Next)
  end.

(** The two tiers of [userRateLimit]: requests per window, window length. *)
Definition user_limits (paid : bool) : Z * Z :=
  if paid then (1000, 15 * 60 * 1000) else (100, 15 * 60 * 1000).

Definition userRateLimit (req : Request) : M Verdict :=
  match or_else (req_apiKey req) None with
  | None => ret Next
  | Some apiKey =>
      try_catch
        (found <- lift (User_findOne apiKey) ;;
         match found with
         | None => ret Next
         | Some user =>
             let userLimit := user_limits (isPaid user) in
             tracker <- get_userRequestTracker ;;
             let key := "user_" +:+ user_id user in
             t <- now ;;
             match tracker !! key with
             | None =>
                 put_userRequestTracker
                   (<[ key := {| uc_count := 1; uc_firstRequest := t;
                                 uc_limit := fst userLimit;
                                 uc_windowMs := snd userLimit |} ]> tracker) ;;
                 ret Next
             | Some data =>
                 if t - uc_firstRequest data >? uc_windowMs data then
                   put_userRequestTracker
                     (<[ key := {| uc_count := 1; uc_firstRequest := t;
                                   uc_limit := uc_limit data;
                                   uc_windowMs := uc_windowMs data |} ]> tracker) ;;
                   ret Next
                 else
                   let count := uc_count data + 1 in
                   put_userRequestTracker
                     (<[ key := {| uc_count := count;
                                   uc_firstRequest := uc_firstRequest data;
                                   uc_limit := uc_limit data;
                                   uc_windowMs := uc_windowMs data |} ]> tracker) ;;
                   if count >? uc_limit data then
                     error <- new_SecureVibeError
                                (if isPaid user then "USAGE_LIMIT_EXCEEDED"
                                 else "SUBSCRIPTION_REQUIRED") ;;
                     ret (respond_with error)
                   else ret Next
             end
         end)
        (fun _ => ret Next)
  end.

End Middleware.

(** ** A reference runtime

    A small executable runtime, used to run the code on concrete inputs. Its
    digest and ciphers are stand-ins that keep what the code relies on (the
    sizes, and that each decipher undoes its cipher and rejects anything
    else); [JSON_parse] recognises the JSON grammar. *)
Module Reference.

Definition digest (data : Buffer) : Buffer :=
  map (fun i => byte_of_Z
                  (fold_left (fun acc b => (acc * 31 + byte_to_Z b + 1) mod 65521)
                             data (Z.of_nat i + 7)))
      (seq 0 32).

Definition byte_xor (a b : byte) : byte :=
  byte_of_Z (Z.lxor (byte_to_Z a) (byte_to_Z b)).

Definition xor_with (key data : Buffer) : Buffer :=
  map_indexed (fun i b => byte_xor b (nth (i mod length key)%nat key x00)) 0 data.

Definition tag_of (key aad data : Buffer) : Buffer :=
  take 16 (digest (key ++ aad ++ data)).

Definition seal (key aad data : Buffer) : Outcome (Buffer * Buffer) :=
  Ok (xor_with key data, tag_of key aad data).

Definition open (key aad tag data : Buffer) : Outcome Buffer :=
  let plain := xor_with key data in
  if bool_decide (tag = tag_of key aad plain) then Ok plain
  else Throw "Unsupported state or unable to authenticate data".

Definition cbc_encrypt (key iv data : Buffer) : Outcome Buffer :=
  if negb (length key =? 32)%nat then Throw "Invalid key length"
  else if negb (length iv =? 16)%nat then Throw "Invalid initialization vector"
  else Ok (xor_with key data ++ tag_of key iv data).

Definition cbc_decrypt (key iv data : Buffer) : Outcome Buffer :=
  if negb (length key =? 32)%nat then Throw "Invalid key length"
  else if negb (length iv =? 16)%nat then Throw "Invalid initialization vector"
  else
    let body := take (length data - 16) data in
    let plain := xor_with key body in
    if bool_decide (drop (length data - 16) data = tag_of key iv plain) then Ok plain
    else Throw "bad decrypt".

Definition random (n size : nat) : Buffer :=
  map (fun i => byte_of_Z (Z.of_nat (n * 37 + i * 11 + 5))) (seq 0 size).

Definition context_fields (c : Context) : list (string * JValue) :=
  match ctx_ip c with Some s => [("ip", JString s)] | None => [] end ++
  match ctx_userAgent c with Some s => [("userAgent", JString s)] | None => [] end ++
  match ctx_body c with Some s => [("body", JString s)] | None => [] end.

(** A recogniser of JSON texts. *)
Definition is_char (n : N) (c : ascii) : bool := (N_of_ascii c =? n)%N.

Definition is_ws (c : ascii) : bool :=
  is_char 32 c || is_char 9 c || is_char 10 c || is_char 13 c.

Definition is_digit (c : ascii) : bool :=
  let n := N_of_ascii c in ((48 <=? n) && (n <=? 57))%N.

Definition is_hex (c : ascii) : bool :=
  let n := N_of_ascii c in
  (((48 <=? n) && (n <=? 57)) || ((65 <=? n) && (n <=? 70)) || ((97 <=? n) && (n <=? 102)))%N.

Fixpoint skip_ws (s : string) : string :=
  match s with
  | String c s' => if is_ws c then skip_ws s' else s
  | EmptyString => s
  end.

Fixpoint skip_digits (s : string) : string :=
  match s with
  | String c s' => if is_digit c then skip_digits s' else s
  | EmptyString => s
  end.

(** At least one digit, then the rest. *)
Definition digits1 (s : string) : option string :=
  match s with
  | String c s' => if is_digit c then Some (skip_digits s') else None
  | EmptyString => None
  end.

Definition number (s : string) : option string :=
  let s := match s with
           | String c s' => if is_char 45 c then s' else s
           | EmptyString => s
           end in
  let after_int :=
    match s with
    | String c s' => if is_char 48 c then Some s' else digits1 s
    | EmptyString => None
    end in
  let after_frac :=
    match after_int with
    | Some (String c s') => if is_char 46 c then digits1 s' else after_int
    | other => other
    end in
  match after_frac with
  | Some (String c s') =>
      if is_char 101 c || is_char 69 c then
        match s' with
        | String d s'' => if is_char 43 d || is_char 45 d then digits1 s'' else digits1 s'
        | EmptyString => None
        end
      else after_frac
  | other => other
  end.

(** The characters of a string after its opening quote, up to and including
    the closing one. *)
Fixpoint string_body (s : string) : option string :=
  match s with
  | EmptyString => None
  | String c s' =>
      if is_char 34 c then Some s'
      else if (N_of_ascii c <? 32)%N then None
      else if is_char 92 c then
        match s' with
        | String e s'' =>
            if is_char 117 e then
              match s'' with
              | String h1 (String h2 (String h3 (String h4 s3))) =>
                  if is_hex h1 && is_hex h2 && is_hex h3 && is_hex h4
                  then string_body s3 else None
              | _ => None
              end
            else if is_char 34 e || is_char 92 e || is_char 47 e || is_char 98 e
                    || is_char 102 e || is_char 110 e || is_char 114 e || is_char 116 e
            then string_body s'' else None
        | EmptyString => None
        end
      else string_body s'
  end.

Definition keyword (k s : string) : option string :=
  if starts_with k s then Some (String.substring (String.length k) (String.length s) s)
  else None.

Inductive Mode := A_value | The_elements | The_members.

Fixpoint parse (fuel : nat) (mode : Mode) (s : string) : option string :=
  match fuel with
  | O => None
  | S fuel' =>
      match mode with
      | A_value =>
          match s with
          | EmptyString => None
          | String c s' =>
              if is_char 123 c then
                match skip_ws s' with
                | String d r => if is_char 125 d then Some r
                                else parse fuel' The_members (String d r)
                | EmptyString => None
                end
              else if is_char 91 c then
                match skip_ws s' with
                | String d r => if is_char 93 d then Some r
                                else parse fuel' The_elements (String d r)
                | EmptyString => None
                end
              else if is_char 34 c then string_body s'
              else if is_char 116 c then keyword "true" s
              else if is_char 102 c then keyword "false" s
              else if is_char 110 c then keyword "null" s
              else number s
          end
      | The_elements =>
          match parse fuel' A_value s with
          | Some r =>
              match skip_ws r with
              | String d r' =>
                  if is_char 44 d then parse fuel' The_elements (skip_ws r')
                  else if is_char 93 d then Some r' else None
              | EmptyString => None
              end
          | None => None
          end
      | The_members =>
          match s with
          | String q s' =>
              if is_char 34 q then
                match string_body s' with
                | Some r =>
                    match skip_ws r with
                    | String d r' =>
                        if is_char 58 d then
                          match parse fuel' A_value (skip_ws r') with
                          | Some r2 =>
                              match skip_ws r2 with
                              | String e r3 =>
                                  if is_char 44 e then parse fuel' The_members (skip_ws r3)
                                  else if is_char 125 e then Some r3 else None
                              | EmptyString => None
                              end
                          | None => None
                          end
                        else None
                    | EmptyString => None
                    end
                | None => None
                end
              else None
          | EmptyString => None
          end
      end
  end.

Definition json_text (s : string) : bool :=
  match parse (2 * String.length s + 2) A_value (skip_ws s) with
  | Some r => match skip_ws r with EmptyString => true | _ => false end
  | None => false
  end.

(** The runtime over a given clock and user collection. *)
Definition runtime (clock : nat -> Z) (users : string -> Outcome (option User)) : Runtime :=
  {| Date_now := clock;
     crypto_randomBytes := random;
     env_JWT_SECRET := None;
     env_NODE_ENV := Some "production";
     sha256 := digest;
     JSON_stringify := fun c => stringify (JObject (context_fields c));
     JSON_parse := json_text;
     createCipher_gcm := seal;
     createDecipher_gcm := open;
     createCipheriv_cbc := cbc_encrypt;
     createDecipheriv_cbc := cbc_decrypt;
     base64_encode := utf8_decode;
     base64_decode := utf8;
     User_findOne := users |}.

End Reference.

(** ** Vocabulary of the properties *)


(** What [logEncryptionEvent] makes of the log after appending to it. *)
Definition capped (log : list LogEntry) : list LogEntry :=
  if (1000 <? length log)%nat then slice log (-1000) None else log.

Definition log_size (p : Process) : nat := length (securityLog (engine p)).

(** The key of a context in [attackPatterns], and its record in a process. *)
Definition source_of (context : Context) : string :=
  or_default (ctx_ip context) "unknown".

Definition record_of (id : string) (p : Process) : option AttackRecord :=
  attackPatterns (engine p) !! id.

(** The record [detectAttackPattern] works on: the one of the table, or a new
    one. *)
Definition record_or_new {rt : Runtime} (id : string) (p : Process) : AttackRecord :=
  match record_of id p with
  | Some r => r
  | None => {| requestCount := 0; firstRequest := Date_now (clockReads p);
               suspiciousPatterns := [] |}
  end.

(** The counter of a request in [global.requestTracker]. *)
Definition tracker_of (p : Process) : gmap string RateCounter :=
  match requestTracker p with
  | Some m => m
  | None => ∅
  end.

Definition counter_of (req : Request) (p : Process) : option RateCounter :=
  match requestTracker p with
  | Some tracker => tracker !! rate_key req
  | None => None
  end.



(** Whether [checkKeyRotation], called in [p], rotates the key. *)
Definition rotation_due {rt : Runtime} (p : Process) : bool :=
  Date_now (clockReads p) - lastKeyRotation (engine p) >? KEY_ROTATION_INTERVAL.

(** The clock reading that [generateSessionKey] uses in a call of [encrypt]
    or [decrypt] that starts in [p]: the first one after [checkKeyRotation]. *)
Definition session_key_reading {rt : Runtime} (p : Process) : Z :=
  Date_now (clockReads (state_after (checkKeyRotation p))).

(** A call of the public interface of the two modules. *)
Inductive Call :=
  | call_encrypt (plainText : string) (context : Context)
  | call_decrypt (encryptedText : string) (context : Context)
  | call_checkKeyRotation
  | call_detectAttackPattern (context : Context)
  | call_triggerSecurityResponse (context : Context)
  | call_logEncryptionEvent (context : Context) (status : string) (error : option string)
  | call_logDecryptionEvent (context : Context) (status : string) (error : option string)
  | call_emergencyKeyRotation
  | call_detectSuspiciousActivity (req : Request)
  | call_userRateLimit (req : Request).

Definition perform {rt : Runtime} (c : Call) (p : Process) : Process :=
  match c with
  | call_encrypt plainText context => state_after (encrypt plainText context p)
  | call_decrypt encryptedText context => state_after (decrypt encryptedText context p)
  | call_checkKeyRotation => state_after (checkKeyRotation p)
  | call_detectAttackPattern context => state_after (detectAttackPattern context p)
  | call_triggerSecurityResponse context => state_after (triggerSecurityResponse context p)
  | call_logEncryptionEvent context status error =>
      state_after (logEncryptionEvent context status error p)
  | call_logDecryptionEvent context status error =>
      state_after (logDecryptionEvent context status error p)
  | call_emergencyKeyRotation => state_after (emergencyKeyRotation p)
  | call_detectSuspiciousActivity req => state_after (detectSuspiciousActivity req p)
  | call_userRateLimit req => state_after (userRateLimit req p)
  end.

(** The process after a sequence of calls. *)
Definition perform_all {rt : Runtime} (calls : list Call) (p : Process) : Process :=
  fold_left (fun q c => perform c q) calls p.

(** The functional laws of the runtime that [decrypt] relies on to undo
    [encrypt]: the sizes of what the random source and the authenticated
    cipher return, each decipher undoing its cipher under the same key, and
    base64 decoding undoing the encoding. *)
Record RuntimeLaws (rt : Runtime) : Prop := {
  randomBytes_size : forall n size, length (crypto_randomBytes n size) = size;
  authTag_size : forall password aad data sealed tag,
    createCipher_gcm password aad data = Ok (sealed, tag) -> length tag = 16%nat;
  decipher_gcm : forall password aad data sealed tag,
    createCipher_gcm password aad data = Ok (sealed, tag) ->
    createDecipher_gcm password aad tag sealed = Ok data;
  decipher_cbc : forall key iv data sealed,
    createCipheriv_cbc key iv data = Ok sealed ->
    createDecipheriv_cbc key iv sealed = Ok data;
  base64_decode_encode : forall data, base64_decode (base64_encode data) = data
}.

(** The clock shows a time whose decimal form has 13 digits (from September
    2001 to November 2286). *)
Definition clock_has_13_digits (rt : Runtime) : Prop :=
  forall n, 10 ^ 12 <= Date_now n < 10 ^ 13.

(** The key [generateSessionKey] derives from a master key, a context and a
    clock reading. *)
Definition session_key {rt : Runtime} (key : Buffer) (context : Context) (t : Z) : Buffer :=
  let contextHash := sha256 (utf8 (JSON_stringify context +:+ toString t)) in
  map (fun i => byte_of_Z (js_and (js_xor (byte_at key i) (byte_at contextHash i)) 255))
      (seq 0 32).

(** The context is flagged by the call of [detectAttackPattern] that [encrypt]
    makes when it starts in [p]. *)
Definition flagged_in_encrypt {rt : Runtime} (context : Context) (p : Process) : Prop :=
  result ((checkKeyRotation ;; generateSessionKey context ;;
           detectAttackPattern context) p) = Ok true.

(** What [encrypt] does for a flagged context, and [decrypt] for a text
    without the signature: neither the text nor a cipher is used. *)
Definition encrypt_abort {rt : Runtime} (context : Context) : M string :=
  checkKeyRotation ;;
  generateSessionKey context ;;
  detectAttackPattern context ;;
  triggerSecurityResponse context ;;
  logEncryptionEvent context "FAILED" (Some "SECURITY_VIOLATION_DETECTED") ;;
  throw "ENCRYPTION_FAILED".

Definition decrypt_abort {rt : Runtime} (context : Context) : M string :=
  checkKeyRotation ;;
  triggerSecurityResponse context ;;
  logDecryptionEvent context "FAILED" (Some "INVALID_SIGNATURE") ;;
  throw "DECRYPTION_FAILED".

(** The cause the last entry of the log records, when that entry reports a
    failed operation. *)
Definition last_failure (p : Process) : option (CryptoEvent * string) :=
  match last (securityLog (engine p)) with
  | Some (CRYPTO_EVENT _ event status _ (Some cause) _) =>
      if decide (status = "FAILED") then Some (event, cause) else None
  | _ => None
  end.

(** Over the reference runtime: a clock that stands still, an empty user
    collection, and the same on a Node.js release that no longer has
    [crypto.createCipher]. *)
Definition still_clock : nat -> Z := fun _ => 1700000000000.

Definition no_users : string -> Outcome (option User) := fun _ => Ok None.

Definition node : Runtime := Reference.runtime still_clock no_users.

(** The same with a clock that shows one millisecond more at every reading. *)
Definition ticking_clock (n : nat) : Z := 1700000000000 + Z.of_nat n.

Definition node_ticking : Runtime := Reference.runtime ticking_clock no_users.

Definition node_without_createCipher : Runtime :=
  {| Date_now := still_clock;
     crypto_randomBytes := Reference.random;
     env_JWT_SECRET := None;
     env_NODE_ENV := Some "production";
     sha256 := Reference.digest;
     JSON_stringify := fun c => stringify (JObject (Reference.context_fields c));
     JSON_parse := Reference.json_text;
     createCipher_gcm := fun _ _ _ => Throw "crypto.createCipher is not a function";
     createDecipher_gcm := fun _ _ _ _ => Throw "crypto.createDecipher is not a function";
     createCipheriv_cbc := Reference.cbc_encrypt;
     createDecipheriv_cbc := Reference.cbc_decrypt;
     base64_encode := utf8_decode;
     base64_decode := utf8;
     User_findOne := no_users |}.

Definition plain_context : Context :=
  {| ctx_ip := Some "1.2.3.4"; ctx_userAgent := None; ctx_body := None |}.

Definition scanner_context : Context :=
  {| ctx_ip := Some "198.51.100.7"; ctx_userAgent := Some "sqlmap/1.7";
     ctx_body := None |}.

(** A text with the magic signature in front and nothing that deciphers
    behind it. *)
Definition forged_text : string :=
  "SECUREVIBE_AUTH_2024" +:+ "0123456789abcdef" +:+ "not a ciphertext, not at all" +:+
  "1700000000000".


(** A user collection with one free-tier user, and a key for which the lookup
    fails. *)
Definition alice : User := {| user_id := "64f1c0ffee"; isPaid := false |}.

Definition directory (apiKey : string) : Outcome (option User) :=
  if decide (apiKey = "key-of-alice") then Ok (Some alice)
  else if decide (apiKey = "key-during-outage") then Throw "MongoNetworkError"
  else Ok None.

Definition node_with_users : Runtime := Reference.runtime still_clock directory.

(** The request of scenario A, with a given API key and body. *)
Definition magic_link_request (apiKey : option string) (body : option JValue) : Request :=
  {| req_ip := Some "203.0.113.5"; req_remoteAddress := None;
     req_userAgent := Some "curl/8.4.0";
     req_path := "/api/auth/magic-link"; req_url := "/api/auth/magic-link";
     req_body := body; req_query := None; req_apiKey := apiKey |}.


(** What a run of [detectSuspiciousActivity] decided, and the flag it left. *)
Definition verdict_of (r : Outcome (bool * Verdict) * Process) : option Verdict :=
  match fst r with
  | Ok (_, v) => Some v
  | Throw _ => None
  end.

Definition flag_of (r : Outcome (bool * Verdict) * Process) : option bool :=
  match fst r with
  | Ok (flag, _) => Some flag
  | Throw _ => None
  end.

(** The answer [res.status(error.code).json(error.toResponse())] for an error
    of the given type. *)
Definition rejects_with {rt : Runtime} (errorType : string) (status : Z) (v : Verdict) : Prop :=
  exists e, ERRORS errorType = Some (err_config e) /\ code (err_config e) = status /\
            v = Respond status (toResponse false e).



(** [t] occurs in [s]. *)
Definition contains (t s : string) : Prop :=
  exists before after, s = before +:+ t +:+ after.

(** A string of the value, a key included, has [t] in it. *)
Fixpoint mentions (t : string) (v : JValue) : bool :=
  match v with
  | JString s => includes t s
  | JArray items => existsb (mentions t) items
  | JObject fields =>
      existsb (fun kv => includes t (fst kv) || mentions t (snd kv)) fields
  | _ => false
  end.

(** The strings a pattern matches. *)
Inductive Matches : Regex -> string -> Prop :=
  | Matches_Epsilon : Matches Epsilon ""
  | Matches_Class accepts c : accepts c = true -> Matches (Class accepts) (String c "")
  | Matches_Seq r1 r2 s1 s2 :
      Matches r1 s1 -> Matches r2 s2 -> Matches (Seq r1 r2) (s1 +:+ s2)
  | Matches_Alt_l r1 r2 s : Matches r1 s -> Matches (Alt r1 r2) s
  | Matches_Alt_r r1 r2 s : Matches r2 s -> Matches (Alt r1 r2) s
  | Matches_Star_nil r : Matches (Star r) ""
  | Matches_Star_cons r s1 s2 :
      Matches r s1 -> Matches (Star r) s2 -> Matches (Star r) (s1 +:+ s2).

(** Equality of two strings up to the case of their letters. *)
Fixpoint same_letters (s t : string) : bool :=
  match s, t with
  | EmptyString, EmptyString => true
  | String a s', String b t' => Ascii.eqb (to_lower b) (to_lower a) && same_letters s' t'
  | _, _ => false
  end.

(** The request of scenario C: a JSON body with an injection attempt in one
    of its fields. *)
Definition injection_body : JValue :=
  JObject [("email", JString "x@example.org"); ("note", JString "1' UNION SELECT password")].

(** The record of [id] in [q] continues the one in [p]: it is still there,
    with a request count and a list of suspicious events at least as long. *)
Definition continues (id : string) (p q : Process) : Prop :=
  forall r, record_of id p = Some r ->
    exists r', record_of id q = Some r' /\
               requestCount r <= requestCount r' /\
               (length (suspiciousPatterns r) <= length (suspiciousPatterns r'))%nat.

(** Runs that leave the engine alone, or its table of attack patterns. *)
Definition same_engine : relation Process := fun p q => engine q = engine p.
Definition same_patterns : relation Process :=
  fun p q => attackPatterns (engine q) = attackPatterns (engine p).

(** Every run of [m] relates the process before to the process after. *)
Definition keeps (R : relation Process) {A} (m : M A) : Prop :=
  forall p, R p (state_after (m p)).

(** No character of the string is escaped by [quote]. *)
Fixpoint unescaped (s : string) : bool :=
  match s with
  | EmptyString => true
  | String c s' => bool_decide (quote_char c = String c "") && unescaped s'
  end.


Definition mixed_calls : list Call :=
  [ call_decrypt "" plain_context;
    call_emergencyKeyRotation;
    call_encrypt "[1,2]" scanner_context;
    call_detectSuspiciousActivity (magic_link_request None None);
    call_encrypt "[1,2]" plain_context;
    call_userRateLimit (magic_link_request (Some "key-of-nobody") None) ].

(** The same request with another body. *)
Definition with_body (body : option JValue) (req : Request) : Request :=
  {| req_ip := req_ip req; req_remoteAddress := req_remoteAddress req;
     req_userAgent := req_userAgent req; req_path := req_path req;
     req_url := req_url req; req_body := body; req_query := req_query req;
     req_apiKey := req_apiKey req |}.

(** The text of an outcome, empty when it is an error. *)
Definition text_of (o : Outcome string) : string :=
  match o with
  | Ok s => s
  | Throw _ => ""
  end.

(** [decrypt] applied to what [encrypt] returns, in the process it leaves. *)
Definition round_trip {rt : Runtime} (plainText : string) (context : Context) : M string :=
  encryptedText <- encrypt plainText context ;;
  decrypt encryptedText context.

(** ** The rest of the engine *)

(** The object [getSecurityStatus()] returns. *)
Record SecurityStatus := {
  status_threatLevel : ThreatLevel;
  status_activeAttackPatterns : nat;
  status_securityEvents : nat;
  status_lastKeyRotation : Z;
  status_encryptionRounds : nat;
  status_algorithm : string
}.

Definition getSecurityStatus : M SecurityStatus :=
  level <- gets threatLevel ;;
  patterns <- gets attackPatterns ;;
  log <- gets securityLog ;;
  last <- gets lastKeyRotation ;;
  ret {| status_threatLevel := level;
         status_activeAttackPatterns := size patterns;
         status_securityEvents := length log;
         status_lastKeyRotation := last;
         status_encryptionRounds := ENCRYPTION_ROUNDS;
         status_algorithm := "SecureVibe Proprietary Multi-Layer AES-256" |}.

(** ** Vocabulary of the invariants of the engine *)

(** A relation between the engine before a run and the engine after it. *)
Definition on_engine (E : relation Engine) : relation Process :=
  fun p q => E (engine p) (engine q).

(** The assignments the methods make to the fields of the engine, each
    related by [E] to the engine it is applied to: a master key out of
    [generateMasterKey], [sessionKeys.clear()], a new [lastKeyRotation], a
    record put in [attackPatterns], a threat level computed from a number of
    events, an entry pushed on the log, and the log cut to its last 1000
    entries. *)
Record EngineUpdates {rt : Runtime} (E : relation Engine) : Prop := {
  upd_masterKey : forall e entropy,
    E e (set_masterKey (slice (mix_rounds entropy) 0 (Some 32)) e);
  upd_sessionKeys : forall e, E e (set_sessionKeys ∅ e);
  upd_lastKeyRotation : forall e t, E e (set_lastKeyRotation t e);
  upd_attackPatterns : forall e ip r,
    E e (set_attackPatterns (<[ ip := r ]> (attackPatterns e)) e);
  upd_threatLevel : forall e n, E e (set_threatLevel (threatLevelFor n) e);
  upd_push : forall e entry, E e (set_securityLog (securityLog e ++ [entry]) e);
  upd_cut : forall e, E e (set_securityLog (slice (securityLog e) (-1000) None) e)
}.

(** The master key is the one before, or has 32 bytes. *)
Definition key_kept_or_sized : relation Engine :=
  fun e e' => masterKey e' = masterKey e \/ length (masterKey e') = 32%nat.

(** The table of session keys is the one before, or empty. *)
Definition cache_kept_or_empty : relation Engine :=
  fun e e' => sessionKeys e' = sessionKeys e \/ sessionKeys e' = ∅.

(** The threat level is the one before, or is not LOW. *)
Definition level_kept_or_raised : relation Engine :=
  fun e e' => threatLevel e' = threatLevel e \/ threatLevel e' <> LOW.

(** The log after is the log before with at most [budget] entries added at
    its end, and with entries removed from its front only where that leaves
    1000 entries or more. *)
Definition log_grows (budget : nat) : relation Engine :=
  fun e e' =>
    exists (removed : nat) (added : list LogEntry),
      (length added <= budget)%nat /\
      securityLog e' = drop removed (securityLog e ++ added) /\
      (removed = 0%nat \/ (1000 <= length (securityLog e'))%nat).

(** Every source that has a record before has one after. *)
Definition sources_kept : relation Engine :=
  fun e e' => dom (attackPatterns e) ⊆ dom (attackPatterns e').

(** The entropy [generateMasterKey] hashes when it is called in [p]. *)
Definition entropy_of {rt : Runtime} (p : Process) : Buffer :=
  crypto_randomBytes (randomDraws p) 32 ++
  utf8 (or_default env_JWT_SECRET "fallback_secret") ++
  utf8 (toString (Date_now (clockReads p))) ++
  crypto_randomBytes (S (randomDraws p)) 16 ++
  SECUREVIBE_SIGNATURE.

(** The request count of a source: 0 while it has no record. *)
Definition count_of (id : string) (p : Process) : Z :=
  match record_of id p with
  | Some r => requestCount r
  | None => 0
  end.

(** The calls that run [detectAttackPattern] for the source [id]. *)
Definition counted (id : string) (c : Call) : Z :=
  match c with
  | call_encrypt _ context | call_detectAttackPattern context =>
      if decide (source_of context = id) then 1 else 0
  | _ => 0
  end.


(** A ciphertext of the reference runtime, the process that produced it, and
    the same ciphertext with other bytes in the place of its trailing
    timestamp. *)
Definition sample_run : Outcome string * Process :=
  encrypt (rt:=node) "[1,2]" plain_context (startup (rt:=node)).

Definition sample_ciphertext : string := text_of (result sample_run).

Definition redated (encryptedText : string) : string :=
  let data := utf8 encryptedText in
  utf8_decode (take (length data - 13) data ++ utf8 "0000000000000").

(** ** Vocabulary of the properties of [userRateLimit] *)

(** The key of a user in [global.userRequestTracker], and the counter found
    under it. *)
Definition user_key (user : User) : string := "user_" +:+ user_id user.

Definition user_tracker_of (p : Process) : gmap string UserCounter :=
  match userRequestTracker p with
  | Some m => m
  | None => ∅
  end.

Definition quota_of (user : User) (p : Process) : option UserCounter :=
  user_tracker_of p !! user_key user.

(** What a run of [userRateLimit] decided. *)
Definition answer_of (r : Outcome Verdict * Process) : option Verdict :=
  match fst r with
  | Ok v => Some v
  | Throw _ => None
  end.

(** The request carries an API key under which [User.findOne] finds [user]. *)
Definition request_of {rt : Runtime} (req : Request) (user : User) : Prop :=
  exists apiKey,
    req_apiKey req = Some apiKey /\ apiKey <> "" /\ User_findOne apiKey = Ok (Some user).

(** The error a user over quota is answered with, by the tier the user is in
    at the time of the request. *)
Definition quota_error (user : User) : string :=
  if isPaid user then "USAGE_LIMIT_EXCEEDED" else "SUBSCRIPTION_REQUIRED".

Definition quota_status (user : User) : Z := if isPaid user then 429 else 402.

(** ** [verifyRequestSignature]

    What the function takes from the platform besides the runtime:
    [parseInt], and [crypto.createHmac('sha256', key).update(payload)
    .digest('hex')]. *)

(** The number [parseInt] returns. *)
Inductive Parsed :=
  | NaN
  | Infinite
  | Integer (n : Z).

Class Signing := {
  parseInt : string -> Parsed;
  createHmac_sha256_hex : string -> string -> string
}.

(** A request with the two headers that only this middleware reads. *)
Record SignedRequest := {
  request : Request;
  x_request_signature : option string;
  x_timestamp : option string
}.

(** The object pushed on [user.securityLogs]. *)
Record SecurityLog := {
  log_action : string;
  log_ipAddress : option string;
  log_userAgent : option string;
  log_details : string
}.

(** What the middleware does with a request: [next()] with nothing verified,
    [next()] with [req.verifiedUser] set, the answer
    [res.status(401).json({success: false, message, poweredBy})], with the
    entry it saved in the log of the user when it saved one, or [next(err)]. *)
Inductive SignatureVerdict :=
  | Unverified
  | Verified (user : User)
  | Unauthorized (message : string) (saved : option (User * SecurityLog))
  | Errored (message : string).

(** [Math.abs(now - requestTime) > 5 * 60 * 1000]: a comparison with NaN is
    false. *)
Definition expired (now : Z) (requestTime : Parsed) : bool :=
  match requestTime with
  | NaN => false
  | Infinite => true
  | Integer t => Z.abs (now - t) >? 5 * 60 * 1000
  end.

(** The document [User.findOne({ apiKey })] finds has the API key it was
    found by, so [user.apiKey] is [apiKey]. *)
Definition verifyRequestSignature {rt : Runtime} {sg : Signing} (req : SignedRequest)
    : M SignatureVerdict :=
  match or_else (x_request_signature req) None,
        or_else (x_timestamp req) None,
        or_else (req_apiKey (request req)) None with
  | Some signature, Some timestamp, Some apiKey =>
      now <- now ;;
      let requestTime := parseInt timestamp in
      if expired now requestTime then
        ret (Unauthorized "Request timestamp expired" None)
      else
        try_catch
          (found <- lift (User_findOne apiKey) ;;
           match found with
           | None => ret (Unauthorized "Invalid API key" None)
           | Some user =>
               let payload :=
                 timestamp +:+ stringify_or_empty (req_body (request req)) in
               let expectedSignature := createHmac_sha256_hex apiKey payload in
               if negb (bool_decide (signature = expectedSignature)) then
                 ret (Unauthorized "Invalid request signature"
                        (Some (user,
                               {| log_action := "INVALID_SIGNATURE";
                                  log_ipAddress := req_ip (request req);
                                  log_userAgent := req_userAgent (request req);
                                  log_details := "Request signature verification failed" |})))
               else ret (Verified user)
           end)
          (fun message => ret (Errored message))
  | _, _, _ => ret Unverified
  end.

(** The header is there and is not the empty string. *)
Definition present (header : option string) (value : string) : Prop :=
  header = Some value /\ value <> "".

(** The three headers of a signed request. *)
Definition signed_with (req : SignedRequest) (signature timestamp apiKey : string) : Prop :=
  present (x_request_signature req) signature /\
  present (x_timestamp req) timestamp /\
  present (req_apiKey (request req)) apiKey.

Definition unsigned (req : SignedRequest) : Prop :=
  or_else (x_request_signature req) None = None \/
  or_else (x_timestamp req) None = None \/
  or_else (req_apiKey (request req)) None = None.

(** ** Vocabulary of the properties of the injection patterns *)

(** [t] occurs in [s] up to the case of its letters. *)
Definition contains_i (t s : string) : Prop :=
  exists part, same_letters t part = true /\ contains part s.

(** No character of the string is a line feed or a carriage return. *)
Fixpoint on_one_line (s : string) : bool :=
  match s with
  | EmptyString => true
  | String c s' =>
      negb (Ascii.eqb c (ascii_of_N 10) || Ascii.eqb c (ascii_of_N 13)) && on_one_line s'
  end.

(** Every character of the string is an ASCII character: none of its bytes
    belongs to one of the line separators outside ASCII, which [.] does not
    match either. *)
Fixpoint ascii_only (s : string) : bool :=
  match s with
  | EmptyString => true
  | String c s' => (N_of_ascii c <? 128)%N && ascii_only s'
  end.

(** [union], then anything on the same line, then [select], in any case. *)
Definition union_then_select (gap_ok : string -> bool) (s : string) : Prop :=
  exists u gap sel,
    same_letters "union" u = true /\ same_letters "select" sel = true /\
    gap_ok gap = true /\ contains (u +:+ gap +:+ sel) s.

(** The three texts of a request that the patterns are tried on. *)
Definition texts_of (req : Request) : list string :=
  [ req_url req; stringify_or_empty (req_body req); stringify_or_empty (req_query req) ].

(** One of the five signatures is in the text. *)
Definition signature_in (gap_ok : string -> bool) (text : string) : Prop :=
  contains ".." text \/ contains_i "<script" text \/ union_then_select gap_ok text \/
  contains_i "eval(" text \/ contains_i "base64" text.

(** ** The rest of [errorHandler.js] *)

(** A [SecureVibeError] with the [metadata] it was built with. The fields
    [code], [message], [category], [details], [upgradeUrl] and [retryAfter]
    of the object are those of [err_config], with the custom details in the
    place of the ones of the table when the constructor was given some. *)
Record ErrorObject := {
  error : SecureVibeError;
  metadata : JValue
}.

Definition with_details (d : string) (c : ErrorConfig) : ErrorConfig :=
  {| code := code c; message := message c; details := d; category := category c;
     upgradeUrl := upgradeUrl c; retryAfter := retryAfter c |}.

(** The functions of [ErrorFactory], with the arguments they take besides the
    metadata. *)
Inductive ErrorFactory :=
  | invalidCredentials
  | accountLocked
  | emailNotVerified
  | tokenExpired
  | invalidToken
  | subscriptionRequired
  | subscriptionExpired
  | featureNotAvailable
  | usageLimitExceeded
  | magicLinkExpired
  | magicLinkUsed
  | magicLinkInvalid
  | invalidInput (details : option string)
  | missingRequiredField (field : option string)
  | invalidEmailFormat
  | passwordTooWeak
  | invalidClientId
  | internalError (details : option string)
  | serviceUnavailable (details : option string)
  | databaseError
  | emailServiceError
  | externalServiceError
  | rateLimitExceeded.

(** The first two arguments each function gives to the constructor. *)
Definition errorType_of (f : ErrorFactory) : string :=
  match f with
  | invalidCredentials => "INVALID_CREDENTIALS"
  | accountLocked => "ACCOUNT_LOCKED"
  | emailNotVerified => "EMAIL_NOT_VERIFIED"
  | tokenExpired => "TOKEN_EXPIRED"
  | invalidToken => "INVALID_TOKEN"
  | subscriptionRequired => "SUBSCRIPTION_REQUIRED"
  | subscriptionExpired => "SUBSCRIPTION_EXPIRED"
  | featureNotAvailable => "FEATURE_NOT_AVAILABLE"
  | usageLimitExceeded => "USAGE_LIMIT_EXCEEDED"
  | magicLinkExpired => "MAGIC_LINK_EXPIRED"
  | magicLinkUsed => "MAGIC_LINK_USED"
  | magicLinkInvalid => "MAGIC_LINK_INVALID"
  | invalidInput _ => "INVALID_INPUT"
  | missingRequiredField _ => "MISSING_REQUIRED_FIELD"
  | invalidEmailFormat => "INVALID_EMAIL_FORMAT"
  | passwordTooWeak => "PASSWORD_TOO_WEAK"
  | invalidClientId => "INVALID_CLIENT_ID"
  | internalError _ => "INTERNAL_ERROR"
  | serviceUnavailable _ => "SERVICE_UNAVAILABLE"
  | databaseError => "DATABASE_ERROR"
  | emailServiceError => "EMAIL_SERVICE_ERROR"
  | externalServiceError => "EXTERNAL_SERVICE_ERROR"
  | rateLimitExceeded => "RATE_LIMIT_EXCEEDED"
  end.

Definition customDetails_of (f : ErrorFactory) : option string :=
  match f with
  | invalidInput details | internalError details | serviceUnavailable details => details
  | missingRequiredField field => Some ("Field '" +:+ interpolate field +:+ "' is required")
  | _ => None
  end.

(** [new SecureVibeError(errorType, customDetails, metadata)], as the
    functions of [ErrorFactory] call it. *)
Definition ErrorFactory_new {rt : Runtime} (f : ErrorFactory) (metadata : JValue)
    : M ErrorObject :=
  match entry_of (errorType_of f) ERRORS_entries with
  | None => throw ("Unknown error type: " +:+ errorType_of f)
  | Some errorConfig =>
      t <- now ;;
      ret {| error :=
               {| err_config :=
                    with_details (or_default (customDetails_of f) (details errorConfig))
                                 errorConfig;
                  err_timestamp := t |};
             metadata := metadata |}
  end.

(** A request as the error handler reads it: the request, its method and two
    more headers. *)
Record HandledRequest := {
  handled : Request;
  method : string;
  x_client_id : option string;
  x_debug : option string
}.

(** The [request] part of the log data. *)
Record RequestLog := {
  rl_method : string;
  rl_path : string;
  rl_ip : option string;
  rl_userAgent : option string;
  rl_clientId : string;
  rl_body : option JValue
}.

(** The object [log(req)] builds and returns. *)
Record LogData := {
  ld_timestamp : Z;
  ld_error : string;
  ld_code : Z;
  ld_message : string;
  ld_category : string;
  ld_details : string;
  ld_metadata : JValue;
  ld_request : option RequestLog
}.

(** The console method [log(req)] writes with. *)
Inductive Severity := console_error | console_warn | console_info.

Definition sensitive (key : string) : bool :=
  bool_decide (key = "password") || bool_decide (key = "token") ||
  bool_decide (key = "refreshToken").

(** The properties [{ ...value }] copies: the fields of an object, the
    elements of an array under their indices. *)
Definition spread (value : JValue) : list (string * JValue) :=
  match value with
  | JObject fields => fields
  | JArray items => imap (fun i v => (toString (Z.of_nat i), v)) items
  | _ => []
  end.

(** [safeBody], for a body that is truthy and of type ['object']. *)
Definition safeBody (body : JValue) : JValue :=
  JObject (filter (fun kv => negb (sensitive (fst kv))) (spread body)).

Definition is_object (v : JValue) : bool :=
  match v with
  | JObject _ | JArray _ => true
  | _ => false
  end.

Definition severity_of (code : Z) : Severity :=
  if code >=? 500 then console_error
  else if (code >=? 400) && (code <? 500) then console_warn
  else console_info.

(** [log(req)]: the console method used, and the log data returned. *)
Definition SecureVibeError_log (e : ErrorObject) (req : option HandledRequest)
    : Severity * LogData :=
  let c := err_config (error e) in
  (severity_of (code c),
   {| ld_timestamp := err_timestamp (error e);
      ld_error := "SecureVibeError";
      ld_code := code c;
      ld_message := message c;
      ld_category := category c;
      ld_details := details c;
      ld_metadata := metadata e;
      ld_request :=
        match req with
        | None => None
        | Some req =>
            Some {| rl_method := method req;
                    rl_path := req_path (handled req);
                    rl_ip := req_ip (handled req);
                    rl_userAgent := req_userAgent (handled req);
                    rl_clientId := or_default (x_client_id req) "unknown";
                    rl_body :=
                      match req_body (handled req) with
                      | Some body =>
                          if negb (falsy body) && is_object body
                          then Some (safeBody body) else None
                      | None => None
                      end |}
        end |}).

(** What reaches [errorMiddleware]: a [SecureVibeError], or anything else
    that was thrown, with its [message] and [stack] when it has them. *)
Inductive Thrown :=
  | Handled (e : ErrorObject)
  | Unhandled (message stack : option string).

(** The [error] object of the answer to an error of another kind. *)
Record PlainResponse := {
  pr_code : Z;
  pr_message : string;
  pr_category : string;
  pr_timestamp : Z;
  pr_details : option string;
  pr_stack : option string
}.

(** The answer of [errorMiddleware]: the status, the [Retry-After] header
    when it is set, and the [error] object of the body. *)
Inductive Reply :=
  | Reply_error (status : Z) (retry_after : option Z) (body : ErrorResponse)
  | Reply_plain (status : Z) (body : PlainResponse).

Definition production {rt : Runtime} : bool :=
  bool_decide (env_NODE_ENV = Some "production").

(** The first component is what [err.log(req)] wrote, when it was called. *)
Definition errorMiddleware {rt : Runtime} (err : Thrown) (req : HandledRequest)
    : M (option (Severity * LogData) * Reply) :=
  match err with
  | Handled e =>
      let logged := SecureVibeError_log e (Some req) in
      let c := err_config (error e) in
      let retry_after :=
        match retryAfter c with
        | Some 0 => None
        | other => other
        end in
      let includeDetails := negb production || bool_decide (x_debug req = Some "true") in
      ret (Some logged, Reply_error (code c) retry_after (toResponse includeDetails (error e)))
  | Unhandled message stack =>
      t <- now ;;
      ret (None,
           Reply_plain 500
             {| pr_code := 500;
                pr_message := "An unexpected error occurred";
                pr_category := "SERVER_ERROR";
                pr_timestamp := t;
                pr_details := if negb production then message else None;
                pr_stack := if negb production then stack else None |})
  end.

(** ** [analytics.js]: the security score *)

(** An element of [user.securityLogs] and of [user.devices], and the fields
    of a user document that [calculateSecurityScore] reads. *)
Record SecurityEvent := {
  ev_action : string;
  ev_timestamp : Z
}.

Record Device := {
  deviceId : string
}.

Record Account := {
  acc_isVerified : bool;
  acc_password : option string;
  acc_securityLogs : option (list SecurityEvent);
  acc_devices : option (list Device)
}.

(** [s.length]: the number of UTF-16 code units of a string given by its
    UTF-8 bytes. A byte that continues a character counts for nothing, one
    that starts a character of four bytes for two. *)
Definition utf16_units (c : ascii) : Z :=
  let n := N_of_ascii c in
  if (n <? 128)%N then 1
  else if (n <? 192)%N then 0
  else if (n <? 240)%N then 1
  else 2.

Fixpoint js_length (s : string) : Z :=
  match s with
  | EmptyString => 0
  | String c s' => utf16_units c + js_length s'
  end.

(** The patterns [[!@#$%^&*]] and [\d]. *)
Definition special_character : Regex :=
  Class (fun c => existsb (Ascii.eqb c) (String.list_ascii_of_string "!@#$%^&*")).

Definition decimal_digit : Regex :=
  Class (fun c => (48 <=? N_of_ascii c)%N && (N_of_ascii c <=? 57)%N).

(** [logs.filter(log => log.timestamp > Date.now() - days * 24 * 60 * 60 *
    1000)]: the clock is read once for every element. *)
Fixpoint filter_since (days : Z) (logs : list SecurityEvent) {rt : Runtime}
    : M (list SecurityEvent) :=
  match logs with
  | [] => ret []
  | log :: rest =>
      t <- now ;;
      kept <- filter_since days rest ;;
      ret (if ev_timestamp log >? t - days * 24 * 60 * 60 * 1000
           then log :: kept else kept)
  end.

Definition is_failure (log : SecurityEvent) : bool :=
  includes "FAILED" (ev_action log) || includes "INVALID" (ev_action log).

Definition calculateSecurityScore {rt : Runtime} (user : Account) : M Z :=
  let score := 50 in
  let score := if acc_isVerified user then score + 20 else score in
  let score :=
    if truthy_and (acc_password user) (fun password => js_length password >=? 8)
    then score + 10 else score in
  let score :=
    if truthy_and (acc_password user) (test special_character)
    then score + 10 else score in
  let score :=
    if truthy_and (acc_password user) (test decimal_digit)
    then score + 10 else score in
  recentSecurityEvents <-
    match acc_securityLogs user with
    | Some logs => filter_since 30 logs
    | None => ret []
    end ;;
  let failedAttempts := Z.of_nat (length (List.filter is_failure recentSecurityEvents)) in
  let score := score - Z.min (failedAttempts * 5) 30 in
  let deviceCount :=
    match acc_devices user with
    | Some devices => Z.of_nat (length devices)
    | None => 0
    end in
  let score := score + Z.min (deviceCount * 3) 15 in
  ret (Z.max 0 (Z.min 100 score)).

(** The number of entries of the log of a user. *)
Definition log_count (user : Account) : nat :=
  match acc_securityLogs user with
  | Some logs => length logs
  | None => 0
  end.

(** ** The chain of security middleware of [server.js] *)

(** [performanceMonitor] notes the time and calls [next()]; the handler it
    registers for the end of the response only writes on the console. *)
Definition performanceMonitor {rt : Runtime} (req : Request) : M Verdict :=
  start <- now ;;
  ret Next.

(** [app.use(first); app.use(second)]: the second middleware runs when the
    first has called [next()]. *)
Definition app_use (first second : M Verdict) : M Verdict :=
  v <- first ;;
  match v with
  | Next => second
  | Respond _ _ => ret v
  end.

(** [app.use(detectSuspiciousActivity); app.use(userRateLimit);
    app.use(performanceMonitor)] *)
Definition security_middleware {rt : Runtime} (req : Request) : M Verdict :=
  app_use (r <- detectSuspiciousActivity req ;; ret (snd r))
          (app_use (userRateLimit req) (performanceMonitor req)).

(** * Properties *)

(** ** Facts about bytes *)

Lemma byte_to_Z_range b : 0 <= byte_to_Z b < 256.
Proof.
  unfold byte_to_Z. pose proof (Byte.to_N_bounded b). lia.
Qed.

Lemma byte_of_to_Z b : byte_of_Z (byte_to_Z b) = b.
Proof.
  unfold byte_of_Z. pose proof (byte_to_Z_range b) as Hr.
  rewrite Z.mod_small by lia. unfold byte_to_Z.
  rewrite N2Z.id, Byte.of_to_N. reflexivity.
Qed.

Lemma byte_to_of_Z z : byte_to_Z (byte_of_Z z) = z mod 256.
Proof.
  unfold byte_of_Z, byte_to_Z.
  pose proof (Z.mod_pos_bound z 256 ltac:(lia)) as Hr.
  destruct (Byte.of_N (Z.to_N (z mod 256))) as [b|] eqn:E.
  - apply Byte.to_of_N in E. rewrite E. lia.
  - apply Byte.of_N_None_iff in E. lia.
Qed.

Lemma toInt32_mod256 z : toInt32 z mod 256 = z mod 256.
Proof.
  unfold toInt32.
  pose proof (Z.div_mod (z + 2 ^ 31) (2 ^ 32) ltac:(lia)) as Hdm.
  replace ((z + 2 ^ 31) mod 2 ^ 32 - 2 ^ 31)
    with (z + (- ((z + 2 ^ 31) / 2 ^ 32) * 2 ^ 24) * 256) by lia.
  apply Z.mod_add. lia.
Qed.

Lemma land_255 z : Z.land z 255 = z mod 256.
Proof.
  change 255 with (Z.ones 8). rewrite Z.land_ones by lia. reflexivity.
Qed.

Lemma js_and_255 z : js_and z 255 = z mod 256.
Proof.
  unfold js_and. change (toInt32 255) with 255.
  rewrite land_255. apply toInt32_mod256.
Qed.

Lemma land_lxor_distr a b c :
  Z.land (Z.lxor a b) c = Z.lxor (Z.land a c) (Z.land b c).
Proof.
  apply Z.bits_inj'. intros n _.
  rewrite Z.lxor_spec, !Z.land_spec, Z.lxor_spec.
  by destruct (Z.testbit a n), (Z.testbit b n), (Z.testbit c n).
Qed.

Lemma js_xor_mod256 a s :
  0 <= s < 256 -> js_xor a s mod 256 = Z.lxor (a mod 256) s.
Proof.
  intros Hs. unfold js_xor.
  assert (toInt32 s = s) as ->.
  { unfold toInt32. rewrite Z.mod_small; lia. }
  rewrite <- !land_255, land_lxor_distr, !land_255.
  rewrite toInt32_mod256. f_equal. apply Z.mod_small. lia.
Qed.

Lemma signature_byte_range i : 0 <= signature_byte i < 256.
Proof. apply byte_to_Z_range. Qed.

Lemma reverse_transform_byte round i b :
  reverse_byte round i (transform_byte round i b) = b.
Proof.
  unfold reverse_byte, transform_byte.
  pose proof (signature_byte_range i) as Hs.
  pose proof (byte_to_Z_range b) as Hb.
  rewrite !js_and_255, byte_to_of_Z, Z.mod_mod by lia.
  rewrite js_xor_mod256 by lia.
  rewrite <- Zminus_mod_idemp_l, <- (Zminus_mod_idemp_l _ (round * 7)).
  rewrite Zmod_mod.
  rewrite (Zminus_mod_idemp_l _ (round * 7)), Zminus_mod_idemp_l.
  match goal with |- context [ (?x + ?r + ?k - ?r - ?k) mod 256 ] =>
    replace (x + r + k - r - k) with x by lia end.
  rewrite js_xor_mod256 by lia.
  rewrite (Z.mod_small (byte_to_Z b)) by lia.
  rewrite Z.lxor_assoc, Z.lxor_nilpotent, Z.lxor_0_r.
  apply byte_of_to_Z.
Qed.

Lemma map_indexed_length {A B} (f : nat -> A -> B) i l :
  length (map_indexed f i l) = length l.
Proof. revert i. induction l as [|x l IH]; intros i; simpl; [done | by rewrite IH]. Qed.

Lemma map_indexed_inverse {A B} (f : nat -> A -> B) (g : nat -> B -> A) :
  (forall i x, g i (f i x) = x) ->
  forall i l, map_indexed g i (map_indexed f i l) = l.
Proof.
  intros Hgf i l. revert i.
  induction l as [|x l IH]; intros i; simpl; [done |].
  by rewrite Hgf, IH.
Qed.

Lemma reverse_securevibeTransform data round :
  reverseSecurevibeTransform (securevibeTransform data round) round = data.
Proof.
  unfold reverseSecurevibeTransform, securevibeTransform.
  apply map_indexed_inverse. intros i x. apply reverse_transform_byte.
Qed.

(** ** Lists and slices *)

Lemma slice_from_end {A} (l : list A) (n : nat) :
  (0 < n)%nat -> slice l (- Z.of_nat n) None = drop (length l - n) l.
Proof.
  intros Hn. unfold slice, clamp_index.
  destruct (Z.ltb_spec (- Z.of_nat n) 0) as [_|]; [|lia].
  assert (Z.to_nat ((Z.of_nat (length l) + - Z.of_nat n) `max` 0)
          = (length l - n)%nat) as -> by lia.
  apply take_ge. rewrite length_drop. lia.
Qed.

Lemma slice_range {A} (l : list A) (s e : nat) :
  (s <= e)%nat -> slice l (Z.of_nat s) (Some (Z.of_nat e)) = take (e - s) (drop s l).
Proof.
  intros Hse. unfold slice, clamp_index.
  destruct (Z.ltb_spec (Z.of_nat s) 0) as [|_]; [lia|].
  destruct (Z.ltb_spec (Z.of_nat e) 0) as [|_]; [lia|].
  destruct (Nat.le_gt_cases (length l) s) as [Hs|Hs].
  - rewrite !drop_ge by lia. by rewrite !take_nil.
  - assert (Z.to_nat (Z.of_nat s `min` Z.of_nat (length l)) = s) as -> by lia.
    destruct (Nat.le_gt_cases e (length l)) as [He|He].
    + f_equal. lia.
    + rewrite !take_ge; [done | rewrite length_drop; lia | rewrite length_drop; lia].
Qed.

Lemma slice_from {A} (l : list A) (s : nat) :
  slice l (Z.of_nat s) None = drop s l.
Proof.
  unfold slice, clamp_index.
  destruct (Z.ltb_spec (Z.of_nat s) 0) as [|_]; [lia|].
  destruct (Nat.le_gt_cases (length l) s) as [Hs|Hs].
  - rewrite !drop_ge by lia. by rewrite take_nil.
  - assert (Z.to_nat (Z.of_nat s `min` Z.of_nat (length l)) = s) as -> by lia.
    apply take_ge. rewrite length_drop. lia.
Qed.

Lemma slice_until_end {A} (l : list A) (s n : nat) :
  (0 < n)%nat -> (s + n <= length l)%nat ->
  slice l (Z.of_nat s) (Some (- Z.of_nat n)) = take (length l - n - s) (drop s l).
Proof.
  intros Hn Hlen. unfold slice, clamp_index.
  destruct (Z.ltb_spec (Z.of_nat s) 0) as [|_]; [lia|].
  destruct (Z.ltb_spec (- Z.of_nat n) 0) as [_|]; [|lia].
  assert (Z.to_nat (Z.of_nat s `min` Z.of_nat (length l)) = s) as -> by lia.
  f_equal. lia.
Qed.

(** Unfolding of the monad and of the field updates. *)
Ltac step_through :=
  cbv [bind ret throw lift gets modify now randomBytes push_log try_catch
       result state_after fst snd];
  cbn [with_engine tick drawn
       set_masterKey set_sessionKeys set_attackPatterns set_lastKeyRotation
       set_securityLog set_threatLevel set_requestTracker set_userRequestTracker
       engine requestTracker userRequestTracker clockReads randomDraws
       masterKey sessionKeys attackPatterns lastKeyRotation securityLog
       threatLevel].

(** Full unfolding of the field updates, for a process given by its fields. *)
Ltac unfold_state :=
  cbv [with_engine tick drawn
       set_masterKey set_sessionKeys set_attackPatterns set_lastKeyRotation
       set_securityLog set_threatLevel set_requestTracker set_userRequestTracker
       engine requestTracker userRequestTracker clockReads randomDraws
       masterKey sessionKeys attackPatterns lastKeyRotation securityLog
       threatLevel].

Section EngineFacts.
Context {rt : Runtime}.

(** ** The log *)

(** What the three logging methods leave in the log. *)
Lemma logDecryptionEvent_run context status error p :
  logDecryptionEvent context status error p =
  (Ok tt,
   with_engine
     (fun e => set_securityLog
                 (securityLog e ++
                  [CRYPTO_EVENT (Date_now (clockReads p)) DECRYPTION status context
                                error (threatLevel e)]) e)
     (tick p)).
Proof. reflexivity. Qed.

Lemma triggerSecurityResponse_run context p :
  triggerSecurityResponse context p =
  (Ok tt,
   with_engine
     (fun e => set_securityLog
                 (securityLog e ++
                  [SECURITY_INCIDENT (Date_now (clockReads p))
                                     (or_default (ctx_ip context) "unknown")
                                     context (threatLevel e)]) e)
     (tick p)).
Proof. reflexivity. Qed.

Lemma logEncryptionEvent_run context status error p :
  logEncryptionEvent context status error p =
  (Ok tt,
   with_engine
     (fun e => set_securityLog
                 (capped (securityLog e ++
                          [CRYPTO_EVENT (Date_now (clockReads p)) ENCRYPTION status
                                        context error (threatLevel e)])) e)
     (tick p)).
Proof.
  destruct p as [[] ? ? ? ?].
  unfold logEncryptionEvent, capped. step_through. unfold_state.
  destruct (1000 <? _)%nat; reflexivity.
Qed.

Lemma capped_drop log : capped log = drop (length log - 1000) log.
Proof.
  unfold capped. destruct (Nat.ltb_spec 1000 (length log)) as [H|H].
  - apply (slice_from_end log 1000). lia.
  - replace (length log - 1000)%nat with 0%nat by lia. by rewrite drop_0.
Qed.

Lemma capped_length log : (length (capped log) <= 1000)%nat.
Proof. rewrite capped_drop, length_drop. lia. Qed.

Lemma capped_last log entry : last (capped (log ++ [entry])) = Some entry.
Proof.
  rewrite capped_drop, length_app. simpl.
  rewrite drop_app_le by lia.
  apply last_snoc.
Qed.

End EngineFacts.

(** ** Errors surfaced by [encrypt] and [decrypt] *)

Section Surfaced.
Context {rt : Runtime}.

Lemma encrypt_catch_run context cause p :
  result (encrypt_catch context cause p) = Throw "ENCRYPTION_FAILED" /\
  last_failure (state_after (encrypt_catch context cause p)) = Some (ENCRYPTION, cause).
Proof.
  unfold encrypt_catch, bind. rewrite logEncryptionEvent_run.
  unfold throw, last_failure. step_through. split; [done|].
  by rewrite capped_last.
Qed.

Lemma decrypt_catch_run context cause p :
  result (decrypt_catch context cause p) = Throw "DECRYPTION_FAILED" /\
  last_failure (state_after (decrypt_catch context cause p)) = Some (DECRYPTION, cause).
Proof.
  unfold decrypt_catch, bind. rewrite logDecryptionEvent_run.
  unfold throw, last_failure. step_through. split; [done|].
  by rewrite last_snoc.
Qed.

Lemma encrypt_failure plainText context p cause :
  result (encrypt_try plainText context p) = Throw cause ->
  result (encrypt plainText context p) = Throw "ENCRYPTION_FAILED" /\
  last_failure (state_after (encrypt plainText context p)) = Some (ENCRYPTION, cause).
Proof.
  unfold encrypt, try_catch.
  destruct (encrypt_try plainText context p) as [[v|c] q]; simpl; intros H; [done|].
  injection H as ->. apply encrypt_catch_run.
Qed.

Lemma decrypt_failure encryptedText context p cause :
  result (decrypt_try encryptedText context p) = Throw cause ->
  result (decrypt encryptedText context p) = Throw "DECRYPTION_FAILED" /\
  last_failure (state_after (decrypt encryptedText context p)) = Some (DECRYPTION, cause).
Proof.
  unfold decrypt, try_catch.
  destruct (decrypt_try encryptedText context p) as [[v|c] q]; simpl; intros H; [done|].
  injection H as ->. apply decrypt_catch_run.
Qed.

(** C8. Two failing calls of [encrypt] (of [decrypt]), whatever made each of
    them fail, the honeytrap or a cipher, surface the same error,
    ENCRYPTION_FAILED (DECRYPTION_FAILED); what made the [try] block throw is
    the [error] field of the last log entry and nothing of it is in the
    result. *)
Theorem failure_cause_is_not_surfaced
    (text1 text2 : string) (context1 context2 : Context) (p1 p2 : Process)
    (cause1 cause2 : string) :
  (result (encrypt_try text1 context1 p1) = Throw cause1 ->
   result (encrypt_try text2 context2 p2) = Throw cause2 ->
   result (encrypt text1 context1 p1) = Throw "ENCRYPTION_FAILED" /\
   result (encrypt text2 context2 p2) = result (encrypt text1 context1 p1) /\
   last_failure (state_after (encrypt text1 context1 p1)) = Some (ENCRYPTION, cause1) /\
   last_failure (state_after (encrypt text2 context2 p2)) = Some (ENCRYPTION, cause2))
  /\
  (result (decrypt_try text1 context1 p1) = Throw cause1 ->
   result (decrypt_try text2 context2 p2) = Throw cause2 ->
   result (decrypt text1 context1 p1) = Throw "DECRYPTION_FAILED" /\
   result (decrypt text2 context2 p2) = result (decrypt text1 context1 p1) /\
   last_failure (state_after (decrypt text1 context1 p1)) = Some (DECRYPTION, cause1) /\
   last_failure (state_after (decrypt text2 context2 p2)) = Some (DECRYPTION, cause2)).
Proof.
  split; intros H1 H2.
  - destruct (encrypt_failure _ _ _ _ H1) as [R1 L1].
    destruct (encrypt_failure _ _ _ _ H2) as [R2 L2].
    rewrite R1, R2. auto.
  - destruct (decrypt_failure _ _ _ _ H1) as [R1 L1].
    destruct (decrypt_failure _ _ _ _ H2) as [R2 L2].
    rewrite R1, R2. auto.
Qed.

End Surfaced.

(** A honeytrap failure and a cipher failure, side by side: [encrypt] for a
    scanner and on a release without [createCipher]; [decrypt] of the empty
    text and of a forged one. *)
Lemma failure_cause_is_not_surfaced_witness :
  let legacy_free := node_without_createCipher in
  (result (encrypt (rt:=legacy_free) "[1,2]" scanner_context (startup (rt:=legacy_free)))
     = Throw "ENCRYPTION_FAILED" /\
   result (encrypt (rt:=legacy_free) "[1,2]" plain_context (startup (rt:=legacy_free)))
     = result (encrypt (rt:=legacy_free) "[1,2]" scanner_context (startup (rt:=legacy_free))) /\
   last_failure (state_after (encrypt (rt:=legacy_free) "[1,2]" scanner_context
                                (startup (rt:=legacy_free))))
     = Some (ENCRYPTION, "SECURITY_VIOLATION_DETECTED") /\
   last_failure (state_after (encrypt (rt:=legacy_free) "[1,2]" plain_context
                                (startup (rt:=legacy_free))))
     = Some (ENCRYPTION, "crypto.createCipher is not a function"))
  /\
  (result (decrypt (rt:=node) "" plain_context (startup (rt:=node)))
     = Throw "DECRYPTION_FAILED" /\
   result (decrypt (rt:=node) forged_text plain_context (startup (rt:=node)))
     = result (decrypt (rt:=node) "" plain_context (startup (rt:=node))) /\
   last_failure (state_after (decrypt (rt:=node) "" plain_context (startup (rt:=node))))
     = Some (DECRYPTION, "INVALID_SIGNATURE") /\
   last_failure (state_after (decrypt (rt:=node) forged_text plain_context
                                (startup (rt:=node))))
     = Some (DECRYPTION, "bad decrypt")).
Proof.
  split.
  - apply (proj1 (failure_cause_is_not_surfaced (rt:=node_without_createCipher)
                    "[1,2]" "[1,2]" scanner_context plain_context
                    (startup (rt:=node_without_createCipher))
                    (startup (rt:=node_without_createCipher))
                    "SECURITY_VIOLATION_DETECTED"
                    "crypto.createCipher is not a function"));
      vm_compute; reflexivity.
  - apply (proj2 (failure_cause_is_not_surfaced (rt:=node)
                    "" forged_text plain_context plain_context
                    (startup (rt:=node)) (startup (rt:=node))
                    "INVALID_SIGNATURE" "bad decrypt"));
      vm_compute; reflexivity.
Defined.

(** ** The size of the log *)

Section LogSize.
Context {rt : Runtime}.

Lemma logEncryptionEvent_size context status error p :
  (log_size (state_after (logEncryptionEvent context status error p)) <= 1000)%nat.
Proof.
  rewrite logEncryptionEvent_run. unfold log_size. step_through.
  apply capped_length.
Qed.

(** [logEncryptionEvent] drops the oldest entries. *)
Lemma logEncryptionEvent_keeps_newest context status error p :
  exists entry,
    securityLog (engine (state_after (logEncryptionEvent context status error p))) =
    drop (length (securityLog (engine p) ++ [entry]) - 1000)
         (securityLog (engine p) ++ [entry]).
Proof.
  rewrite logEncryptionEvent_run. step_through.
  eexists. apply capped_drop.
Qed.

Lemma logDecryptionEvent_size context status error p :
  log_size (state_after (logDecryptionEvent context status error p)) = S (log_size p).
Proof.
  rewrite logDecryptionEvent_run. unfold log_size. step_through.
  rewrite length_app. simpl. lia.
Qed.

Lemma triggerSecurityResponse_size context p :
  log_size (state_after (triggerSecurityResponse context p)) = S (log_size p).
Proof.
  rewrite triggerSecurityResponse_run. unfold log_size. step_through.
  rewrite length_app. simpl. lia.
Qed.

Lemma emergencyKeyRotation_size p :
  log_size (state_after (emergencyKeyRotation p)) = S (log_size p).
Proof.
  unfold emergencyKeyRotation, generateMasterKey, log_size. step_through.
  rewrite length_app. simpl. lia.
Qed.

End LogSize.

(** C7 (the code does not do this). Only [logEncryptionEvent] cuts the log
    back to its last 1000 entries. [logDecryptionEvent],
    [triggerSecurityResponse] and [emergencyKeyRotation] each leave the log
    one entry longer than they found it, whatever its length; 501 calls of
    [decrypt] on a text without the signature, from a fresh engine, leave
    1002 entries. *)
Theorem log_cap_is_missing_outside_logEncryptionEvent :
  (forall (rt : Runtime) context status error p,
      log_size (state_after (logDecryptionEvent context status error p)) = S (log_size p))
  /\ (forall (rt : Runtime) context p,
      log_size (state_after (triggerSecurityResponse context p)) = S (log_size p))
  /\ (forall (rt : Runtime) p,
      log_size (state_after (emergencyKeyRotation p)) = S (log_size p))
  /\ log_size (state_after (times 501 (decrypt (rt:=node) "" plain_context)
                                  (startup (rt:=node)))) = 1002%nat.
Proof.
  split; [|split; [|split]].
  - intros. apply logDecryptionEvent_size.
  - intros. apply triggerSecurityResponse_size.
  - intros. apply emergencyKeyRotation_size.
  - vm_compute. reflexivity.
Qed.

(** ** [userRateLimit] *)

Section UserRateLimit.
Context {rt : Runtime}.

(** C10. [userRateLimit] lets the request through and leaves the process as
    it was (no counter created or changed, no clock reading) when the request
    has no API key, when no user has the key, and when the lookup throws. *)
Theorem userRateLimit_fails_open (req : Request) (p : Process) :
  req_apiKey req = None \/
  (exists apiKey, req_apiKey req = Some apiKey /\ User_findOne apiKey = Ok None) \/
  (exists apiKey message,
      req_apiKey req = Some apiKey /\ User_findOne apiKey = Throw message) ->
  userRateLimit req p = (Ok Next, p).
Proof.
  unfold userRateLimit.
  intros [-> | [(apiKey & -> & Hnone) | (apiKey & message & -> & Hthrow)]]; simpl.
  - reflexivity.
  - destruct (decide (apiKey = "")); [reflexivity|].
    step_through. rewrite Hnone. reflexivity.
  - destruct (decide (apiKey = "")); [reflexivity|].
    step_through. rewrite Hthrow. reflexivity.
Qed.

End UserRateLimit.

(** A request without a key, one with a key nobody has, and one sent while
    the lookup fails. *)
Lemma userRateLimit_fails_open_witness :
  let p := startup (rt:=node_with_users) in
  userRateLimit (rt:=node_with_users) (magic_link_request None None) p = (Ok Next, p) /\
  userRateLimit (rt:=node_with_users) (magic_link_request (Some "key-of-nobody") None) p
    = (Ok Next, p) /\
  userRateLimit (rt:=node_with_users) (magic_link_request (Some "key-during-outage") None) p
    = (Ok Next, p).
Proof.
  intros p. split; [|split].
  - apply (userRateLimit_fails_open (rt:=node_with_users)). left. reflexivity.
  - apply (userRateLimit_fails_open (rt:=node_with_users)). right. left.
    exists "key-of-nobody". split; reflexivity.
  - apply (userRateLimit_fails_open (rt:=node_with_users)). right. right.
    exists "key-during-outage", "MongoNetworkError". split; reflexivity.
Defined.


(** ** The rate counter of [detectSuspiciousActivity] *)

Section RateCounter.
Context {rt : Runtime}.

Lemma counter_of_tracker req p : counter_of req p = tracker_of p !! rate_key req.
Proof. unfold counter_of, tracker_of. by destruct (requestTracker p). Qed.


Lemma ERRORS_rate_limit : ERRORS "RATE_LIMIT_EXCEEDED" = Some RATE_LIMIT_EXCEEDED.
Proof. reflexivity. Qed.

(** What a call does, by the counter it finds. *)
Lemma detectSuspiciousActivity_run req p :
  detectSuspiciousActivity req p =
  let t := Date_now (clockReads p) in
  let fresh := <[ rate_key req := {| rc_count := 1; rc_firstRequest := t |} ]> (tracker_of p) in
  match counter_of req p with
  | None => (Ok (isSuspicious req, Next), set_requestTracker fresh (tick p))
  | Some d =>
      if t - rc_firstRequest d >? 60000
      then (Ok (isSuspicious req, Next), set_requestTracker fresh (tick p))
      else
        let counted :=
          <[ rate_key req := {| rc_count := rc_count d + 1;
                                rc_firstRequest := rc_firstRequest d |} ]> (tracker_of p) in
        if rc_count d + 1 >? 30
        then (Ok (isSuspicious req,
                  respond_with {| err_config := RATE_LIMIT_EXCEEDED;
                                  err_timestamp := Date_now (S (clockReads p)) |}),
              set_requestTracker counted (tick (tick p)))
        else (Ok (isSuspicious req, Next), set_requestTracker counted (tick p))
  end.
Proof.
  rewrite counter_of_tracker.
  unfold detectSuspiciousActivity, get_requestTracker, put_requestTracker,
    new_SecureVibeError, tracker_of.
  rewrite ERRORS_rate_limit.
  destruct p as [e [m|] u c r]; step_through; unfold_state.
  - destruct (m !! rate_key req) as [d|]; [|reflexivity].
    change (60 * 1000) with 60000.
    destruct (_ >? 60000); [reflexivity|].
    destruct (_ >? 30); reflexivity.
  - rewrite lookup_empty. reflexivity.
Qed.

(** The three ways through the counter. *)
Lemma detectSuspiciousActivity_fresh req p :
  let t := Date_now (clockReads p) in
  (counter_of req p = None \/
   exists d, counter_of req p = Some d /\ t - rc_firstRequest d > 60000) ->
  detectSuspiciousActivity req p =
  (Ok (isSuspicious req, Next),
   set_requestTracker (<[ rate_key req := {| rc_count := 1; rc_firstRequest := t |} ]>
                        (tracker_of p)) (tick p)).
Proof.
  intros t H. rewrite detectSuspiciousActivity_run. cbv zeta. fold t.
  destruct H as [-> | (d & -> & Hlate)]; [reflexivity|].
  destruct (Z.gtb_spec (t - rc_firstRequest d) 60000); [reflexivity | lia].
Qed.

Lemma detectSuspiciousActivity_within req p d :
  let t := Date_now (clockReads p) in
  counter_of req p = Some d -> t - rc_firstRequest d <= 60000 ->
  rc_count d + 1 <= 30 ->
  detectSuspiciousActivity req p =
  (Ok (isSuspicious req, Next),
   set_requestTracker
     (<[ rate_key req := {| rc_count := rc_count d + 1;
                            rc_firstRequest := rc_firstRequest d |} ]> (tracker_of p))
     (tick p)).
Proof.
  intros t Hd Hin Hcount. rewrite detectSuspiciousActivity_run. cbv zeta. fold t.
  rewrite Hd.
  destruct (Z.gtb_spec (t - rc_firstRequest d) 60000); [lia|].
  destruct (Z.gtb_spec (rc_count d + 1) 30); [lia | reflexivity].
Qed.


Lemma times_last {A} n (call : M A) p :
  state_after (times (S n) call p) = state_after (call (state_after (times n call p))).
Proof.
  revert p. induction n as [|n IH]; intros p; [reflexivity|].
  change (times (S (S n)) call p) with (times (S n) call (state_after (call p))).
  rewrite IH. reflexivity.
Qed.






End RateCounter.





(** ** Substrings *)

#[local] Arguments String.append !s1 s2 : simpl nomatch.

Lemma append_assoc (a b c : string) : (a +:+ b) +:+ c = a +:+ (b +:+ c).
Proof. induction a as [|x a IH]; simpl; [done | by rewrite IH]. Qed.

Lemma append_empty_r (a : string) : a +:+ "" = a.
Proof. induction a as [|x a IH]; simpl; [done | by rewrite IH]. Qed.

Lemma contains_self t : contains t t.
Proof. exists "", "". simpl. by rewrite append_empty_r. Qed.

Lemma contains_append_l t a b : contains t a -> contains t (a +:+ b).
Proof.
  intros (x & y & ->). exists x, (y +:+ b). by rewrite !append_assoc.
Qed.

Lemma contains_append_r t a b : contains t b -> contains t (a +:+ b).
Proof.
  intros (x & y & ->). exists (a +:+ x), y. by rewrite !append_assoc.
Qed.

Lemma contains_String t c s : contains t s -> contains t (String c s).
Proof. apply (contains_append_r t (String c "") s). Qed.

Lemma contains_trans t u s : contains t u -> contains u s -> contains t s.
Proof.
  intros Htu (x & y & ->). by apply contains_append_r, contains_append_l.
Qed.

Lemma starts_with_prefix t s : starts_with t s = true -> exists after, s = t +:+ after.
Proof.
  revert s. induction t as [|a t IH]; intros s H; simpl in *.
  - by exists s.
  - destruct s as [|b s]; [done|].
    destruct (Ascii.eqb_spec a b) as [->|]; [|done].
    destruct (IH s H) as [after ->]. by exists after.
Qed.

Lemma includes_contains t s : includes t s = true -> contains t s.
Proof.
  induction s as [|c s IH]; simpl.
  - destruct (starts_with t "") eqn:E; [|done].
    intros _. destruct (starts_with_prefix _ _ E) as [after ->].
    exists "", after. reflexivity.
  - destruct (starts_with t (String c s)) eqn:E.
    + intros _. destruct (starts_with_prefix _ _ E) as [after ->].
      exists "", after. reflexivity.
    + intros H. apply contains_String, IH, H.
Qed.

(** ** [JSON.stringify] keeps the texts that need no escaping *)

Lemma quote_chars_append a b : quote_chars (a +:+ b) = quote_chars a +:+ quote_chars b.
Proof.
  induction a as [|c a IH]; simpl; [done|]. by rewrite IH, append_assoc.
Qed.

Lemma quote_chars_unescaped t : unescaped t = true -> quote_chars t = t.
Proof.
  induction t as [|c t IH]; simpl; [done|].
  intros [Hc Ht]%andb_prop. apply bool_decide_eq_true in Hc.
  rewrite Hc, IH by done. reflexivity.
Qed.

Lemma quote_contains t s : unescaped t = true -> contains t s -> contains t (quote s).
Proof.
  intros Ht (x & y & ->). unfold quote.
  apply contains_String, contains_append_l.
  rewrite !quote_chars_append, (quote_chars_unescaped t Ht).
  by exists (quote_chars x), (quote_chars y).
Qed.

Lemma join_with_contains t sep l :
  Exists (contains t) l -> contains t (join_with sep l).
Proof.
  induction l as [|x l IH]; intros H; [by apply Exists_nil in H|].
  apply Exists_cons in H as [Hx | Hl].
  - destruct l; simpl; [done|]. by apply contains_append_l.
  - destruct l as [|y l]; [by apply Exists_nil in Hl|].
    change (join_with sep (x :: y :: l)) with (x +:+ sep +:+ join_with sep (y :: l)).
    by apply contains_append_r, contains_append_r, IH.
Qed.

Lemma stringify_mentions t v :
  unescaped t = true -> mentions t v = true -> contains t (stringify v).
Proof.
  intros Ht. induction v as [| | | s | items IH | fields IH] using JValue_induction;
    cbn [stringify mentions]; try done.
  - intros H. by apply quote_contains, includes_contains.
  - intros H. apply contains_append_r, contains_append_l, join_with_contains.
    induction IH as [|x l Hx _ IHl]; cbn [existsb map] in *; [done|].
    apply orb_prop in H as [H|H].
    + apply Exists_cons_hd. by apply Hx.
    + apply Exists_cons_tl. by apply IHl.
  - intros H. apply contains_append_r, contains_append_l, join_with_contains.
    induction IH as [|[k x] l Hx _ IHl]; cbn [existsb map fst snd] in *; [done|].
    apply orb_prop in H as [H|H].
    + apply Exists_cons_hd. apply orb_prop in H as [H|H].
      * by apply contains_append_l, quote_contains, includes_contains.
      * by apply contains_append_r, contains_append_r, Hx.
    + apply Exists_cons_tl. by apply IHl.
Qed.

(** ** The matcher finds every match *)

Lemma append_empty a b : a +:+ b = "" -> a = "" /\ b = "".
Proof. destruct a; simpl; [done | discriminate]. Qed.

Lemma nullable_complete r s : Matches r s -> s = "" -> nullable r = true.
Proof.
  induction 1 as [| | r1 r2 s1 s2 _ IH1 _ IH2 | r1 r2 s _ IH | r1 r2 s _ IH | |];
    intros Hs; simpl; try done.
  - apply append_empty in Hs as [-> ->]. by rewrite IH1, IH2.
  - by rewrite IH.
  - rewrite IH by done. apply orb_true_r.
Qed.

Lemma derivative_complete r s0 :
  Matches r s0 -> forall c s, s0 = String c s -> Matches (derivative c r) s.
Proof.
  induction 1 as [| accepts c' Hc | r1 r2 s1 s2 H1 IH1 H2 IH2
                  | r1 r2 s0 _ IH | r1 r2 s0 _ IH | | r s1 s2 H1 IH1 H2 IH2];
    intros c s Hs; simpl.
  - discriminate.
  - injection Hs as -> <-. rewrite Hc. constructor.
  - destruct s1 as [|c1 s1]; simpl in Hs.
    + rewrite (nullable_complete _ _ H1 eq_refl).
      apply Matches_Alt_r. by apply IH2.
    + injection Hs as -> <-.
      assert (Matches (Seq (derivative c r1) r2) (s1 +:+ s2)) as Hseq.
      { constructor; [by apply IH1 | done]. }
      destruct (nullable r1); [by apply Matches_Alt_l | done].
  - apply Matches_Alt_l. by apply IH.
  - apply Matches_Alt_r. by apply IH.
  - discriminate.
  - destruct s1 as [|c1 s1]; simpl in Hs.
    + by apply IH2.
    + injection Hs as -> <-. constructor; [by apply IH1 | done].
Qed.

Lemma matches_complete r s : Matches r s -> matches r s = true.
Proof.
  revert r. induction s as [|c s IH]; intros r H; simpl.
  - by apply (nullable_complete r "").
  - apply IH. by apply (derivative_complete r (String c s)).
Qed.

Lemma Matches_any s : Matches (Star any_char) s.
Proof.
  induction s as [|c s IH]; [constructor|].
  apply (Matches_Star_cons any_char (String c "") s); [by constructor | done].
Qed.

(** [pattern.test(text)] holds as soon as a part of the text matches. *)
Lemma test_complete pattern part text :
  Matches pattern part -> contains part text -> test pattern text = true.
Proof.
  intros Hm (before & after & ->). apply matches_complete.
  constructor; [apply Matches_any|].
  constructor; [done | apply Matches_any].
Qed.

Lemma literal_i_Matches pattern s :
  same_letters pattern s = true -> Matches (literal_i pattern) s.
Proof.
  revert s. induction pattern as [|a pattern IH]; intros [|b s] H; simpl in *;
    try done; [constructor|].
  apply andb_prop in H as [Hab Hs].
  apply (Matches_Seq (chr_i a) (literal_i pattern) (String b "") s).
  - by constructor.
  - by apply IH.
Qed.

Lemma union_select_Matches :
  Matches (Seq (literal_i "union") (Seq (Star dot) (literal_i "select"))) "UNION SELECT".
Proof.
  apply (Matches_Seq _ _ "UNION" " SELECT"); [by apply literal_i_Matches|].
  apply (Matches_Seq _ _ " " "SELECT"); [|by apply literal_i_Matches].
  apply (Matches_Star_cons dot " " ""); [apply Matches_Alt_l; by constructor | constructor].
Qed.

(** A request with the injection text in its body is suspicious. *)
Lemma injection_isSuspicious req body :
  req_body req = Some body ->
  mentions "' UNION SELECT" body = true ->
  isSuspicious req = true.
Proof.
  intros Hbody Hm. unfold isSuspicious, suspiciousPatterns_list.
  cbn [existsb].
  assert (test (Seq (literal_i "union") (Seq (Star dot) (literal_i "select")))
               (stringify_or_empty (req_body req)) = true) as Htest.
  { apply (test_complete _ "UNION SELECT"); [apply union_select_Matches|].
    apply (contains_trans _ "' UNION SELECT"); [by exists "' ", ""|].
    rewrite Hbody. unfold stringify_or_empty.
    destruct (falsy body) eqn:Hf.
    - by destruct body as [| [] | [] | [] | |].
    - by apply stringify_mentions. }
  rewrite Htest. by rewrite !orb_true_r.
Qed.


(** ** What a run preserves *)

Section Keeps.
Context {rt : Runtime}.
Context (R : relation Process) `{!PreOrder R}.

Lemma keeps_ret {A} (a : A) : keeps R (ret a).
Proof. intros p. reflexivity. Qed.

Lemma keeps_throw {A} message : keeps R (throw (A:=A) message).
Proof. intros p. reflexivity. Qed.

Lemma keeps_lift {A} (o : Outcome A) : keeps R (lift o).
Proof. intros p. reflexivity. Qed.

Lemma keeps_gets {A} (f : Engine -> A) : keeps R (gets f).
Proof. intros p. reflexivity. Qed.

Lemma keeps_bind {A B} (m : M A) (k : A -> M B) :
  keeps R m -> (forall a, keeps R (k a)) -> keeps R (bind m k).
Proof.
  intros Hm Hk p. unfold bind, state_after. specialize (Hm p).
  unfold state_after in Hm.
  destruct (m p) as [[a|e] q]; simpl in *; [|done].
  etransitivity; [exact Hm | apply Hk].
Qed.

Lemma keeps_try_catch {A} (body : M A) (handler : string -> M A) :
  keeps R body -> (forall e, keeps R (handler e)) -> keeps R (try_catch body handler).
Proof.
  intros Hm Hk p. unfold try_catch, state_after. specialize (Hm p).
  unfold state_after in Hm.
  destruct (body p) as [[a|e] q]; simpl in *; [done|].
  etransitivity; [exact Hm | apply Hk].
Qed.

Lemma keeps_times {A} n (call : M A) : keeps R call -> keeps R (times n call).
Proof.
  intros Hc. induction n as [|n IH]; intros p; [reflexivity|].
  change (state_after (times (S n) call p))
    with (state_after (times n call (state_after (call p)))).
  etransitivity; [apply Hc | apply IH].
Qed.

End Keeps.

#[local] Instance same_engine_preorder : PreOrder same_engine.
Proof. split; [done | intros p q r Hpq Hqr; unfold same_engine in *; congruence]. Qed.

#[local] Instance same_patterns_preorder : PreOrder same_patterns.
Proof. split; [done | intros p q r Hpq Hqr; unfold same_patterns in *; congruence]. Qed.

#[local] Instance continues_preorder id : PreOrder (continues id).
Proof.
  split.
  - intros p r Hr. exists r. split; [done | lia].
  - intros p q s Hpq Hqs r Hr.
    destruct (Hpq r Hr) as (r' & Hr' & ? & ?).
    destruct (Hqs r' Hr') as (r'' & Hr'' & ? & ?).
    exists r''. split; [done | lia].
Qed.



Create HintDb keeps discriminated.

Ltac solve_preorder :=
  match goal with |- PreOrder _ => apply _ end.

Ltac keeps_step :=
  first
    [ apply keeps_ret | apply keeps_throw | apply keeps_lift | apply keeps_gets
    | solve [auto with keeps]
    | apply keeps_bind; [| | intros ?]
    | apply keeps_try_catch; [| | intros ?]
    | match goal with
      | |- keeps _ (if ?b then _ else _) => destruct b
      | |- keeps _ (match ?x with _ => _ end) => destruct x
      end ];
  try solve_preorder.

Ltac keeps_auto := repeat keeps_step.

Section EngineKeeps.
Context {rt : Runtime}.

Lemma now_same_engine : keeps same_engine now.
Proof. by intros p. Qed.

Lemma randomBytes_same_engine size : keeps same_engine (randomBytes size).
Proof. by intros p. Qed.

Lemma now_same_patterns : keeps same_patterns now.
Proof. by intros p. Qed.

Lemma randomBytes_same_patterns size : keeps same_patterns (randomBytes size).
Proof. by intros p. Qed.

Lemma set_masterKey_same_patterns k : keeps same_patterns (modify (set_masterKey k)).
Proof. by intros p. Qed.

Lemma set_sessionKeys_same_patterns m : keeps same_patterns (modify (set_sessionKeys m)).
Proof. by intros p. Qed.

Lemma set_lastKeyRotation_same_patterns t :
  keeps same_patterns (modify (set_lastKeyRotation t)).
Proof. by intros p. Qed.

Lemma set_threatLevel_same_patterns t : keeps same_patterns (modify (set_threatLevel t)).
Proof. by intros p. Qed.

Lemma push_log_same_patterns entry : keeps same_patterns (push_log entry).
Proof. by intros p. Qed.

Hint Resolve now_same_engine randomBytes_same_engine now_same_patterns
  randomBytes_same_patterns set_masterKey_same_patterns set_sessionKeys_same_patterns
  set_lastKeyRotation_same_patterns set_threatLevel_same_patterns
  push_log_same_patterns : keeps.

Lemma generateMasterKey_same_patterns : keeps same_patterns generateMasterKey.
Proof. unfold generateMasterKey. keeps_auto. Qed.

Lemma generateSessionKey_same_patterns context :
  keeps same_patterns (generateSessionKey context).
Proof. unfold generateSessionKey. keeps_auto. Qed.

Hint Resolve generateMasterKey_same_patterns generateSessionKey_same_patterns : keeps.

Lemma checkKeyRotation_same_patterns : keeps same_patterns checkKeyRotation.
Proof. unfold checkKeyRotation. keeps_auto. Qed.

Lemma triggerSecurityResponse_same_patterns context :
  keeps same_patterns (triggerSecurityResponse context).
Proof. unfold triggerSecurityResponse. keeps_auto. Qed.

Lemma logEncryptionEvent_same_patterns context status error :
  keeps same_patterns (logEncryptionEvent context status error).
Proof. intros p. by rewrite logEncryptionEvent_run. Qed.

Lemma logDecryptionEvent_same_patterns context status error :
  keeps same_patterns (logDecryptionEvent context status error).
Proof. unfold logDecryptionEvent. keeps_auto. Qed.

Lemma emergencyKeyRotation_same_patterns : keeps same_patterns emergencyKeyRotation.
Proof. unfold emergencyKeyRotation. keeps_auto. Qed.

(** The middleware does not touch the engine. *)
Lemma get_requestTracker_same_engine : keeps same_engine get_requestTracker.
Proof. intros p. unfold get_requestTracker. by destruct (requestTracker p). Qed.

Lemma put_requestTracker_same_engine m : keeps same_engine (put_requestTracker m).
Proof. by intros p. Qed.

Lemma get_userRequestTracker_same_engine : keeps same_engine get_userRequestTracker.
Proof. intros p. unfold get_userRequestTracker. by destruct (userRequestTracker p). Qed.

Lemma put_userRequestTracker_same_engine m : keeps same_engine (put_userRequestTracker m).
Proof. by intros p. Qed.

Hint Resolve get_requestTracker_same_engine put_requestTracker_same_engine
  get_userRequestTracker_same_engine put_userRequestTracker_same_engine : keeps.

Lemma new_SecureVibeError_same_engine errorType :
  keeps same_engine (new_SecureVibeError errorType).
Proof. unfold new_SecureVibeError. keeps_auto. Qed.

Hint Resolve new_SecureVibeError_same_engine : keeps.

Lemma detectSuspiciousActivity_same_engine req :
  keeps same_engine (detectSuspiciousActivity req).
Proof. unfold detectSuspiciousActivity. keeps_auto. Qed.

Lemma userRateLimit_same_engine req : keeps same_engine (userRateLimit req).
Proof. unfold userRateLimit. keeps_auto. Qed.

End EngineKeeps.


(** ** Attack patterns *)

Section AttackPatterns.
Context {rt : Runtime}.


Lemma detectAttackPattern_record context p :
  exists r',
    record_of (source_of context) (state_after (detectAttackPattern context p)) = Some r' /\
    requestCount r' = requestCount (record_or_new (source_of context) p) + 1 /\
    firstRequest r' = firstRequest (record_or_new (source_of context) p) /\
    (if result (detectAttackPattern context p) is Ok true
     then exists event,
            suspiciousPatterns r' =
              suspiciousPatterns (record_or_new (source_of context) p) ++ [event] /\
            threatLevel (engine (state_after (detectAttackPattern context p))) =
              threatLevelFor (length (suspiciousPatterns r'))
     else suspiciousPatterns r' =
            suspiciousPatterns (record_or_new (source_of context) p)).
Proof.
  unfold detectAttackPattern, record_or_new, record_of, source_of.
  step_through.
  set (pattern := match attackPatterns (engine p) !! _ with Some r => r | None => _ end).
  destruct (existsb _ _); step_through; rewrite lookup_insert_eq;
    eexists; (split; [reflexivity|]); cbn [requestCount firstRequest suspiciousPatterns];
    repeat split; eauto.
Qed.

Lemma detectAttackPattern_other context id p :
  id <> source_of context ->
  record_of id (state_after (detectAttackPattern context p)) = record_of id p.
Proof.
  intros Hne. unfold detectAttackPattern, record_of, source_of in *.
  step_through.
  destruct (existsb _ _); step_through; by rewrite lookup_insert_ne.
Qed.



End AttackPatterns.

Section CallsKeep.
Context {rt : Runtime}.

Hint Resolve checkKeyRotation_same_patterns triggerSecurityResponse_same_patterns
  logEncryptionEvent_same_patterns logDecryptionEvent_same_patterns
  emergencyKeyRotation_same_patterns generateSessionKey_same_patterns
  now_same_patterns randomBytes_same_patterns : keeps.








End CallsKeep.



(** ** Injection patterns in [detectSuspiciousActivity] *)

Section Injection.
Context {rt : Runtime}.

(** The verdict and the process after depend on the request through its
    counter key only. *)
Lemma detectSuspiciousActivity_by_key req req' p :
  rate_key req = rate_key req' ->
  verdict_of (detectSuspiciousActivity req p) = verdict_of (detectSuspiciousActivity req' p) /\
  state_after (detectSuspiciousActivity req p) = state_after (detectSuspiciousActivity req' p).
Proof.
  unfold detectSuspiciousActivity, rate_key, get_requestTracker, put_requestTracker,
    new_SecureVibeError, verdict_of.
  intros ->. step_through.
  destruct (requestTracker p) as [m|]; step_through.
  - destruct (m !! _) as [d|]; step_through; [|done].
    destruct (_ >? 60 * 1000); step_through; [done|].
    destruct (_ >? 30); step_through; done.
  - rewrite lookup_empty. done.
Qed.

Lemma detectSuspiciousActivity_flag req p :
  flag_of (detectSuspiciousActivity req p) = Some (isSuspicious req).
Proof.
  unfold detectSuspiciousActivity, get_requestTracker, put_requestTracker,
    new_SecureVibeError, flag_of.
  step_through.
  destruct (requestTracker p) as [m|]; step_through.
  - destruct (m !! _) as [d|]; step_through; [|done].
    destruct (_ >? 60 * 1000); step_through; [done|].
    destruct (_ >? 30); step_through; done.
  - rewrite lookup_empty. done.
Qed.

(** C9, as amended. A request whose body has the injection text in one of its
    strings leaves [detectSuspiciousActivity] flagged; the match changes
    neither the verdict nor the process (they are those of the same request
    without a body, so the request passes unless its rate counter rejects
    it); and the engine, with its table of attack patterns and its threat
    level, is as it was. *)
Theorem injection_is_flagged_only (req : Request) (body : JValue) (p : Process) :
  req_body req = Some body ->
  mentions "' UNION SELECT" body = true ->
  let r := detectSuspiciousActivity req p in
  let r0 := detectSuspiciousActivity (with_body None req) p in
  flag_of r = Some true /\
  verdict_of r = verdict_of r0 /\
  state_after r = state_after r0 /\
  ((counter_of req p = None \/
    exists d, counter_of req p = Some d /\
              (Date_now (clockReads p) - rc_firstRequest d > 60000 \/ rc_count d + 1 <= 30)) ->
   verdict_of r = Some Next) /\
  engine (state_after r) = engine p.
Proof.
  intros Hbody Hm r r0. subst r r0.
  split; [|split; [|split; [|split]]].
  - rewrite detectSuspiciousActivity_flag. f_equal.
    by apply (injection_isSuspicious req body).
  - by apply detectSuspiciousActivity_by_key.
  - by apply detectSuspiciousActivity_by_key.
  - intros [Hnone | (d & Hd & [Hlate | Hcount])].
    + rewrite detectSuspiciousActivity_fresh by (by left). reflexivity.
    + rewrite detectSuspiciousActivity_fresh by (right; eauto). reflexivity.
    + destruct (Z_le_gt_dec (Date_now (clockReads p) - rc_firstRequest d) 60000).
      * by rewrite (detectSuspiciousActivity_within req p d).
      * rewrite detectSuspiciousActivity_fresh by (right; eauto). reflexivity.
  - apply detectSuspiciousActivity_same_engine.
Qed.

End Injection.

(** Scenario C on the reference runtime, first request of its source. *)
Lemma injection_is_flagged_only_witness :
  let req := magic_link_request None (Some injection_body) in
  let r := detectSuspiciousActivity (rt:=node) req (startup (rt:=node)) in
  flag_of r = Some true /\
  verdict_of r = Some Next /\
  engine (state_after r) = engine (startup (rt:=node)).
Proof.
  intros req r.
  destruct (injection_is_flagged_only (rt:=node) req injection_body (startup (rt:=node)))
    as (Hflag & _ & _ & Hnext & Hengine); [reflexivity | vm_compute; reflexivity |].
  split; [exact Hflag|]. split; [|exact Hengine].
  apply Hnext. left. vm_compute. reflexivity.
Defined.

(** C9 as stated fails: the request of scenario C is flagged and passed on,
    and afterwards the engine has no record for its source and its threat
    level is still LOW. *)
Lemma injection_updates_no_threat_level :
  let req := magic_link_request None (Some injection_body) in
  let r := detectSuspiciousActivity (rt:=node) req (startup (rt:=node)) in
  flag_of r = Some true /\
  verdict_of r = Some Next /\
  record_of "203.0.113.5" (state_after r) = None /\
  attackPatterns (engine (state_after r)) = ∅ /\
  threatLevel (engine (state_after r)) = LOW.
Proof. vm_compute. repeat split; reflexivity. Qed.

(** ** The methods that cannot throw *)

Section Total.
Context {rt : Runtime}.

Lemma generateMasterKey_result p : exists key, result (generateMasterKey p) = Ok key.
Proof. eexists. reflexivity. Qed.

Lemma checkKeyRotation_result p : result (checkKeyRotation p) = Ok tt.
Proof.
  unfold checkKeyRotation. step_through.
  destruct (_ >? KEY_ROTATION_INTERVAL); reflexivity.
Qed.

Lemma checkKeyRotation_run p :
  checkKeyRotation p = (Ok tt, state_after (checkKeyRotation p)).
Proof.
  pose proof (checkKeyRotation_result p) as H. unfold result, state_after in *.
  destruct (checkKeyRotation p) as [o q]. simpl in *. by subst.
Qed.

Lemma checkKeyRotation_not_due p :
  rotation_due p = false -> checkKeyRotation p = (Ok tt, tick p).
Proof.
  unfold rotation_due, checkKeyRotation. intros H. step_through. by rewrite H.
Qed.

Lemma generateSessionKey_run context p :
  generateSessionKey context p =
  (Ok (session_key (masterKey (engine p)) context (Date_now (clockReads p))), tick p).
Proof. reflexivity. Qed.

Lemma detectAttackPattern_result context p :
  exists flagged, result (detectAttackPattern context p) = Ok flagged.
Proof.
  unfold detectAttackPattern. step_through.
  destruct (existsb _ _); eexists; reflexivity.
Qed.

Lemma detectAttackPattern_run context p :
  exists flagged,
    detectAttackPattern context p = (Ok flagged, state_after (detectAttackPattern context p)).
Proof.
  destruct (detectAttackPattern_result context p) as [flagged H].
  exists flagged. unfold result, state_after in *.
  destruct (detectAttackPattern context p) as [o q]. simpl in *. by subst.
Qed.

End Total.

(** ** Aborted calls *)

Section Aborts.
Context {rt : Runtime}.

Lemma capped_keeps_last_two log a b :
  exists older, capped (log ++ [a; b]) = older ++ [a; b].
Proof.
  exists (drop (length log + 2 - 1000) log).
  rewrite capped_drop, length_app. simpl.
  rewrite drop_app_le by lia. reflexivity.
Qed.

Lemma decrypt_try_bad_signature encryptedText context p :
  slice (base64_decode encryptedText) 0 (Some signature_length) <> SECUREVIBE_SIGNATURE ->
  decrypt_try encryptedText context p =
  (checkKeyRotation ;; triggerSecurityResponse context ;; throw "INVALID_SIGNATURE") p.
Proof.
  intros H. unfold decrypt_try, bind. rewrite checkKeyRotation_run.
  cbv zeta. rewrite bool_decide_eq_false_2 by done. reflexivity.
Qed.

(** C2, as amended. A text whose decoded leading bytes are not the magic
    signature makes [decrypt] do what [decrypt_abort] does, which uses neither
    the text nor the key nor a decipher: after the rotation check it logs a
    SECURITY_INCIDENT (the honeytrap path), then a failed DECRYPTION with the
    cause INVALID_SIGNATURE, and the error it throws to the caller is
    DECRYPTION_FAILED. *)
Theorem decrypt_rejects_bad_signature
    (encryptedText : string) (context : Context) (p : Process) :
  slice (base64_decode encryptedText) 0 (Some signature_length) <> SECUREVIBE_SIGNATURE ->
  let r := decrypt encryptedText context p in
  let q := state_after (checkKeyRotation p) in
  r = decrypt_abort context p /\
  result r = Throw "DECRYPTION_FAILED" /\
  securityLog (engine (state_after r)) =
    securityLog (engine q) ++
    [ SECURITY_INCIDENT (Date_now (clockReads q)) (source_of context) context
                        (threatLevel (engine q));
      CRYPTO_EVENT (Date_now (S (clockReads q))) DECRYPTION "FAILED" context
                   (Some "INVALID_SIGNATURE") (threatLevel (engine q)) ] /\
  masterKey (engine (state_after r)) = masterKey (engine q).
Proof.
  intros H r q. subst r q.
  unfold decrypt, try_catch, decrypt_abort.
  rewrite decrypt_try_bad_signature by done.
  unfold bind, decrypt_catch. rewrite checkKeyRotation_run.
  set (q := state_after (checkKeyRotation p)).
  rewrite triggerSecurityResponse_run. unfold throw, bind.
  rewrite !logDecryptionEvent_run. step_through.
  split; [reflexivity|]. split; [reflexivity|]. split; [|reflexivity].
  rewrite <- app_assoc. reflexivity.
Qed.

Lemma encrypt_try_flagged plainText context p :
  flagged_in_encrypt context p ->
  encrypt_try plainText context p =
  (checkKeyRotation ;; generateSessionKey context ;; detectAttackPattern context ;;
   triggerSecurityResponse context ;; throw "SECURITY_VIOLATION_DETECTED") p.
Proof.
  unfold flagged_in_encrypt, encrypt_try, bind, result.
  rewrite checkKeyRotation_run, generateSessionKey_run.
  destruct (detectAttackPattern_run context (tick (state_after (checkKeyRotation p))))
    as [flagged ->].
  cbn [fst]. intros [= ->]. reflexivity.
Qed.

(** C5, as amended. For a context flagged by [detectAttackPattern], [encrypt]
    does what [encrypt_abort] does, which uses neither the plaintext nor a
    cipher and draws no random bytes after the rotation check: it logs a
    SECURITY_INCIDENT (the honeytrap response), then a failed ENCRYPTION with
    the cause SECURITY_VIOLATION_DETECTED, and the error it throws to the
    caller is ENCRYPTION_FAILED. *)
Theorem encrypt_aborts_when_flagged
    (plainText : string) (context : Context) (p : Process) :
  flagged_in_encrypt context p ->
  let r := encrypt plainText context p in
  r = encrypt_abort context p /\
  result r = Throw "ENCRYPTION_FAILED" /\
  (exists older t level t',
      securityLog (engine (state_after r)) =
        older ++
        [ SECURITY_INCIDENT t (source_of context) context level;
          CRYPTO_EVENT t' ENCRYPTION "FAILED" context
                       (Some "SECURITY_VIOLATION_DETECTED") level ]) /\
  randomDraws (state_after r) = randomDraws (state_after (checkKeyRotation p)).
Proof.
  intros H r. subst r.
  unfold encrypt, try_catch, encrypt_abort.
  rewrite (encrypt_try_flagged plainText context p H).
  unfold bind, encrypt_catch. rewrite checkKeyRotation_run, generateSessionKey_run.
  set (q := tick (state_after (checkKeyRotation p))).
  destruct (detectAttackPattern_run context q) as [flagged Hrun]. rewrite Hrun.
  set (q' := state_after (detectAttackPattern context q)).
  assert (randomDraws q' = randomDraws (state_after (checkKeyRotation p))) as Hdraws.
  { subst q' q. unfold detectAttackPattern. step_through.
    destruct (existsb _ _); reflexivity. }
  rewrite triggerSecurityResponse_run. unfold throw, bind.
  rewrite !logEncryptionEvent_run. step_through.
  split; [reflexivity|]. split; [reflexivity|]. split; [|exact Hdraws].
  rewrite <- app_assoc. cbn [app].
  destruct (capped_keeps_last_two (securityLog (engine q'))
              (SECURITY_INCIDENT (Date_now (clockReads q')) (or_default (ctx_ip context) "unknown")
                                 context (threatLevel (engine q')))
              (CRYPTO_EVENT (Date_now (S (clockReads q'))) ENCRYPTION "FAILED" context
                            (Some "SECURITY_VIOLATION_DETECTED") (threatLevel (engine q'))))
    as [older ->].
  exists older. do 3 eexists. reflexivity.
Qed.

End Aborts.

(** The empty text, on the reference runtime. *)
Lemma decrypt_rejects_bad_signature_witness :
  let r := decrypt (rt:=node) "" plain_context (startup (rt:=node)) in
  r = decrypt_abort (rt:=node) plain_context (startup (rt:=node)) /\
  result r = Throw "DECRYPTION_FAILED" /\
  last_failure (state_after r) = Some (DECRYPTION, "INVALID_SIGNATURE").
Proof.
  intros r.
  destruct (decrypt_rejects_bad_signature (rt:=node) "" plain_context (startup (rt:=node)))
    as (Habort & Hresult & Hlog & _); [vm_compute; discriminate|].
  split; [exact Habort|]. split; [exact Hresult|].
  unfold last_failure. fold r in Hlog. rewrite Hlog.
  vm_compute. reflexivity.
Defined.

(** C2 as stated fails: the empty text has no signature, and the error that
    [decrypt] throws for it is not INVALID_SIGNATURE. *)
Lemma bad_signature_surfaces_as_DECRYPTION_FAILED :
  slice (base64_decode (Runtime:=node) "") 0 (Some signature_length)
    <> SECUREVIBE_SIGNATURE /\
  result (decrypt (rt:=node) "" plain_context (startup (rt:=node)))
    = Throw "DECRYPTION_FAILED" /\
  result (decrypt (rt:=node) "" plain_context (startup (rt:=node)))
    <> Throw "INVALID_SIGNATURE".
Proof.
  split; [vm_compute; discriminate|].
  split; [vm_compute; reflexivity | vm_compute; discriminate].
Qed.

(** A scanner, on the reference runtime. *)
Lemma encrypt_aborts_when_flagged_witness :
  let r := encrypt (rt:=node) "[1,2]" scanner_context (startup (rt:=node)) in
  r = encrypt_abort (rt:=node) scanner_context (startup (rt:=node)) /\
  result r = Throw "ENCRYPTION_FAILED" /\
  randomDraws (state_after r) = randomDraws (startup (rt:=node)).
Proof.
  intros r.
  destruct (encrypt_aborts_when_flagged (rt:=node) "[1,2]" scanner_context
              (startup (rt:=node)))
    as (Habort & Hresult & _ & Hdraws); [vm_compute; reflexivity|].
  split; [exact Habort|]. split; [exact Hresult|].
  fold r in Hdraws. rewrite Hdraws. vm_compute. reflexivity.
Defined.

(** C5 as stated fails: a scanner is flagged, and the error that [encrypt]
    throws for it is not SECURITY_VIOLATION_DETECTED. *)
Lemma flagged_surfaces_as_ENCRYPTION_FAILED :
  flagged_in_encrypt (rt:=node) scanner_context (startup (rt:=node)) /\
  result (encrypt (rt:=node) "[1,2]" scanner_context (startup (rt:=node)))
    = Throw "ENCRYPTION_FAILED" /\
  result (encrypt (rt:=node) "[1,2]" scanner_context (startup (rt:=node)))
    <> Throw "SECURITY_VIOLATION_DETECTED".
Proof.
  split; [vm_compute; reflexivity|].
  split; [vm_compute; reflexivity | vm_compute; discriminate].
Qed.

(** ** The layout of a ciphertext *)

Lemma utf8_length s : length (utf8 s) = String.length s.
Proof.
  unfold utf8, String.list_byte_of_string. rewrite length_map.
  induction s as [|c s IH]; simpl; [done | by rewrite IH].
Qed.

Lemma utf8_decode_utf8 s : utf8_decode (utf8 s) = s.
Proof. apply String.string_of_list_byte_of_string. Qed.

Lemma digits_of_length k :
  forall fuel n acc,
    (S k <= fuel)%nat ->
    (k = 0%nat /\ 0 <= n < 10) \/ 10 ^ Z.of_nat k <= n < 10 ^ Z.of_nat (S k) ->
    String.length (digits_of fuel n acc) = (S k + String.length acc)%nat.
Proof.
  induction k as [|k IH]; intros fuel n acc Hfuel Hn;
    (destruct fuel as [|fuel]; [lia|]); simpl.
  - destruct (Z.ltb_spec n 10) as [_|Hge]; [reflexivity|].
    change (10 ^ Z.of_nat 1) with 10 in Hn. lia.
  - destruct Hn as [[? _]|Hn]; [lia|].
    rewrite !Nat2Z.inj_succ, !Z.pow_succ_r in Hn by lia.
    assert (0 < 10 ^ Z.of_nat k) by (apply Z.pow_pos_nonneg; lia).
    destruct (Z.ltb_spec n 10) as [Hlt|_]; [lia|].
    rewrite IH; [simpl; lia | lia |].
    right. rewrite Nat2Z.inj_succ, Z.pow_succ_r by lia. split.
    + apply Z.div_le_lower_bound; lia.
    + apply Z.div_lt_upper_bound; lia.
Qed.

Lemma toString_13_digits t :
  10 ^ 12 <= t < 10 ^ 13 -> length (utf8 (toString t)) = 13%nat.
Proof.
  intros Ht. rewrite utf8_length. unfold toString.
  destruct (Z.ltb_spec t 0) as [|_]; [lia|].
  rewrite (digits_of_length 12); [reflexivity | | right; exact Ht].
  assert (Z.log2 (10 ^ 12) <= Z.log2 t) as Hlog by (apply Z.log2_le_mono; lia).
  change (Z.log2 (10 ^ 12)) with 39 in Hlog. lia.
Qed.

Lemma signature_length_20 : length SECUREVIBE_SIGNATURE = 20%nat.
Proof. reflexivity. Qed.

(** The parts [decrypt] cuts out of what [encrypt] assembled. *)
Lemma layout_signature (iv2 encrypted2 stamp : Buffer) :
  slice (SECUREVIBE_SIGNATURE ++ iv2 ++ encrypted2 ++ stamp) 0 (Some signature_length)
  = SECUREVIBE_SIGNATURE.
Proof.
  unfold signature_length.
  rewrite (slice_range _ 0 (length SECUREVIBE_SIGNATURE)) by lia.
  rewrite drop_0, Nat.sub_0_r. apply take_app_length.
Qed.

Lemma layout_iv2 (iv2 encrypted2 stamp : Buffer) :
  length iv2 = 16%nat ->
  slice (SECUREVIBE_SIGNATURE ++ iv2 ++ encrypted2 ++ stamp)
        signature_length (Some (signature_length + 16)) = iv2.
Proof.
  intros Hiv. unfold signature_length. rewrite signature_length_20.
  rewrite (slice_range _ 20 36) by lia.
  rewrite drop_app_length' by apply signature_length_20.
  replace (36 - 20)%nat with (length iv2) by lia. apply take_app_length.
Qed.

Lemma layout_encrypted2 (iv2 encrypted2 stamp : Buffer) :
  length iv2 = 16%nat -> length stamp = 13%nat ->
  slice (SECUREVIBE_SIGNATURE ++ iv2 ++ encrypted2 ++ stamp)
        (signature_length + 16) (Some (-13)) = encrypted2.
Proof.
  intros Hiv Hstamp. unfold signature_length. rewrite signature_length_20.
  rewrite (slice_until_end _ 36 13);
    [| lia | rewrite !length_app, signature_length_20; lia].
  rewrite !length_app, signature_length_20, Hiv, Hstamp.
  rewrite (app_assoc SECUREVIBE_SIGNATURE iv2).
  rewrite drop_app_length' by (rewrite length_app, signature_length_20; lia).
  replace (20 + (16 + (length encrypted2 + 13)) - 13 - 36)%nat
    with (length encrypted2) by lia.
  apply take_app_length.
Qed.

Lemma layout_layer1 (iv1 authTag1 encrypted1 : Buffer) :
  length iv1 = 16%nat -> length authTag1 = 16%nat ->
  let combined1 := iv1 ++ authTag1 ++ encrypted1 in
  slice combined1 16 (Some 32) = authTag1 /\ slice combined1 32 None = encrypted1.
Proof.
  intros Hiv Htag combined1. subst combined1. split.
  - rewrite (slice_range _ 16 32) by lia.
    rewrite drop_app_length' by done.
    replace (32 - 16)%nat with (length authTag1) by lia. apply take_app_length.
  - rewrite (slice_from _ 32).
    rewrite app_assoc. apply drop_app_length'. rewrite length_app. lia.
Qed.

(** ** [decrypt] after [encrypt] *)

Section RoundTrip.
Context {rt : Runtime}.

Lemma encrypt_Ok_try plainText context p encryptedText p' :
  encrypt plainText context p = (Ok encryptedText, p') ->
  encrypt_try plainText context p = (Ok encryptedText, p').
Proof.
  unfold encrypt, try_catch.
  destruct (encrypt_try plainText context p) as [[v|e] q]; [done|].
  intros H. destruct (encrypt_catch_run context e q) as [Hr _].
  unfold result in Hr. rewrite H in Hr. discriminate.
Qed.

Lemma detectAttackPattern_masterKey context p :
  masterKey (engine (state_after (detectAttackPattern context p))) = masterKey (engine p).
Proof.
  unfold detectAttackPattern. step_through. destruct (existsb _ _); reflexivity.
Qed.

(** What a successful [encrypt] did. *)
Lemma encrypt_try_Ok plainText context p encryptedText p' :
  encrypt_try plainText context p = (Ok encryptedText, p') ->
  let q := state_after (checkKeyRotation p) in
  let key := masterKey (engine q) in
  let sessionKey := session_key key context (Date_now (clockReads q)) in
  exists n1 n2 n3 encrypted1 authTag1 encrypted2,
    let iv1 := crypto_randomBytes n1 16 in
    let iv2 := crypto_randomBytes n2 16 in
    createCipher_gcm sessionKey LAYER1_AAD (utf8 plainText) = Ok (encrypted1, authTag1) /\
    createCipheriv_cbc key iv2 (securevibeTransform (iv1 ++ authTag1 ++ encrypted1) 1)
      = Ok encrypted2 /\
    encryptedText =
      base64_encode (SECUREVIBE_SIGNATURE ++ iv2 ++ encrypted2 ++ utf8 (toString (Date_now n3))) /\
    masterKey (engine p') = key /\
    (n3 < clockReads p')%nat.
Proof.
  intros H q key sessionKey. revert H.
  unfold encrypt_try, bind. rewrite checkKeyRotation_run, generateSessionKey_run.
  fold q. cbn [engine tick]. fold key sessionKey.
  destruct (detectAttackPattern_run context (tick q)) as [flagged Hrun]. rewrite Hrun.
  pose proof (detectAttackPattern_masterKey context (tick q)) as Hkey.
  set (q1 := state_after (detectAttackPattern context (tick q))) in *.
  destruct flagged.
  { rewrite triggerSecurityResponse_run. unfold throw. discriminate. }
  unfold randomBytes, lift, gets, now.
  destruct (createCipher_gcm sessionKey LAYER1_AAD (utf8 plainText))
    as [[encrypted1 authTag1]|e] eqn:Egcm; [|discriminate].
  cbn [engine drawn randomDraws].
  destruct (createCipheriv_cbc _ _ _) as [encrypted2|e] eqn:Ecbc; [|discriminate].
  rewrite logEncryptionEvent_run. unfold ret. intros [= <- <-].
  exists (randomDraws q1), (S (randomDraws q1)), (clockReads q1), encrypted1, authTag1, encrypted2.
  cbv zeta. split; [reflexivity|]. split.
  - rewrite <- Ecbc. f_equal. exact (eq_sym Hkey).
  - split; [reflexivity|]. cbn [engine with_engine tick drawn masterKey set_securityLog].
    split; [exact Hkey|]. cbn [clockReads with_engine tick drawn]. lia.
Qed.

(** [decrypt] applied to what [encrypt] returned, when it does not rotate the
    key: the text went under the session key of the reading [encrypt] took,
    and [decrypt] opens it under the session key of a reading of its own. *)
Lemma decrypt_after_encrypt
    (laws : RuntimeLaws rt)
    (plainText : string) (context : Context) (p p' : Process) (encryptedText : string) :
  encrypt plainText context p = (Ok encryptedText, p') ->
  (forall n, (n < clockReads p')%nat -> 10 ^ 12 <= Date_now n < 10 ^ 13) ->
  rotation_due p' = false ->
  let key := masterKey (engine p') in
  exists encrypted1 authTag1,
    createCipher_gcm (session_key key context (session_key_reading p))
      LAYER1_AAD (utf8 plainText) = Ok (encrypted1, authTag1) /\
    result (decrypt encryptedText context p') =
      match createDecipher_gcm (session_key key context (session_key_reading p'))
              LAYER1_AAD authTag1 encrypted1 with
      | Ok opened =>
          if JSON_parse (utf8_decode opened) then Ok (utf8_decode opened)
          else Throw "DECRYPTION_FAILED"
      | Throw _ => Throw "DECRYPTION_FAILED"
      end.
Proof.
  intros Henc clock13 Hrot key.
  apply encrypt_Ok_try, encrypt_try_Ok in Henc. cbv zeta in Henc.
  destruct Henc as (n1 & n2 & n3 & encrypted1 & authTag1 & encrypted2
                    & Hgcm & Hcbc & -> & Hkey & Hn3).
  fold key in Hkey. rewrite <- Hkey in Hgcm, Hcbc.
  exists encrypted1, authTag1. split; [exact Hgcm|].
  assert (session_key_reading p' = Date_now (clockReads (tick p'))) as ->.
  { unfold session_key_reading. by rewrite (checkKeyRotation_not_due p' Hrot). }
  unfold decrypt, try_catch, decrypt_try, bind.
  rewrite (checkKeyRotation_not_due p' Hrot). cbv zeta.
  rewrite (base64_decode_encode _ laws).
  pose proof (randomBytes_size _ laws n1 16) as Hiv1.
  pose proof (randomBytes_size _ laws n2 16) as Hiv2.
  pose proof (authTag_size _ laws _ _ _ _ _ Hgcm) as Htag.
  pose proof (toString_13_digits _ (clock13 n3 Hn3)) as Hstamp.
  rewrite layout_signature, bool_decide_eq_true_2 by done. cbn [negb].
  rewrite layout_iv2, layout_encrypted2 by done.
  unfold gets, lift. cbn [engine tick]. fold key.
  rewrite (decipher_cbc _ laws _ _ _ _ Hcbc).
  rewrite reverse_securevibeTransform.
  destruct (layout_layer1 _ _ encrypted1 Hiv1 Htag) as [-> ->].
  rewrite generateSessionKey_run. cbn [engine tick]. fold key.
  destruct (createDecipher_gcm _ _ _ _) as [opened|cause].
  - unfold detectDecryptionAnomaly.
    destruct (JSON_parse (utf8_decode opened)); cbn [negb].
    + rewrite logDecryptionEvent_run. reflexivity.
    + rewrite triggerSecurityResponse_run. unfold throw.
      apply decrypt_catch_run.
  - apply decrypt_catch_run.
Qed.

(** When the two readings show the same value, a plaintext that [JSON.parse]
    accepts comes back. *)
Lemma decrypt_undoes_encrypt
    (laws : RuntimeLaws rt) (clock13 : clock_has_13_digits rt)
    (plainText : string) (context : Context) (p p' : Process) (encryptedText : string) :
  encrypt plainText context p = (Ok encryptedText, p') ->
  JSON_parse plainText = true ->
  rotation_due p' = false ->
  session_key_reading p' = session_key_reading p ->
  result (decrypt encryptedText context p') = Ok plainText.
Proof.
  intros Henc Hjson Hrot Hread.
  destruct (decrypt_after_encrypt laws _ _ _ _ _ Henc (fun n _ => clock13 n) Hrot)
    as (encrypted1 & authTag1 & Hgcm & ->).
  rewrite Hread, (decipher_gcm _ laws _ _ _ _ _ Hgcm), utf8_decode_utf8, Hjson.
  reflexivity.
Qed.

End RoundTrip.

(** ** The reference runtime obeys the laws *)

Lemma lxor_byte_range a b : 0 <= a < 256 -> 0 <= b < 256 -> Z.lxor a b mod 256 = Z.lxor a b.
Proof.
  intros Ha Hb. rewrite <- land_255, land_lxor_distr, !land_255.
  by rewrite !Z.mod_small.
Qed.

Lemma reference_byte_xor_involutive b k :
  Reference.byte_xor (Reference.byte_xor b k) k = b.
Proof.
  unfold Reference.byte_xor.
  pose proof (byte_to_Z_range b). pose proof (byte_to_Z_range k).
  rewrite byte_to_of_Z, lxor_byte_range by done.
  rewrite Z.lxor_assoc, Z.lxor_nilpotent, Z.lxor_0_r. apply byte_of_to_Z.
Qed.

Lemma reference_xor_with_involutive key data :
  Reference.xor_with key (Reference.xor_with key data) = data.
Proof.
  unfold Reference.xor_with. apply map_indexed_inverse.
  intros i x. apply reference_byte_xor_involutive.
Qed.

Lemma reference_tag_length key aad data : length (Reference.tag_of key aad data) = 16%nat.
Proof.
  unfold Reference.tag_of, Reference.digest.
  rewrite length_take, length_map, length_seq. reflexivity.
Qed.

Lemma reference_laws clock users : RuntimeLaws (Reference.runtime clock users).
Proof.
  split; cbn [Reference.runtime crypto_randomBytes createCipher_gcm createDecipher_gcm
              createCipheriv_cbc createDecipheriv_cbc base64_encode base64_decode].
  - intros n size. unfold Reference.random. by rewrite length_map, length_seq.
  - intros password aad data sealed tag [= <- <-]. apply reference_tag_length.
  - intros password aad data sealed tag [= <- <-]. unfold Reference.open.
    rewrite reference_xor_with_involutive, bool_decide_eq_true_2; done.
  - intros key iv data sealed. unfold Reference.cbc_encrypt, Reference.cbc_decrypt.
    destruct (negb (length key =? 32)%nat); [done|].
    destruct (negb (length iv =? 16)%nat); [done|].
    intros [= <-].
    assert (length (Reference.xor_with key data ++ Reference.tag_of key iv data) - 16
            = length (Reference.xor_with key data))%nat as ->.
    { rewrite length_app, reference_tag_length. lia. }
    rewrite take_app_length, drop_app_length, reference_xor_with_involutive.
    rewrite bool_decide_eq_true_2; done.
  - intros data. apply String.list_byte_of_string_of_list_byte.
Qed.

Lemma still_clock_13_digits : clock_has_13_digits node.
Proof. intros n. cbn. unfold still_clock. lia. Qed.

(** On the reference runtime, with the clock standing still: a JSON text
    comes back. *)
Lemma round_trip_on_a_still_clock :
  let r := encrypt (rt:=node) "[1,2]" plain_context (startup (rt:=node)) in
  exists encryptedText,
    result r = Ok encryptedText /\
    result (decrypt (rt:=node) encryptedText plain_context (state_after r)) = Ok "[1,2]".
Proof.
  intros r. exists (text_of (result r)).
  assert (r = (Ok (text_of (result r)), state_after r)) as Hr by (vm_compute; reflexivity).
  split; [by rewrite Hr at 1|].
  apply (decrypt_undoes_encrypt (rt:=node) (reference_laws still_clock no_users)
           still_clock_13_digits "[1,2]" plain_context (startup (rt:=node)) (state_after r)
           (text_of (result r)) Hr);
    vm_compute; reflexivity.
Qed.

(** C1 (the code does not do this). [generateSessionKey] hashes a fresh
    reading of the clock into the key, and [decrypt], which cuts the
    timestamp off the text, derives its key from a reading of its own. So on
    every runtime whose deciphers undo its ciphers and whose clock has shown
    13 digits so far, when [decrypt] is applied to what [encrypt] returned
    and no rotation is due, the text that went under the key of the first
    reading is opened under the key of the second, and [decrypt] returns only
    if the decipher accepts that and [JSON.parse] accepts what comes out.
    With a clock that shows one millisecond more at every reading the
    readings are 5 ms apart: a JSON text is encrypted and decrypting the
    result at once, in the same context and without a rotation, fails, the
    decipher having found the text not authentic. And with the clock standing
    still a text that is not JSON does not come back either: [decrypt] takes
    it for a text tampered with. *)
Theorem round_trip_depends_on_the_clock :
  (forall (rt : Runtime), RuntimeLaws rt ->
   forall plainText context p encryptedText p',
     encrypt plainText context p = (Ok encryptedText, p') ->
     (forall n, (n < clockReads p')%nat -> 10 ^ 12 <= Date_now n < 10 ^ 13) ->
     rotation_due p' = false ->
     let key := masterKey (engine p') in
     exists encrypted1 authTag1,
       createCipher_gcm (session_key key context (session_key_reading p))
         LAYER1_AAD (utf8 plainText) = Ok (encrypted1, authTag1) /\
       result (decrypt encryptedText context p') =
         match createDecipher_gcm (session_key key context (session_key_reading p'))
                 LAYER1_AAD authTag1 encrypted1 with
         | Ok opened =>
             if JSON_parse (utf8_decode opened) then Ok (utf8_decode opened)
             else Throw "DECRYPTION_FAILED"
         | Throw _ => Throw "DECRYPTION_FAILED"
         end) /\
  (let p := startup (rt:=node_ticking) in
   let r := encrypt (rt:=node_ticking) "[1,2]" plain_context p in
   JSON_parse (Runtime:=node_ticking) "[1,2]" = true /\
   (exists encryptedText, result r = Ok encryptedText) /\
   rotation_due (rt:=node_ticking) (state_after r) = false /\
   session_key_reading (rt:=node_ticking) p = 1700000000003 /\
   session_key_reading (rt:=node_ticking) (state_after r) = 1700000000008 /\
   result (round_trip (rt:=node_ticking) "[1,2]" plain_context p)
     = Throw "DECRYPTION_FAILED" /\
   last_failure (state_after (round_trip (rt:=node_ticking) "[1,2]" plain_context p))
     = Some (DECRYPTION, "Unsupported state or unable to authenticate data")) /\
  (let p := startup (rt:=node) in
   let r := encrypt (rt:=node) "hello-world" plain_context p in
   (exists encryptedText, result r = Ok encryptedText) /\
   rotation_due (rt:=node) (state_after r) = false /\
   session_key_reading (rt:=node) (state_after r) = session_key_reading (rt:=node) p /\
   result (round_trip (rt:=node) "hello-world" plain_context p)
     = Throw "DECRYPTION_FAILED" /\
   last_failure (state_after (round_trip (rt:=node) "hello-world" plain_context p))
     = Some (DECRYPTION, "DECRYPTION_INTEGRITY_VIOLATION")).
Proof.
  split; [|split].
  - intros rt laws plainText context p encryptedText p' Henc clock13 Hrot.
    exact (decrypt_after_encrypt laws _ _ _ _ _ Henc clock13 Hrot).
  - cbv zeta. split; [|split; [|split; [|split; [|split; [|split]]]]].
    + vm_compute. reflexivity.
    + eexists. vm_compute. reflexivity.
    + vm_compute. reflexivity.
    + vm_compute. reflexivity.
    + vm_compute. reflexivity.
    + vm_compute. reflexivity.
    + vm_compute. reflexivity.
  - cbv zeta. split; [|split; [|split; [|split]]].
    + eexists. vm_compute. reflexivity.
    + vm_compute. reflexivity.
    + vm_compute. reflexivity.
    + vm_compute. reflexivity.
    + vm_compute. reflexivity.
Qed.

(** ** What [decrypt] can return *)

(** X13. What [decrypt] returns, whatever the ciphers do. It returns a text
    exactly when the decoded input begins with the magic signature, the CBC
    decipher opens the bytes between the IV and the timestamp under the
    current master key, the authenticated decipher accepts the tag and the
    bytes that the reverse transformation of that gives, under the session
    key of the current master key, the context and the clock reading after
    the rotation check, and [JSON.parse] accepts what comes out; and the text
    is what came out. *)
Theorem decrypt_returns_authenticated_JSON_only {rt : Runtime}
    (encryptedText : string) (context : Context) (p : Process) (text : string) :
  let q := state_after (checkKeyRotation p) in
  let encryptedData := base64_decode encryptedText in
  let iv2 := slice encryptedData signature_length (Some (signature_length + 16)) in
  let encrypted2 := slice encryptedData (signature_length + 16) (Some (-13)) in
  result (decrypt encryptedText context p) = Ok text <->
  slice encryptedData 0 (Some signature_length) = SECUREVIBE_SIGNATURE /\
  exists layer2Data opened,
    createDecipheriv_cbc (masterKey (engine q)) iv2 encrypted2 = Ok layer2Data /\
    let combined1 := reverseSecurevibeTransform layer2Data 1 in
    createDecipher_gcm
      (session_key (masterKey (engine q)) context (Date_now (clockReads q)))
      LAYER1_AAD (slice combined1 16 (Some 32)) (slice combined1 32 None) = Ok opened /\
    text = utf8_decode opened /\
    JSON_parse text = true.
Proof.
  intros q encryptedData iv2 encrypted2.
  unfold decrypt, try_catch, decrypt_try. unfold bind at 1.
  rewrite checkKeyRotation_run. fold q. cbv zeta. fold encryptedData iv2 encrypted2.
  destruct (bool_decide_reflect
              (slice encryptedData 0 (Some signature_length) = SECUREVIBE_SIGNATURE))
    as [Hsig|Hsig]; cbn [negb].
  2:{ unfold bind. rewrite triggerSecurityResponse_run. unfold throw.
      rewrite (proj1 (decrypt_catch_run _ _ _)).
      split; [discriminate | by intros [? _]]. }
  unfold bind, gets, lift.
  destruct (createDecipheriv_cbc _ _ _) as [layer2Data|e] eqn:Ecbc.
  2:{ rewrite (proj1 (decrypt_catch_run _ _ _)).
      split; [discriminate | by intros (_ & ? & ? & [=] & _)]. }
  rewrite generateSessionKey_run. cbn [engine tick].
  destruct (createDecipher_gcm _ _ _ _) as [opened|e] eqn:Egcm.
  2:{ rewrite (proj1 (decrypt_catch_run _ _ _)).
      split; [discriminate|].
      intros (_ & ? & ? & [= <-] & H & _). cbv zeta in H. congruence. }
  unfold detectDecryptionAnomaly.
  destruct (JSON_parse (utf8_decode opened)) eqn:Hjson; cbn [negb].
  - rewrite logDecryptionEvent_run. unfold ret. cbn [result fst]. split.
    + intros [= <-]. split; [exact Hsig|]. exists layer2Data, opened. by cbv zeta.
    + intros (_ & ? & ? & [= <-] & H & -> & _). cbv zeta in H. congruence.
  - rewrite triggerSecurityResponse_run. unfold throw.
    rewrite (proj1 (decrypt_catch_run _ _ _)).
    split; [discriminate|].
    intros (_ & ? & ? & [= <-] & H & -> & Hj). cbv zeta in H. congruence.
Qed.

(** ** The byte transformation is a bijection *)

Lemma transform_reverse_byte round i b :
  transform_byte round i (reverse_byte round i b) = b.
Proof.
  unfold reverse_byte, transform_byte.
  pose proof (signature_byte_range i) as Hs.
  pose proof (byte_to_Z_range b) as Hb.
  rewrite !js_and_255, byte_to_of_Z, Z.mod_mod by lia.
  rewrite <- Zplus_mod_idemp_l, <- (Zplus_mod_idemp_l _ (round * 7)).
  rewrite js_xor_mod256 by lia. rewrite Z.mod_mod by lia.
  rewrite js_xor_mod256 by lia.
  rewrite Z.lxor_assoc, Z.lxor_nilpotent, Z.lxor_0_r.
  rewrite (Zplus_mod_idemp_l _ (round * 7)), Zplus_mod_idemp_l.
  match goal with |- context [ (?x - ?r - ?k + ?r + ?k) mod 256 ] =>
    replace (x - r - k + r + k) with x by lia end.
  rewrite Z.mod_small by lia. apply byte_of_to_Z.
Qed.

(** X1. [securevibeTransform] and [reverseSecurevibeTransform] with the same
    round number are inverse to each other, in both orders, and neither
    changes the length of the buffer: for a whole round number and a buffer
    with which the sums [round * 7 + i * 13] and a byte more stay below
    2^53 in size, as they do for the rounds 0 to 11 of the code, so that the
    numbers of JavaScript compute them exactly. *)
Theorem securevibeTransform_is_a_bijection (data : Buffer) (round : Z) :
  Z.abs round * 7 + Z.of_nat (length data) * 13 + 255 < 2 ^ 53 ->
  length (securevibeTransform data round) = length data /\
  length (reverseSecurevibeTransform data round) = length data /\
  reverseSecurevibeTransform (securevibeTransform data round) round = data /\
  securevibeTransform (reverseSecurevibeTransform data round) round = data.
Proof.
  intros _.
  unfold reverseSecurevibeTransform, securevibeTransform.
  rewrite !map_indexed_length.
  split; [reflexivity|]. split; [reflexivity|]. split.
  - apply map_indexed_inverse. intros i x. apply reverse_transform_byte.
  - apply map_indexed_inverse. intros i x. apply transform_reverse_byte.
Qed.

(** The magic signature, in round 11. *)
Lemma securevibeTransform_is_a_bijection_witness :
  let data := SECUREVIBE_SIGNATURE in
  length (securevibeTransform data 11) = 20%nat /\
  securevibeTransform data 11 <> data /\
  reverseSecurevibeTransform (securevibeTransform data 11) 11 = data /\
  securevibeTransform (reverseSecurevibeTransform data 11) 11 = data.
Proof.
  intros data.
  destruct (securevibeTransform_is_a_bijection data 11) as (Hlength & _ & Hback & Hforth);
    [vm_compute; reflexivity|].
  split; [exact Hlength|]. split; [vm_compute; discriminate|].
  split; [exact Hback | exact Hforth].
Defined.

(** ** The session key *)

Lemma map_nth_seq (l : Buffer) (n : nat) :
  length l = n -> map (fun i => nth i l x00) (seq 0 n) = l.
Proof.
  intros <-. apply (nth_ext _ _ x00 x00).
  - by rewrite length_map, length_seq.
  - intros i Hi. rewrite length_map, length_seq in Hi.
    rewrite (nth_indep _ x00 (nth 0 l x00)) by (by rewrite length_map, length_seq).
    rewrite (map_nth (fun i => nth i l x00)), seq_nth by done. reflexivity.
Qed.

Lemma session_key_length {rt : Runtime} key context t :
  length (session_key key context t) = 32%nat.
Proof. unfold session_key. by rewrite length_map, length_seq. Qed.

Lemma session_key_byte {rt : Runtime} key context t i :
  (i < 32)%nat ->
  byte_at (session_key key context t) i =
  Z.lxor (byte_at key i)
         (byte_at (sha256 (utf8 (JSON_stringify context +:+ toString t))) i).
Proof.
  intros Hi. unfold session_key, byte_at at 1.
  set (f := fun i => byte_of_Z _).
  rewrite (nth_indep _ x00 (f 0%nat)) by (by rewrite length_map, length_seq).
  rewrite (map_nth f), seq_nth by done. subst f. cbv beta.
  rewrite byte_to_of_Z, js_and_255, Z.mod_mod by lia.
  pose proof (byte_to_Z_range (nth (0 + i) key x00)).
  rewrite js_xor_mod256 by apply byte_to_Z_range.
  unfold byte_at. by rewrite Z.mod_small.
Qed.

(** X2. [generateSessionKey] reads the clock once, leaves the engine as it
    is and returns 32 bytes. Each byte is the XOR of a byte of the master key
    with a byte of the hash of the context and the clock reading, so a
    32-byte master key is the XOR of the session key with that hash. *)
Theorem generateSessionKey_masks_the_master_key {rt : Runtime}
    (context : Context) (p : Process) :
  length (masterKey (engine p)) = 32%nat ->
  exists key,
    generateSessionKey context p = (Ok key, tick p) /\
    length key = 32%nat /\
    let contextHash :=
      sha256 (utf8 (JSON_stringify context +:+ toString (Date_now (clockReads p)))) in
    map (fun i => byte_of_Z (Z.lxor (byte_at key i) (byte_at contextHash i))) (seq 0 32)
    = masterKey (engine p).
Proof.
  intros Hlen. eexists. split; [apply generateSessionKey_run|].
  split; [apply session_key_length|]. cbv zeta.
  etransitivity; [|exact (map_nth_seq (masterKey (engine p)) 32 Hlen)].
  apply map_ext_in. intros i Hi. apply in_seq in Hi.
  rewrite session_key_byte by lia.
  rewrite Z.lxor_assoc, Z.lxor_nilpotent, Z.lxor_0_r.
  apply byte_of_to_Z.
Qed.

(** On the reference runtime, for the engine as the constructor leaves it. *)
Lemma generateSessionKey_masks_the_master_key_witness :
  exists key,
    generateSessionKey (rt:=node) plain_context (startup (rt:=node))
      = (Ok key, tick (startup (rt:=node))) /\
    length key = 32%nat /\
    map (fun i => byte_of_Z
                    (Z.lxor (byte_at key i)
                       (byte_at (sha256 (Runtime:=node)
                                   (utf8 (JSON_stringify (Runtime:=node) plain_context +:+
                                          toString 1700000000000))) i)))
        (seq 0 32)
    = masterKey (engine (startup (rt:=node))).
Proof.
  apply (generateSessionKey_masks_the_master_key (rt:=node) plain_context
           (startup (rt:=node))).
  vm_compute. reflexivity.
Defined.

(** ** Key rotation *)

Lemma generateMasterKey_run {rt : Runtime} p :
  generateMasterKey p =
  (Ok (slice (mix_rounds (entropy_of p)) 0 (Some 32)), drawn (tick (drawn p))).
Proof. reflexivity. Qed.

(** X4. [checkKeyRotation] returns; it rotates exactly when the clock reading
    it takes is more than KEY_ROTATION_INTERVAL past [lastKeyRotation].
    Otherwise the process is as before, one clock reading later. When it
    rotates, [lastKeyRotation] becomes that reading, the log gains one
    KEY_ROTATION entry stamped with it, the session keys are cleared, the
    master key is what [generateMasterKey] returns, and the attack patterns
    and the threat level stay. In both cases the key is then no older than
    the interval, by the reading taken. *)
Theorem checkKeyRotation_rotates_when_due {rt : Runtime} (p : Process) :
  let t := Date_now (clockReads p) in
  let q := state_after (checkKeyRotation p) in
  result (checkKeyRotation p) = Ok tt /\
  (t - lastKeyRotation (engine p) <= KEY_ROTATION_INTERVAL -> q = tick p) /\
  (t - lastKeyRotation (engine p) > KEY_ROTATION_INTERVAL ->
   lastKeyRotation (engine q) = t /\
   securityLog (engine q) = securityLog (engine p) ++ [KEY_ROTATION t] /\
   sessionKeys (engine q) = ∅ /\
   result (generateMasterKey (tick p)) = Ok (masterKey (engine q)) /\
   attackPatterns (engine q) = attackPatterns (engine p) /\
   threatLevel (engine q) = threatLevel (engine p) /\
   clockReads q = (clockReads p + 2)%nat /\
   randomDraws q = (randomDraws p + 2)%nat) /\
  t - lastKeyRotation (engine q) <= KEY_ROTATION_INTERVAL.
Proof.
  intros t q. subst q. split; [apply checkKeyRotation_result|].
  unfold checkKeyRotation. step_through. fold t.
  destruct (Z.gtb_spec (t - lastKeyRotation (engine p)) KEY_ROTATION_INTERVAL) as [Hdue|Hnot].
  - split; [lia|]. split.
    + intros _. cbn. repeat (split; [reflexivity|]). split; f_equal; lia.
    + cbn. unfold KEY_ROTATION_INTERVAL. lia.
  - split; [done|]. split; [lia|]. cbn. lia.
Qed.

(** ** Invariants of the engine

    Every change a call makes to the engine is one of the assignments of
    [EngineUpdates]; a preorder on engines that each of them respects relates
    the engine before any sequence of calls to the engine after it. *)

Section OnEngine.
Context {rt : Runtime}.
Context (E : relation Engine) `{!PreOrder E}.

#[local] Instance on_engine_preorder : PreOrder (on_engine E).
Proof.
  split.
  - intros p. unfold on_engine. reflexivity.
  - intros p q r Hpq Hqr. unfold on_engine in *. by etransitivity.
Qed.

Lemma keeps_on_engine_same {A} (m : M A) : keeps same_engine m -> keeps (on_engine E) m.
Proof.
  intros Hm p. specialize (Hm p). unfold same_engine, on_engine in *.
  rewrite Hm. reflexivity.
Qed.

Lemma keeps_on_engine_modify f : (forall e, E e (f e)) -> keeps (on_engine E) (modify f).
Proof. intros Hf p. apply Hf. Qed.

Context (updates : EngineUpdates E).

(** What follows a call of [generateMasterKey] is run with a key of the
    shape [upd_masterKey] speaks of. *)
Lemma keeps_after_generateMasterKey {A} (k : Buffer -> M A) :
  (forall entropy, keeps (on_engine E) (k (slice (mix_rounds entropy) 0 (Some 32)))) ->
  keeps (on_engine E) (bind generateMasterKey k).
Proof.
  intros Hk p. unfold bind. rewrite generateMasterKey_run.
  specialize (Hk (entropy_of p) (drawn (tick (drawn p)))).
  exact Hk.
Qed.

Ltac engine_step :=
  first
    [ apply keeps_ret | apply keeps_throw | apply keeps_lift | apply keeps_gets
    | apply keeps_on_engine_same;
      first [ apply now_same_engine | apply randomBytes_same_engine
            | apply detectSuspiciousActivity_same_engine | apply userRateLimit_same_engine ]
    | apply keeps_on_engine_modify; intros ?;
      first [ apply (upd_masterKey E updates)
            | apply (upd_sessionKeys E updates) | apply (upd_lastKeyRotation E updates)
            | apply (upd_attackPatterns E updates) | apply (upd_threatLevel E updates)
            | apply (upd_push E updates) | apply (upd_cut E updates) ]
    | match goal with H : _ |- _ => apply H end
    | apply keeps_after_generateMasterKey; intros ?
    | apply keeps_bind; [| | intros ?]
    | apply keeps_try_catch; [| | intros ?]
    | match goal with
      | |- keeps _ (if ?b then _ else _) => destruct b
      | |- keeps _ (match ?x with _ => _ end) => destruct x
      end ];
  try solve_preorder.

Lemma checkKeyRotation_on_engine : keeps (on_engine E) checkKeyRotation.
Proof.
  unfold checkKeyRotation, push_log. repeat engine_step.
Qed.

Lemma emergencyKeyRotation_on_engine : keeps (on_engine E) emergencyKeyRotation.
Proof.
  unfold emergencyKeyRotation, push_log. repeat engine_step.
Qed.

Lemma generateSessionKey_on_engine context : keeps (on_engine E) (generateSessionKey context).
Proof. unfold generateSessionKey. repeat engine_step. Qed.

Lemma detectAttackPattern_on_engine context : keeps (on_engine E) (detectAttackPattern context).
Proof.
  intros p. unfold detectAttackPattern, on_engine. step_through.
  set (ip := or_default (ctx_ip context) "unknown").
  set (pattern := match attackPatterns (engine p) !! ip with Some r => r | None => _ end).
  destruct (existsb _ _); step_through.
  - etransitivity; [apply (upd_attackPatterns E updates)|].
    apply (upd_threatLevel E updates).
  - apply (upd_attackPatterns E updates).
Qed.

Lemma triggerSecurityResponse_on_engine context :
  keeps (on_engine E) (triggerSecurityResponse context).
Proof. unfold triggerSecurityResponse, push_log. repeat engine_step. Qed.

Lemma logEncryptionEvent_on_engine context status error :
  keeps (on_engine E) (logEncryptionEvent context status error).
Proof.
  intros p. rewrite logEncryptionEvent_run. unfold on_engine, capped, state_after.
  cbn [snd with_engine engine tick].
  etransitivity; [apply (upd_push E updates)|].
  destruct (_ <? _)%nat; [|reflexivity].
  apply (upd_cut E updates (set_securityLog _ (engine p))).
Qed.

Lemma logDecryptionEvent_on_engine context status error :
  keeps (on_engine E) (logDecryptionEvent context status error).
Proof. unfold logDecryptionEvent, push_log. repeat engine_step. Qed.

Lemma encrypt_on_engine plainText context : keeps (on_engine E) (encrypt plainText context).
Proof.
  pose proof checkKeyRotation_on_engine.
  pose proof (generateSessionKey_on_engine context).
  pose proof (detectAttackPattern_on_engine context).
  pose proof (triggerSecurityResponse_on_engine context).
  pose proof (logEncryptionEvent_on_engine context).
  unfold encrypt, encrypt_try, encrypt_catch. repeat engine_step.
Qed.

Lemma decrypt_on_engine encryptedText context :
  keeps (on_engine E) (decrypt encryptedText context).
Proof.
  pose proof checkKeyRotation_on_engine.
  pose proof (generateSessionKey_on_engine context).
  pose proof (triggerSecurityResponse_on_engine context).
  pose proof (logDecryptionEvent_on_engine context).
  unfold decrypt, decrypt_try, decrypt_catch. repeat engine_step.
Qed.

Lemma perform_on_engine c p : on_engine E p (perform c p).
Proof.
  destruct c; cbn [perform].
  - apply encrypt_on_engine.
  - apply decrypt_on_engine.
  - apply checkKeyRotation_on_engine.
  - apply detectAttackPattern_on_engine.
  - apply triggerSecurityResponse_on_engine.
  - apply logEncryptionEvent_on_engine.
  - apply logDecryptionEvent_on_engine.
  - apply emergencyKeyRotation_on_engine.
  - apply keeps_on_engine_same, detectSuspiciousActivity_same_engine.
  - apply keeps_on_engine_same, userRateLimit_same_engine.
Qed.

Lemma perform_all_on_engine calls p : E (engine p) (engine (perform_all calls p)).
Proof.
  revert p. induction calls as [|c calls IH]; intros p; [reflexivity|].
  simpl. etransitivity; [apply perform_on_engine | apply IH].
Qed.

End OnEngine.

(** ** The size of the master key *)

Section MasterKeySize.
Context {rt : Runtime}.
Hypothesis digest32 : forall data, length (sha256 data) = 32%nat.

Lemma mix_rounds_length entropy : length (mix_rounds entropy) = 32%nat.
Proof.
  unfold mix_rounds.
  change (seq 0 ENCRYPTION_ROUNDS) with (seq 0 11 ++ [11%nat]).
  rewrite fold_left_app. cbn [fold_left].
  unfold securevibeTransform. by rewrite map_indexed_length.
Qed.

Lemma generated_key_length entropy :
  length (slice (mix_rounds entropy) 0 (Some 32)) = 32%nat.
Proof.
  rewrite (slice_range _ 0 32) by lia.
  rewrite drop_0, length_take, mix_rounds_length. reflexivity.
Qed.

#[local] Instance key_kept_or_sized_preorder : PreOrder key_kept_or_sized.
Proof.
  split.
  - intros e. by left.
  - intros e1 e2 e3 [H12|H12] [H23|H23]; unfold key_kept_or_sized;
      first [ by right | left; congruence | right; congruence ].
Qed.

Lemma key_kept_or_sized_updates : EngineUpdates key_kept_or_sized.
Proof.
  split; intros; first [ by left | right; apply generated_key_length ].
Qed.

Lemma startup_key_length : length (masterKey (engine startup)) = 32%nat.
Proof. apply generated_key_length. Qed.

(** X3. On a runtime whose SHA-256 digests have 32 bytes, the master key has
    32 bytes when the constructor has run, and after any sequence of calls,
    rotations included. *)
Theorem master_key_has_32_bytes (calls : list Call) :
  length (masterKey (engine (perform_all calls startup))) = 32%nat.
Proof.
  destruct (perform_all_on_engine key_kept_or_sized key_kept_or_sized_updates calls startup)
    as [H|H]; [|exact H].
  rewrite H. apply startup_key_length.
Qed.

End MasterKeySize.

Lemma reference_digest_length data : length (Reference.digest data) = 32%nat.
Proof. unfold Reference.digest. by rewrite length_map, length_seq. Qed.

(** On the reference runtime, after calls of every kind. *)
Lemma master_key_has_32_bytes_witness :
  length (masterKey (engine (perform_all (rt:=node) mixed_calls (startup (rt:=node)))))
  = 32%nat.
Proof.
  apply (master_key_has_32_bytes (rt:=node) reference_digest_length mixed_calls).
Defined.

(** ** The table of session keys *)

#[local] Instance cache_kept_or_empty_preorder : PreOrder cache_kept_or_empty.
Proof.
  split.
  - intros e. by left.
  - intros e1 e2 e3 [H12|H12] [H23|H23]; unfold cache_kept_or_empty;
      first [ by right | left; congruence | right; congruence ].
Qed.

Lemma cache_kept_or_empty_updates {rt : Runtime} : EngineUpdates cache_kept_or_empty.
Proof. split; intros; first [ by left | by right ]. Qed.

(** X5. No call ever puts a key in [sessionKeys]: the table is empty when
    the constructor has run and after any sequence of calls. The session key
    of a call is derived again on every call. *)
Theorem session_keys_are_never_stored {rt : Runtime} (calls : list Call) :
  sessionKeys (engine (perform_all calls startup)) = ∅.
Proof.
  destruct (perform_all_on_engine cache_kept_or_empty cache_kept_or_empty_updates
              calls startup) as [H|H]; [|exact H].
  rewrite H. reflexivity.
Qed.

(** ** The threat level *)

#[local] Instance level_kept_or_raised_preorder : PreOrder level_kept_or_raised.
Proof.
  split.
  - intros e. by left.
  - intros e1 e2 e3 [H12|H12] [H23|H23]; unfold level_kept_or_raised;
      first [ by right | left; congruence | right; congruence ].
Qed.

Lemma threatLevelFor_not_LOW n : threatLevelFor n <> LOW.
Proof. unfold threatLevelFor. by destruct (5 <? n)%nat, (2 <? n)%nat. Qed.

Lemma level_kept_or_raised_updates {rt : Runtime} : EngineUpdates level_kept_or_raised.
Proof.
  split; intros; first [ by left | right; apply threatLevelFor_not_LOW ].
Qed.

(** X8. No call lowers the threat level to LOW: after any sequence of calls
    the level is the one before them or is not LOW, so an engine that has
    left LOW stays above it until the process restarts, emergency key
    rotation included. *)
Theorem threat_level_never_returns_to_LOW {rt : Runtime} (calls : list Call) (p : Process) :
  threatLevel (engine (perform_all calls p)) = threatLevel (engine p) \/
  threatLevel (engine (perform_all calls p)) <> LOW.
Proof.
  exact (perform_all_on_engine level_kept_or_raised level_kept_or_raised_updates calls p).
Qed.

(** ** Attack records stay *)

#[local] Instance sources_kept_preorder : PreOrder sources_kept.
Proof.
  split.
  - intros e. unfold sources_kept. set_solver.
  - intros e1 e2 e3. unfold sources_kept. set_solver.
Qed.

Lemma sources_kept_updates {rt : Runtime} : EngineUpdates sources_kept.
Proof.
  split; intros; unfold sources_kept; cbn; try set_solver.
Qed.

Lemma getSecurityStatus_run p :
  getSecurityStatus p =
  (Ok {| status_threatLevel := threatLevel (engine p);
         status_activeAttackPatterns := size (attackPatterns (engine p));
         status_securityEvents := length (securityLog (engine p));
         status_lastKeyRotation := lastKeyRotation (engine p);
         status_encryptionRounds := ENCRYPTION_ROUNDS;
         status_algorithm := "SecureVibe Proprietary Multi-Layer AES-256" |}, p).
Proof. reflexivity. Qed.

(** X14. [getSecurityStatus] returns without changing the process, and the
    number of active attack patterns it reports never goes down: no call
    removes a source from [attackPatterns], so the table holds every source
    seen since the process started. *)
Theorem attack_records_are_never_evicted {rt : Runtime} (calls : list Call) (p : Process) :
  exists before after,
    getSecurityStatus p = (Ok before, p) /\
    getSecurityStatus (perform_all calls p) = (Ok after, perform_all calls p) /\
    (status_activeAttackPatterns before <= status_activeAttackPatterns after)%nat /\
    status_securityEvents after = log_size (perform_all calls p) /\
    status_threatLevel after = threatLevel (engine (perform_all calls p)).
Proof.
  do 2 eexists. split; [apply getSecurityStatus_run|].
  split; [apply getSecurityStatus_run|].
  cbn [status_activeAttackPatterns status_securityEvents status_threatLevel].
  split; [|done].
  pose proof (perform_all_on_engine sources_kept sources_kept_updates calls p) as H.
  unfold sources_kept in H. apply subseteq_size in H. by rewrite !size_dom in H.
Qed.

(** ** Requests are counted exactly *)

Section Counting.
Context {rt : Runtime}.

Lemma count_of_same_patterns id p q : same_patterns p q -> count_of id q = count_of id p.
Proof. intros H. unfold count_of, record_of. by rewrite H. Qed.

Lemma detectAttackPattern_count id context p :
  count_of id (state_after (detectAttackPattern context p)) =
  count_of id p + (if decide (source_of context = id) then 1 else 0).
Proof.
  destruct (decide (source_of context = id)) as [<-|Hne].
  - destruct (detectAttackPattern_record context p) as (r' & Hr' & Hcount & _).
    unfold count_of. rewrite Hr', Hcount. unfold record_or_new.
    by destruct (record_of (source_of context) p).
  - unfold count_of. rewrite detectAttackPattern_other by done. lia.
Qed.

(** The table of attack patterns after [encrypt] is the one its call of
    [detectAttackPattern] leaves. *)
Lemma encrypt_patterns plainText context p :
  let q := tick (state_after (checkKeyRotation p)) in
  same_patterns (state_after (detectAttackPattern context q))
                (state_after (encrypt plainText context p)).
Proof.
  intros q. unfold encrypt, try_catch, encrypt_try, encrypt_catch. unfold bind.
  rewrite checkKeyRotation_run, generateSessionKey_run. fold q.
  destruct (detectAttackPattern_run context q) as [flagged ->].
  set (q1 := state_after (detectAttackPattern context q)).
  destruct flagged.
  { rewrite triggerSecurityResponse_run. unfold throw.
    rewrite logEncryptionEvent_run. reflexivity. }
  unfold randomBytes, lift, gets, now.
  destruct (createCipher_gcm _ _ _) as [[encrypted1 authTag1]|e];
    [|rewrite logEncryptionEvent_run; reflexivity].
  destruct (createCipheriv_cbc _ _ _) as [encrypted2|e];
    rewrite logEncryptionEvent_run; reflexivity.
Qed.

Lemma encrypt_count id plainText context p :
  count_of id (state_after (encrypt plainText context p)) =
  count_of id p + (if decide (source_of context = id) then 1 else 0).
Proof.
  rewrite (count_of_same_patterns id _ _ (encrypt_patterns plainText context p)).
  rewrite detectAttackPattern_count. f_equal.
  apply count_of_same_patterns.
  transitivity (state_after (checkKeyRotation p)); [apply checkKeyRotation_same_patterns | done].
Qed.

Lemma decrypt_same_patterns encryptedText context :
  keeps same_patterns (decrypt encryptedText context).
Proof.
  pose proof checkKeyRotation_same_patterns.
  pose proof (generateSessionKey_same_patterns context).
  pose proof (triggerSecurityResponse_same_patterns context).
  pose proof (logDecryptionEvent_same_patterns context).
  unfold decrypt, decrypt_try, decrypt_catch.
  repeat first [ match goal with H : _ |- _ => apply H end | keeps_step ].
Qed.

Lemma same_engine_same_patterns p q : same_engine p q -> same_patterns p q.
Proof. unfold same_engine, same_patterns. by intros ->. Qed.

Lemma perform_count id c p :
  count_of id (perform c p) = count_of id p + counted id c.
Proof.
  destruct c; cbn [perform counted].
  - apply encrypt_count.
  - rewrite Z.add_0_r. apply count_of_same_patterns, decrypt_same_patterns.
  - rewrite Z.add_0_r. apply count_of_same_patterns, checkKeyRotation_same_patterns.
  - apply detectAttackPattern_count.
  - rewrite Z.add_0_r. apply count_of_same_patterns, triggerSecurityResponse_same_patterns.
  - rewrite Z.add_0_r. apply count_of_same_patterns, logEncryptionEvent_same_patterns.
  - rewrite Z.add_0_r. apply count_of_same_patterns, logDecryptionEvent_same_patterns.
  - rewrite Z.add_0_r. apply count_of_same_patterns, emergencyKeyRotation_same_patterns.
  - rewrite Z.add_0_r.
    apply count_of_same_patterns, same_engine_same_patterns, detectSuspiciousActivity_same_engine.
  - rewrite Z.add_0_r.
    apply count_of_same_patterns, same_engine_same_patterns, userRateLimit_same_engine.
Qed.

(** X6. The request count of a source is exact: over any sequence of calls
    it goes up by one for every call of [encrypt] and of [detectAttackPattern]
    whose context has that source, whether the call was flagged, failed or
    succeeded, and by nothing else. [decrypt] counts no request, and no call
    resets a count. *)
Theorem requests_are_counted_exactly (id : string) (calls : list Call) (p : Process) :
  count_of id (perform_all calls p) =
  count_of id p + foldr (fun c total => counted id c + total) 0 calls.
Proof.
  revert p. induction calls as [|c calls IH]; intros p; cbn [perform_all fold_left foldr].
  - lia.
  - change (fold_left (fun q c => perform c q) calls (perform c p))
      with (perform_all calls (perform c p)).
    rewrite IH, perform_count. lia.
Qed.

End Counting.

(** ** Contexts that are refused on sight *)

Section Hostile.
Context {rt : Runtime}.



End Hostile.


(** ** The log after [encrypt] and after [decrypt] *)

Section CallLogs.
Context {rt : Runtime}.

Lemma capped_log_size (entries : Engine -> list LogEntry) p :
  (log_size (with_engine (fun e => set_securityLog (capped (entries e)) e) p) <= 1000)%nat.
Proof.
  unfold log_size. cbn [with_engine engine securityLog set_securityLog].
  apply capped_length.
Qed.

(** X10. Every call of [encrypt] ends with [logEncryptionEvent], on success
    and on failure alike, so the log has at most 1000 entries when [encrypt]
    returns or throws, however long it was before. *)
Theorem encrypt_leaves_a_capped_log (plainText : string) (context : Context) (p : Process) :
  (log_size (state_after (encrypt plainText context p)) <= 1000)%nat.
Proof.
  unfold encrypt, try_catch, encrypt_try, encrypt_catch. unfold bind.
  rewrite checkKeyRotation_run, generateSessionKey_run.
  set (q := tick (state_after (checkKeyRotation p))).
  destruct (detectAttackPattern_run context q) as [flagged ->].
  set (q1 := state_after (detectAttackPattern context q)).
  destruct flagged.
  { rewrite triggerSecurityResponse_run. unfold throw.
    rewrite logEncryptionEvent_run. apply capped_log_size. }
  unfold randomBytes, lift, gets, now.
  destruct (createCipher_gcm _ _ _) as [[encrypted1 authTag1]|e];
    [|rewrite logEncryptionEvent_run; apply capped_log_size].
  destruct (createCipheriv_cbc _ _ _) as [encrypted2|e];
    rewrite logEncryptionEvent_run; apply capped_log_size.
Qed.

Lemma checkKeyRotation_detection p :
  attackPatterns (engine (state_after (checkKeyRotation p))) = attackPatterns (engine p) /\
  threatLevel (engine (state_after (checkKeyRotation p))) = threatLevel (engine p) /\
  (log_size p <= log_size (state_after (checkKeyRotation p)) <= log_size p + 1)%nat.
Proof.
  unfold checkKeyRotation, log_size. step_through.
  destruct (_ >? _); cbn; rewrite ?length_app; cbn; repeat split; lia.
Qed.

(** What [decrypt] leaves of the engine after the rotation check: the same
    engine with one or two entries more in the log. *)
Lemma decrypt_engine encryptedText context p :
  let q := state_after (checkKeyRotation p) in
  exists entries,
    (1 <= length entries <= 2)%nat /\
    engine (state_after (decrypt encryptedText context p)) =
    set_securityLog (securityLog (engine q) ++ entries) (engine q).
Proof.
  intros q. unfold decrypt, try_catch, decrypt_try, decrypt_catch. unfold bind.
  rewrite checkKeyRotation_run. fold q. cbv zeta.
  assert (forall a b (r : Process),
             engine (with_engine (fun e => set_securityLog (securityLog e ++ [b]) e)
                       (tick (with_engine (fun e => set_securityLog (securityLog e ++ [a]) e)
                                (tick r))))
             = set_securityLog (securityLog (engine r) ++ [a; b]) (engine r)) as Htwo.
  { intros a b r. cbn. by rewrite <- app_assoc. }
  destruct (negb _).
  { rewrite triggerSecurityResponse_run. unfold throw.
    rewrite logDecryptionEvent_run.
    eexists [_; _]. split; [simpl; lia|]. cbn. by rewrite <- app_assoc. }
  unfold gets, lift.
  destruct (createDecipheriv_cbc _ _ _) as [layer2Data|e].
  2:{ rewrite logDecryptionEvent_run. eexists [_]. split; [simpl; lia|]. reflexivity. }
  rewrite generateSessionKey_run.
  destruct (createDecipher_gcm _ _ _ _) as [opened|e].
  2:{ rewrite logDecryptionEvent_run. eexists [_]. split; [simpl; lia|]. reflexivity. }
  destruct (detectDecryptionAnomaly _ _).
  - rewrite triggerSecurityResponse_run. unfold throw.
    rewrite logDecryptionEvent_run.
    eexists [_; _]. split; [simpl; lia|]. cbn. by rewrite <- app_assoc.
  - rewrite logDecryptionEvent_run. eexists [_]. split; [simpl; lia|]. reflexivity.
Qed.

(** X15. [decrypt] is invisible to the attack detection: it leaves the table
    of attack patterns and the threat level as they are, whatever the text
    and however it fails, so no number of failed decryptions is ever flagged.
    What it leaves is between one and three new log entries, with no cut. *)
Theorem decrypt_is_invisible_to_detection
    (encryptedText : string) (context : Context) (p : Process) :
  let q := state_after (decrypt encryptedText context p) in
  attackPatterns (engine q) = attackPatterns (engine p) /\
  threatLevel (engine q) = threatLevel (engine p) /\
  (log_size p + 1 <= log_size q <= log_size p + 3)%nat.
Proof.
  intros q. subst q. unfold log_size.
  destruct (decrypt_engine encryptedText context p) as (entries & Hlen & ->).
  destruct (checkKeyRotation_detection p) as (Hpatterns & Hlevel & Hsize).
  unfold log_size in *.
  cbn [attackPatterns threatLevel securityLog set_securityLog].
  rewrite length_app. repeat split; [done | done | lia | lia].
Qed.

End CallLogs.

(** ** The log only grows at its end and shrinks at its front *)

Section LogGrows.
Context {rt : Runtime}.

Lemma log_grows_same n e e' : securityLog e' = securityLog e -> log_grows n e e'.
Proof.
  intros H. exists 0%nat, []. rewrite app_nil_r.
  split; [simpl; lia|]. split; [exact H | by left].
Qed.

Lemma log_grows_push n e e' entries :
  securityLog e' = securityLog e ++ entries -> (length entries <= n)%nat ->
  log_grows n e e'.
Proof.
  intros H Hn. exists 0%nat, entries. split; [exact Hn|]. split; [exact H | by left].
Qed.

Lemma log_grows_capped n e e' entries :
  securityLog e' = capped (securityLog e ++ entries) -> (length entries <= n)%nat ->
  log_grows n e e'.
Proof.
  intros H Hn. exists (length (securityLog e ++ entries) - 1000)%nat, entries.
  split; [exact Hn|]. rewrite H, capped_drop. split; [reflexivity|].
  rewrite length_drop. lia.
Qed.

Lemma log_grows_trans n m e1 e2 e3 :
  log_grows n e1 e2 -> log_grows m e2 e3 -> log_grows (n + m) e1 e3.
Proof.
  intros (k1 & a1 & Hn & H12 & Hk1) (k2 & a2 & Hm & H23 & Hk2).
  exists (k1 + k2)%nat, (a1 ++ a2).
  split; [rewrite length_app; lia|].
  assert (k1 <= length (securityLog e1 ++ a1))%nat as Hle.
  { destruct Hk1 as [->|Hk1]; [lia|].
    rewrite H12, length_drop in Hk1. lia. }
  split.
  - rewrite H23, H12, app_assoc, <- drop_app_le by exact Hle. by rewrite drop_drop.
  - destruct Hk2 as [->|Hk2]; [|by right].
    destruct Hk1 as [->|Hk1]; [by left|]. right.
    rewrite H23, drop_0, length_app. lia.
Qed.

Lemma checkKeyRotation_log p :
  exists entries,
    (length entries <= 1)%nat /\
    securityLog (engine (state_after (checkKeyRotation p))) =
      securityLog (engine p) ++ entries.
Proof.
  unfold checkKeyRotation. step_through.
  destruct (_ >? _); cbn.
  - eexists [_]. split; [simpl; lia | reflexivity].
  - exists []. split; [simpl; lia | by rewrite app_nil_r].
Qed.

Lemma detectAttackPattern_log context p :
  securityLog (engine (state_after (detectAttackPattern context p))) = securityLog (engine p).
Proof.
  unfold detectAttackPattern. step_through. destruct (existsb _ _); reflexivity.
Qed.

(** What [encrypt] leaves of the log after the rotation check: one or two
    entries more, and the cut. *)
Lemma encrypt_log plainText context p :
  let q := state_after (checkKeyRotation p) in
  exists entries,
    (1 <= length entries <= 2)%nat /\
    securityLog (engine (state_after (encrypt plainText context p))) =
      capped (securityLog (engine q) ++ entries).
Proof.
  intros q. unfold encrypt, try_catch, encrypt_try, encrypt_catch. unfold bind.
  rewrite checkKeyRotation_run, generateSessionKey_run. fold q.
  destruct (detectAttackPattern_run context (tick q)) as [flagged ->].
  pose proof (detectAttackPattern_log context (tick q)) as Hlog.
  set (q1 := state_after (detectAttackPattern context (tick q))) in *.
  cbn [engine tick] in Hlog.
  destruct flagged.
  { rewrite triggerSecurityResponse_run. unfold throw.
    rewrite logEncryptionEvent_run.
    eexists [_; _]. split; [simpl; lia|].
    cbn. rewrite Hlog, <- app_assoc. reflexivity. }
  unfold randomBytes, lift, gets, now.
  destruct (createCipher_gcm _ _ _) as [[encrypted1 authTag1]|e].
  2:{ rewrite logEncryptionEvent_run. eexists [_]. split; [simpl; lia|].
      cbn. rewrite Hlog. reflexivity. }
  destruct (createCipheriv_cbc _ _ _) as [encrypted2|e];
    rewrite logEncryptionEvent_run; (eexists [_]; split; [simpl; lia|]);
    cbn; rewrite Hlog; reflexivity.
Qed.

Lemma perform_log_grows c p : log_grows 3 (engine p) (engine (perform c p)).
Proof.
  destruct c; cbn [perform].
  - destruct (checkKeyRotation_log p) as (first & Hfirst & Hq).
    destruct (encrypt_log plainText context p) as (entries & Hlen & Hlog).
    apply (log_grows_capped _ _ _ (first ++ entries)).
    + by rewrite Hlog, Hq, app_assoc.
    + rewrite length_app. lia.
  - destruct (checkKeyRotation_log p) as (first & Hfirst & Hq).
    destruct (decrypt_engine encryptedText context p) as (entries & Hlen & Hlog).
    apply (log_grows_push _ _ _ (first ++ entries)).
    + rewrite Hlog. cbn [securityLog set_securityLog]. by rewrite Hq, app_assoc.
    + rewrite length_app. lia.
  - destruct (checkKeyRotation_log p) as (first & Hfirst & Hq).
    apply (log_grows_push _ _ _ first); [exact Hq | lia].
  - apply log_grows_same, detectAttackPattern_log.
  - rewrite triggerSecurityResponse_run. eapply log_grows_push; [reflexivity | simpl; lia].
  - rewrite logEncryptionEvent_run. eapply log_grows_capped; [reflexivity | simpl; lia].
  - rewrite logDecryptionEvent_run. eapply log_grows_push; [reflexivity | simpl; lia].
  - eapply (log_grows_push _ _ _ [_]); [|simpl; lia].
    unfold emergencyKeyRotation, generateMasterKey. step_through. reflexivity.
  - apply log_grows_same. by rewrite (detectSuspiciousActivity_same_engine req p).
  - apply log_grows_same. by rewrite (userRateLimit_same_engine req p).
Qed.

(** X9. The log is append-only but for the cut at its front. After any
    sequence of calls it is the log before them, followed by new entries, at
    most three for each call, less a number of its oldest entries; and
    entries are gone only if 1000 or more are left. So a log that has fewer
    than 1000 entries after the calls begins with the whole log before them,
    and no call changes or reorders entries. *)
Theorem log_is_append_only (calls : list Call) (p : Process) :
  exists (removed : nat) (added : list LogEntry),
    (length added <= 3 * length calls)%nat /\
    securityLog (engine (perform_all calls p)) =
      drop removed (securityLog (engine p) ++ added) /\
    (removed = 0%nat \/ (1000 <= length (securityLog (engine (perform_all calls p))))%nat).
Proof.
  change (log_grows (3 * length calls) (engine p) (engine (perform_all calls p))).
  revert p. induction calls as [|c calls IH]; intros p.
  - by apply log_grows_same.
  - cbn [length]. replace (3 * S (length calls))%nat with (3 + 3 * length calls)%nat by lia.
    eapply log_grows_trans; [apply perform_log_grows | apply IH].
Qed.

End LogGrows.

(** ** More on the layout of a ciphertext *)


Lemma slices_of_body {A} (body stamp : list A) :
  length stamp = 13%nat -> (36 <= length body)%nat ->
  slice (body ++ stamp) 0 (Some signature_length) = take 20 body /\
  slice (body ++ stamp) signature_length (Some (signature_length + 16))
    = take 16 (drop 20 body) /\
  slice (body ++ stamp) (signature_length + 16) (Some (-13)) = drop 36 body.
Proof.
  intros Hstamp Hbody.
  change signature_length with (Z.of_nat 20).
  change (Z.of_nat 20 + 16) with (Z.of_nat 36).
  change 0 with (Z.of_nat 0). change (-13) with (- Z.of_nat 13).
  rewrite !slice_range by lia.
  rewrite slice_until_end by (rewrite ?length_app; lia).
  rewrite drop_0, !drop_app_le by lia.
  rewrite !take_app_le by (rewrite ?length_drop; lia).
  repeat split. rewrite length_app, Hstamp.
  replace (length body + 13 - 13 - 36)%nat with (length (drop 36 body))
    by (rewrite length_drop; lia).
  by rewrite take_app_length.
Qed.

Section Layout.
Context {rt : Runtime}.




(** X12. [decrypt] reads the trailing 13 bytes of a text and never uses
    them: two texts that decode to the same bytes followed by any two
    13-byte trailers are treated alike, result and process. The timestamp of
    a ciphertext is neither checked nor authenticated, and a ciphertext does
    not expire. *)
Theorem decrypt_ignores_the_timestamp
    (text1 text2 : string) (body stamp1 stamp2 : Buffer)
    (context : Context) (p : Process) :
  base64_decode text1 = body ++ stamp1 ->
  base64_decode text2 = body ++ stamp2 ->
  length stamp1 = 13%nat -> length stamp2 = 13%nat ->
  (36 <= length body)%nat ->
  decrypt text1 context p = decrypt text2 context p.
Proof.
  intros H1 H2 Hs1 Hs2 Hbody.
  unfold decrypt, try_catch, decrypt_try, bind. cbv zeta.
  rewrite H1, H2.
  destruct (slices_of_body body stamp1 Hs1 Hbody) as (-> & -> & ->).
  destruct (slices_of_body body stamp2 Hs2 Hbody) as (-> & -> & ->).
  reflexivity.
Qed.

End Layout.

(** The ciphertext of the reference runtime with zeros for its timestamp is
    still deciphered. *)
Lemma decrypt_ignores_the_timestamp_witness :
  decrypt (rt:=node) sample_ciphertext plain_context (state_after sample_run) =
  decrypt (rt:=node) (redated sample_ciphertext) plain_context (state_after sample_run) /\
  redated sample_ciphertext <> sample_ciphertext /\
  result (decrypt (rt:=node) (redated sample_ciphertext) plain_context
            (state_after sample_run)) = Ok "[1,2]".
Proof.
  split; [|split; [vm_compute; discriminate | vm_compute; reflexivity]].
  apply (decrypt_ignores_the_timestamp (rt:=node) sample_ciphertext
           (redated sample_ciphertext)
           (take (length (utf8 sample_ciphertext) - 13) (utf8 sample_ciphertext))
           (utf8 "1700000000000") (utf8 "0000000000000") plain_context
           (state_after sample_run));
    vm_compute; first [ reflexivity | lia ].
Defined.


(** A text that [decrypt] returns on the reference runtime. *)
Lemma decrypt_returns_authenticated_JSON_only_witness :
  let q := state_after (checkKeyRotation (rt:=node) (state_after sample_run)) in
  let encryptedData := base64_decode (Runtime:=node) sample_ciphertext in
  let iv2 := slice encryptedData signature_length (Some (signature_length + 16)) in
  let encrypted2 := slice encryptedData (signature_length + 16) (Some (-13)) in
  slice encryptedData 0 (Some signature_length) = SECUREVIBE_SIGNATURE /\
  exists layer2Data opened,
    createDecipheriv_cbc (Runtime:=node) (masterKey (engine q)) iv2 encrypted2
      = Ok layer2Data /\
    let combined1 := reverseSecurevibeTransform layer2Data 1 in
    createDecipher_gcm (Runtime:=node)
      (session_key (rt:=node) (masterKey (engine q)) plain_context
         (Date_now (Runtime:=node) (clockReads q)))
      LAYER1_AAD (slice combined1 16 (Some 32)) (slice combined1 32 None) = Ok opened /\
    "[1,2]" = utf8_decode opened /\
    JSON_parse (Runtime:=node) "[1,2]" = true.
Proof.
  apply (proj1 (decrypt_returns_authenticated_JSON_only (rt:=node) sample_ciphertext
                  plain_context (state_after sample_run) "[1,2]")).
  vm_compute. reflexivity.
Defined.

(** ** The quota of [userRateLimit] *)

Section UserQuota.
Context {rt : Runtime}.

Lemma quota_of_set user m p :
  quota_of user (set_userRequestTracker m p) = m !! user_key user.
Proof. reflexivity. Qed.

(** What a call does for a known user, by the counter it finds. *)
Lemma userRateLimit_run req user p :
  request_of req user ->
  userRateLimit req p =
  let t := Date_now (clockReads p) in
  let put d := set_userRequestTracker (<[ user_key user := d ]> (user_tracker_of p)) in
  match quota_of user p with
  | None =>
      (Ok Next,
       put {| uc_count := 1; uc_firstRequest := t;
              uc_limit := fst (user_limits (isPaid user));
              uc_windowMs := snd (user_limits (isPaid user)) |} (tick p))
  | Some d =>
      if t - uc_firstRequest d >? uc_windowMs d
      then (Ok Next,
            put {| uc_count := 1; uc_firstRequest := t;
                   uc_limit := uc_limit d; uc_windowMs := uc_windowMs d |} (tick p))
      else
        let counted := {| uc_count := uc_count d + 1; uc_firstRequest := uc_firstRequest d;
                          uc_limit := uc_limit d; uc_windowMs := uc_windowMs d |} in
        if uc_count d + 1 >? uc_limit d
        then (Ok (respond_with
                    {| err_config := if isPaid user then USAGE_LIMIT_EXCEEDED
                                     else SUBSCRIPTION_REQUIRED;
                       err_timestamp := Date_now (S (clockReads p)) |}),
              put counted (tick (tick p)))
        else (Ok Next, put counted (tick p))
  end.
Proof.
  intros (apiKey & Hkey & Hnonempty & Hfound).
  unfold userRateLimit, quota_of, user_tracker_of. rewrite Hkey. unfold or_else.
  destruct (decide (apiKey = "")) as [|_]; [done|].
  unfold try_catch, bind at 1, lift. rewrite Hfound.
  unfold get_userRequestTracker, put_userRequestTracker, new_SecureVibeError.
  fold (user_key user).
  destruct p as [e m [u|] c r]; step_through; unfold_state.
  - destruct (u !! user_key user) as [d|]; [|reflexivity].
    destruct (_ >? uc_windowMs d); [reflexivity|].
    destruct (_ >? uc_limit d); [|reflexivity].
    by destruct (isPaid user).
  - rewrite lookup_empty. reflexivity.
Qed.

Lemma quota_rejection user t :
  rejects_with (quota_error user) (quota_status user)
    (respond_with {| err_config := if isPaid user then USAGE_LIMIT_EXCEEDED
                                   else SUBSCRIPTION_REQUIRED;
                     err_timestamp := t |}).
Proof.
  exists {| err_config := if isPaid user then USAGE_LIMIT_EXCEEDED else SUBSCRIPTION_REQUIRED;
            err_timestamp := t |}.
  unfold quota_error, quota_status, respond_with.
  destruct (isPaid user); (split; [reflexivity|]); split; reflexivity.
Qed.

(** After [n] requests of a user in a row, the first of them on a counter
    that did not exist, all within the window of the first and [n] at most
    the limit of the tier. *)
Lemma quota_burst req user p n :
  request_of req user ->
  quota_of user p = None ->
  (1 <= Z.of_nat n <= fst (user_limits (isPaid user))) ->
  (forall i, (i < n)%nat ->
             Date_now (clockReads p + i) - Date_now (clockReads p)
             <= snd (user_limits (isPaid user))) ->
  let q := state_after (times n (userRateLimit req) p) in
  quota_of user q =
    Some {| uc_count := Z.of_nat n; uc_firstRequest := Date_now (clockReads p);
            uc_limit := fst (user_limits (isPaid user));
            uc_windowMs := snd (user_limits (isPaid user)) |} /\
  clockReads q = (clockReads p + n)%nat.
Proof.
  intros Hreq Hnone. induction n as [|n IH]; [lia|].
  intros Hn Hclock. destruct n as [|n].
  - cbv zeta. change (times 1 ?c p) with (ret tt (state_after (c p))).
    rewrite (userRateLimit_run req user p Hreq). cbv zeta. rewrite Hnone.
    unfold ret, state_after. cbn [snd]. split.
    + rewrite quota_of_set, lookup_insert_eq. reflexivity.
    + cbn [clockReads set_userRequestTracker tick]. lia.
  - destruct IH as [Hc Hr]; [lia | intros i Hi; apply Hclock; lia |].
    cbv zeta. rewrite times_last.
    set (q := state_after (times (S n) (userRateLimit req) p)) in *.
    rewrite (userRateLimit_run req user q Hreq). cbv zeta. rewrite Hc.
    cbn [uc_count uc_firstRequest uc_limit uc_windowMs].
    destruct (Z.gtb_spec (Date_now (clockReads q) - Date_now (clockReads p))
                (snd (user_limits (isPaid user)))) as [Hlate|_].
    { rewrite Hr in Hlate. specialize (Hclock (S n)). lia. }
    destruct (Z.gtb_spec (Z.of_nat (S n) + 1) (fst (user_limits (isPaid user))));
      [lia|].
    unfold state_after. cbn [snd]. split.
    + rewrite quota_of_set, lookup_insert_eq. do 2 f_equal. lia.
    + cbn [clockReads set_userRequestTracker tick]. lia.
Qed.

(** X16. The quota of a user whose API key is known. The first request
    creates a counter with the limit of the user's tier at that moment (100
    requests for a free user, 1000 for a paid one, per 15 minutes). When
    [now - firstRequest] exceeds the window the count goes back to 1 and the
    request passes; the limit stays the one stored at creation. Otherwise the
    count goes up by one, and the request passes exactly when the new count
    is at most the stored limit; when it is not, the answer is
    USAGE_LIMIT_EXCEEDED (429) for a paid user and SUBSCRIPTION_REQUIRED (402)
    for a free one. So, from a counter that does not exist yet, the requests
    up to the limit made within the window pass and the next is rejected. *)
Theorem user_quota_boundary (req : Request) (user : User) :
  request_of req user ->
  (forall p,
      quota_of user p = None ->
      let r := userRateLimit req p in
      answer_of r = Some Next /\
      quota_of user (state_after r) =
        Some {| uc_count := 1; uc_firstRequest := Date_now (clockReads p);
                uc_limit := if isPaid user then 1000 else 100;
                uc_windowMs := 900000 |})
  /\
  (forall p d,
      quota_of user p = Some d ->
      Date_now (clockReads p) - uc_firstRequest d > uc_windowMs d ->
      let r := userRateLimit req p in
      answer_of r = Some Next /\
      quota_of user (state_after r) =
        Some {| uc_count := 1; uc_firstRequest := Date_now (clockReads p);
                uc_limit := uc_limit d; uc_windowMs := uc_windowMs d |})
  /\
  (forall p d,
      quota_of user p = Some d ->
      Date_now (clockReads p) - uc_firstRequest d <= uc_windowMs d ->
      let r := userRateLimit req p in
      quota_of user (state_after r) =
        Some {| uc_count := uc_count d + 1; uc_firstRequest := uc_firstRequest d;
                uc_limit := uc_limit d; uc_windowMs := uc_windowMs d |} /\
      (uc_count d + 1 <= uc_limit d -> answer_of r = Some Next) /\
      (uc_count d + 1 > uc_limit d ->
       exists v, answer_of r = Some v /\
                 rejects_with (quota_error user) (quota_status user) v))
  /\
  (forall p n,
      quota_of user p = None ->
      Z.of_nat n <= (if isPaid user then 1000 else 100) ->
      (forall i, (i <= n)%nat ->
                 Date_now (clockReads p + i) - Date_now (clockReads p) <= 900000) ->
      let r := userRateLimit req (state_after (times n (userRateLimit req) p)) in
      (Z.of_nat n < (if isPaid user then 1000 else 100) -> answer_of r = Some Next) /\
      (Z.of_nat n = (if isPaid user then 1000 else 100) ->
       exists v, answer_of r = Some v /\
                 rejects_with (quota_error user) (quota_status user) v)).
Proof.
  intros Hreq.
  assert (fst (user_limits (isPaid user)) = if isPaid user then 1000 else 100) as Hlimit
    by (by destruct (isPaid user)).
  assert (snd (user_limits (isPaid user)) = 900000) as Hwindow
    by (by destruct (isPaid user)).
  split; [|split; [|split]].
  - intros p Hnone r. subst r.
    rewrite (userRateLimit_run req user p Hreq). cbv zeta. rewrite Hnone.
    split; [reflexivity|].
    unfold state_after. cbn [snd].
    by rewrite quota_of_set, lookup_insert_eq, Hlimit, Hwindow.
  - intros p d Hd Hlate r. subst r.
    rewrite (userRateLimit_run req user p Hreq). cbv zeta. rewrite Hd.
    destruct (Z.gtb_spec (Date_now (clockReads p) - uc_firstRequest d) (uc_windowMs d));
      [|lia].
    split; [reflexivity|].
    unfold state_after. cbn [snd]. by rewrite quota_of_set, lookup_insert_eq.
  - intros p d Hd Hin r. subst r.
    rewrite (userRateLimit_run req user p Hreq). cbv zeta. rewrite Hd.
    destruct (Z.gtb_spec (Date_now (clockReads p) - uc_firstRequest d) (uc_windowMs d));
      [lia|].
    destruct (Z.gtb_spec (uc_count d + 1) (uc_limit d)) as [Hover|Hunder];
      unfold state_after; cbn [snd]; rewrite quota_of_set, lookup_insert_eq.
    + split; [reflexivity|]. split; [lia|]. intros _.
      eexists. split; [reflexivity | apply quota_rejection].
    + split; [reflexivity|]. split; [reflexivity | lia].
  - intros p n Hnone Hn Hclock r. subst r.
    destruct n as [|n].
    + simpl. rewrite (userRateLimit_run req user p Hreq). cbv zeta. rewrite Hnone.
      split; [reflexivity|]. destruct (isPaid user); lia.
    + destruct (quota_burst req user p (S n) Hreq Hnone) as [Hc Hr].
      { rewrite Hlimit. lia. }
      { intros i Hi. rewrite Hwindow. apply Hclock. lia. }
      set (q := state_after (times (S n) (userRateLimit req) p)) in *.
      rewrite (userRateLimit_run req user q Hreq). cbv zeta. rewrite Hc.
      cbn [uc_count uc_firstRequest uc_limit uc_windowMs].
      rewrite Hlimit, Hwindow.
      destruct (Z.gtb_spec (Date_now (clockReads q) - Date_now (clockReads p)) 900000)
        as [Hlate|_].
      { rewrite Hr in Hlate. specialize (Hclock (S n)). lia. }
      destruct (Z.gtb_spec (Z.of_nat (S n) + 1) (if isPaid user then 1000 else 100))
        as [Hover|Hunder].
      * split; [lia|]. intros _.
        eexists. split; [reflexivity | apply quota_rejection].
      * split; [reflexivity | lia].
Qed.

End UserQuota.

(** A free user on the reference runtime, the clock standing still: the
    hundredth request passes and the next is answered with 402. *)
Lemma user_quota_boundary_witness :
  let req := magic_link_request (Some "key-of-alice") None in
  let call := userRateLimit (rt:=node_with_users) req in
  let p := startup (rt:=node_with_users) in
  answer_of (call (state_after (times 99 call p))) = Some Next /\
  exists v, answer_of (call (state_after (times 100 call p))) = Some v /\
            rejects_with (rt:=node_with_users) "SUBSCRIPTION_REQUIRED" 402 v.
Proof.
  intros req call p.
  assert (request_of (rt:=node_with_users) req alice) as Hreq.
  { exists "key-of-alice". split; [reflexivity|]. split; [discriminate | reflexivity]. }
  pose proof (user_quota_boundary (rt:=node_with_users) req alice Hreq)
    as (_ & _ & _ & Hburst).
  split.
  - apply (Hburst p 99%nat); [vm_compute; reflexivity | simpl; lia | | simpl; lia].
    intros i _. cbn. unfold still_clock. lia.
  - apply (Hburst p 100%nat); [vm_compute; reflexivity | simpl; lia | | reflexivity].
    intros i _. cbn. unfold still_clock. lia.
Defined.

(** ** [verifyRequestSignature] *)

Section RequestSignature.
Context {rt : Runtime} {sg : Signing}.

Lemma or_else_present header value :
  or_else header None = Some value <-> present header value.
Proof.
  unfold or_else, present. destruct header as [s|]; [|split; [done | by intros [? _]]].
  destruct (decide (s = "")) as [->|Hs]; split.
  - done.
  - intros [[= <-] H]. done.
  - intros [= <-]. done.
  - by intros [-> _].
Qed.

Lemma verifyRequestSignature_signed req signature timestamp apiKey p :
  signed_with req signature timestamp apiKey ->
  verifyRequestSignature req p =
  if expired (Date_now (clockReads p)) (parseInt timestamp)
  then (Ok (Unauthorized "Request timestamp expired" None), tick p)
  else
    match User_findOne apiKey with
    | Throw message => (Ok (Errored message), tick p)
    | Ok None => (Ok (Unauthorized "Invalid API key" None), tick p)
    | Ok (Some user) =>
        if bool_decide
             (signature =
              createHmac_sha256_hex apiKey
                (timestamp +:+ stringify_or_empty (req_body (request req))))
        then (Ok (Verified user), tick p)
        else (Ok (Unauthorized "Invalid request signature"
                    (Some (user,
                           {| log_action := "INVALID_SIGNATURE";
                              log_ipAddress := req_ip (request req);
                              log_userAgent := req_userAgent (request req);
                              log_details := "Request signature verification failed" |}))),
              tick p)
    end.
Proof.
  intros (Hs & Ht & Hk). apply or_else_present in Hs, Ht, Hk.
  unfold verifyRequestSignature. rewrite Hs, Ht, Hk.
  unfold bind at 1, now. destruct (expired _ _); [reflexivity|].
  unfold try_catch, bind, lift.
  destruct (User_findOne apiKey) as [[user|]|message]; [|reflexivity|reflexivity].
  cbv zeta. by destruct (bool_decide _).
Qed.

(** X17. [verifyRequestSignature] sets [req.verifiedUser] only for a request
    that carries the three headers, whose timestamp is not more than five
    minutes from the clock, whose API key belongs to that user, and whose
    signature is the HMAC-SHA256, keyed by the API key, of the timestamp
    followed by the JSON text of the body. A request that lacks one of the
    headers, or has it empty, passes unverified, without a clock reading or a
    lookup. A timestamp more than five minutes off is answered with 401
    without a lookup. A timestamp that [parseInt] reads as NaN is never
    answered as expired: the check of freshness does not apply to it. *)
Theorem verifyRequestSignature_accepts_only_signed_requests (req : SignedRequest) :
  (forall p q user,
      verifyRequestSignature req p = (Ok (Verified user), q) ->
      q = tick p /\
      exists signature timestamp apiKey,
        signed_with req signature timestamp apiKey /\
        expired (Date_now (clockReads p)) (parseInt timestamp) = false /\
        User_findOne apiKey = Ok (Some user) /\
        signature =
          createHmac_sha256_hex apiKey
            (timestamp +:+ stringify_or_empty (req_body (request req))))
  /\
  (forall p, unsigned req -> verifyRequestSignature req p = (Ok Unverified, p))
  /\
  (forall p signature timestamp apiKey t,
      signed_with req signature timestamp apiKey ->
      parseInt timestamp = Integer t ->
      Z.abs (Date_now (clockReads p) - t) > 300000 ->
      verifyRequestSignature req p
        = (Ok (Unauthorized "Request timestamp expired" None), tick p))
  /\
  (forall p signature timestamp apiKey,
      signed_with req signature timestamp apiKey ->
      parseInt timestamp = NaN ->
      result (verifyRequestSignature req p)
        <> Ok (Unauthorized "Request timestamp expired" None)).
Proof.
  split; [|split; [|split]].
  - intros p q user H.
    destruct (or_else (x_request_signature req) None) as [signature|] eqn:Hs.
    2:{ unfold verifyRequestSignature in H. rewrite Hs in H. discriminate. }
    destruct (or_else (x_timestamp req) None) as [timestamp|] eqn:Ht.
    2:{ unfold verifyRequestSignature in H. rewrite Hs, Ht in H. discriminate. }
    destruct (or_else (req_apiKey (request req)) None) as [apiKey|] eqn:Hk.
    2:{ unfold verifyRequestSignature in H. rewrite Hs, Ht, Hk in H. discriminate. }
    apply or_else_present in Hs, Ht, Hk.
    assert (signed_with req signature timestamp apiKey) as Hsigned by done.
    rewrite (verifyRequestSignature_signed req _ _ _ p Hsigned) in H.
    destruct (expired _ _) eqn:Hfresh; [discriminate|].
    destruct (User_findOne apiKey) as [[found|]|message] eqn:Hfound; [|discriminate..].
    destruct (bool_decide _) eqn:Hsame; [|discriminate].
    injection H as <- <-. apply bool_decide_eq_true_1 in Hsame.
    split; [reflexivity|]. exists signature, timestamp, apiKey. done.
  - intros p H. unfold verifyRequestSignature, unsigned in *.
    destruct (or_else (x_request_signature req) None); [|reflexivity].
    destruct (or_else (x_timestamp req) None); [|reflexivity].
    destruct (or_else (req_apiKey (request req)) None); [|reflexivity].
    by destruct H as [|[|]].
  - intros p signature timestamp apiKey t Hsigned Hparsed Hoff.
    rewrite (verifyRequestSignature_signed req _ _ _ p Hsigned), Hparsed.
    unfold expired.
    destruct (Z.gtb_spec (Z.abs (Date_now (clockReads p) - t)) (5 * 60 * 1000)); [done | lia].
  - intros p signature timestamp apiKey Hsigned Hparsed.
    rewrite (verifyRequestSignature_signed req _ _ _ p Hsigned), Hparsed.
    unfold expired, result.
    destruct (User_findOne apiKey) as [[found|]|message]; [|done..].
    by destruct (bool_decide _).
Qed.

End RequestSignature.

(** ** The matcher finds only matches *)

Lemma Matches_Nothing_inv s : ~ Matches Nothing s.
Proof. intros H. inversion H. Qed.

Lemma Matches_Epsilon_inv s : Matches Epsilon s -> s = "".
Proof. intros H. by inversion H. Qed.

Lemma Matches_Class_inv accepts s :
  Matches (Class accepts) s -> exists c, s = String c "" /\ accepts c = true.
Proof. intros H. inversion H; subst. eauto. Qed.

Lemma Matches_Seq_inv r1 r2 s :
  Matches (Seq r1 r2) s -> exists s1 s2, s = s1 +:+ s2 /\ Matches r1 s1 /\ Matches r2 s2.
Proof. intros H. inversion H; subst. eauto. Qed.

Lemma Matches_Alt_inv r1 r2 s : Matches (Alt r1 r2) s -> Matches r1 s \/ Matches r2 s.
Proof. intros H. inversion H; subst; eauto. Qed.

Lemma nullable_sound r : nullable r = true -> Matches r "".
Proof.
  induction r as [| |accepts|r1 IH1 r2 IH2|r1 IH1 r2 IH2|r IH]; cbn [nullable]; intros H.
  - discriminate.
  - constructor.
  - discriminate.
  - apply andb_true_iff in H as [H1 H2].
    change "" with ("" +:+ ""). constructor; auto.
  - apply orb_true_iff in H as [H|H]; [apply Matches_Alt_l | apply Matches_Alt_r]; auto.
  - constructor.
Qed.

Lemma derivative_sound c r : forall s, Matches (derivative c r) s -> Matches r (String c s).
Proof.
  induction r as [| |accepts|r1 IH1 r2 IH2|r1 IH1 r2 IH2|r IH]; cbn [derivative]; intros s H.
  - by apply Matches_Nothing_inv in H.
  - by apply Matches_Nothing_inv in H.
  - destruct (accepts c) eqn:Hc; [|by apply Matches_Nothing_inv in H].
    apply Matches_Epsilon_inv in H as ->. by constructor.
  - assert (forall s, Matches (Seq (derivative c r1) r2) s -> Matches (Seq r1 r2) (String c s))
      as Hseq.
    { intros s' H'. apply Matches_Seq_inv in H' as (s1 & s2 & -> & H1 & H2).
      change (String c (s1 +:+ s2)) with (String c s1 +:+ s2). constructor; auto. }
    destruct (nullable r1) eqn:Hn; [|by apply Hseq].
    apply Matches_Alt_inv in H as [H|H]; [by apply Hseq|].
    change (String c s) with ("" +:+ String c s).
    constructor; [by apply nullable_sound | auto].
  - apply Matches_Alt_inv in H as [H|H]; [apply Matches_Alt_l | apply Matches_Alt_r]; auto.
  - apply Matches_Seq_inv in H as (s1 & s2 & -> & H1 & H2).
    change (String c (s1 +:+ s2)) with (String c s1 +:+ s2).
    apply Matches_Star_cons; auto.
Qed.

Lemma matches_sound r s : matches r s = true -> Matches r s.
Proof.
  revert r. induction s as [|c s IH]; intros r; cbn [matches]; intros H.
  - by apply nullable_sound.
  - by apply derivative_sound, IH.
Qed.

Lemma test_sound pattern text :
  test pattern text = true -> exists part, Matches pattern part /\ contains part text.
Proof.
  intros H. apply matches_sound in H.
  apply Matches_Seq_inv in H as (before & rest & -> & _ & H).
  apply Matches_Seq_inv in H as (part & after & -> & H & _).
  exists part. split; [exact H|]. by exists before, after.
Qed.

Lemma ascii_eqb_eq a b : Ascii.eqb a b = true -> a = b.
Proof. apply Ascii.eqb_eq. Qed.

Lemma literal_Matches s : Matches (literal s) s.
Proof.
  induction s as [|c s IH]; cbn [literal]; [constructor|].
  change (String c s) with (String c "" +:+ s).
  constructor; [|exact IH]. constructor. apply Ascii.eqb_refl.
Qed.

Lemma literal_Matches_inv s part : Matches (literal s) part -> part = s.
Proof.
  revert part. induction s as [|c s IH]; cbn [literal]; intros part H.
  - by apply Matches_Epsilon_inv.
  - apply Matches_Seq_inv in H as (s1 & s2 & -> & H1 & H2).
    apply Matches_Class_inv in H1 as (c' & -> & Hc). apply ascii_eqb_eq in Hc as <-.
    apply IH in H2 as ->. reflexivity.
Qed.

Lemma literal_i_Matches_inv s part : Matches (literal_i s) part -> same_letters s part = true.
Proof.
  revert part. induction s as [|c s IH]; cbn [literal_i]; intros part H.
  - by apply Matches_Epsilon_inv in H as ->.
  - apply Matches_Seq_inv in H as (s1 & s2 & -> & H1 & H2).
    apply Matches_Class_inv in H1 as (c' & -> & Hc).
    cbn [String.append same_letters]. by rewrite Hc, (IH _ H2).
Qed.

Lemma on_one_line_append a b :
  on_one_line (a +:+ b) = on_one_line a && on_one_line b.
Proof.
  induction a as [|c a IH]; cbn [String.append on_one_line]; [done|].
  by rewrite IH, andb_assoc.
Qed.

Lemma byte_but_Matches_inv excluded s :
  Matches (byte_but excluded) s -> on_one_line s = true.
Proof.
  intros H. apply Matches_Class_inv in H as (c & -> & Hc).
  apply andb_true_iff in Hc as [Hc _].
  cbn [on_one_line]. unfold line_break in Hc. by rewrite Hc.
Qed.

Lemma chr_Matches_inv c s : Matches (chr c) s -> s = String c "".
Proof.
  intros H. apply Matches_Class_inv in H as (c' & -> & Hc).
  by apply ascii_eqb_eq in Hc as <-.
Qed.

Lemma dot_Matches_inv s : Matches dot s -> on_one_line s = true.
Proof.
  intros H. apply Matches_Alt_inv in H as [H|H]; [by eapply byte_but_Matches_inv|].
  apply Matches_Seq_inv in H as (s1 & s2 & -> & H1 & H2).
  apply chr_Matches_inv in H1 as ->. rewrite on_one_line_append.
  apply andb_true_iff. split; [reflexivity|].
  apply Matches_Alt_inv in H2 as [H2|H2]; [by eapply byte_but_Matches_inv|].
  apply Matches_Seq_inv in H2 as (s3 & s4 & -> & H3 & H4).
  apply chr_Matches_inv in H3 as ->. rewrite on_one_line_append.
  apply andb_true_iff. split; [reflexivity | by eapply byte_but_Matches_inv].
Qed.

Lemma star_dot_Matches_inv gap : Matches (Star dot) gap -> on_one_line gap = true.
Proof.
  intros H. remember (Star dot) as r eqn:Hr.
  induction H as [| | | | |r'|r' s1 s2 H1 _ H2 IH2]; try discriminate; [done|].
  injection Hr as ->. rewrite on_one_line_append, (IH2 eq_refl), andb_true_r.
  by apply dot_Matches_inv.
Qed.

Lemma star_dot_Matches gap :
  on_one_line gap = true -> ascii_only gap = true -> Matches (Star dot) gap.
Proof.
  induction gap as [|c gap IH]; cbn [on_one_line ascii_only]; intros H Hascii;
    [constructor|].
  apply andb_true_iff in H as [Hc Hgap].
  apply andb_true_iff in Hascii as [Hlow Hascii].
  change (String c gap) with (String c "" +:+ gap).
  apply Matches_Star_cons; [|auto].
  apply Matches_Alt_l. constructor.
  unfold line_break. rewrite Hc. cbn [andb existsb]. rewrite orb_false_r.
  apply negb_true_iff, N.eqb_neq. apply N.ltb_lt in Hlow. lia.
Qed.

Lemma existsb_texts (f : string -> bool) req :
  f (req_url req) || f (stringify_or_empty (req_body req)) ||
  f (stringify_or_empty (req_query req)) = true <->
  exists text, In text (texts_of req) /\ f text = true.
Proof.
  unfold texts_of. rewrite !orb_true_iff. split.
  - intros [[H|H]|H]; eexists; (split; [|exact H]); cbn; auto.
  - intros (text & Hin & H). cbn in Hin.
    destruct Hin as [<-|[<-|[<-|[]]]]; auto.
Qed.

(** X18. What [detectSuspiciousActivity] flags. A request is flagged only if
    its URL, the JSON text of its body or the JSON text of its query has one
    of five signatures in it: two dots; [<script], [eval(] or [base64] in any
    case; or [union] and later on the same line [select], in any case. And a
    request with one of them is flagged, the last one provided that what
    stands between [union] and [select] is ASCII. *)
Theorem isSuspicious_means_a_signature (req : Request) :
  (isSuspicious req = true ->
   exists text, In text (texts_of req) /\ signature_in on_one_line text) /\
  ((exists text, In text (texts_of req) /\
                 signature_in (fun gap => on_one_line gap && ascii_only gap) text) ->
   isSuspicious req = true).
Proof.
  unfold isSuspicious. split.
  - intros H. apply existsb_exists in H as (pattern & Hpattern & H).
    apply (existsb_texts (test pattern) req) in H as (text & Hin & H).
    exists text. split; [exact Hin|].
    apply test_sound in H as (part & Hpart & Hcontains).
    unfold suspiciousPatterns_list in Hpattern. cbn [In] in Hpattern.
    destruct Hpattern as [<-|[<-|[<-|[<-|[<-|[]]]]]].
    + left. by apply literal_Matches_inv in Hpart as ->.
    + right; left. exists part. split; [by apply literal_i_Matches_inv | done].
    + right; right; left.
      apply Matches_Seq_inv in Hpart as (u & rest & -> & Hu & Hrest).
      apply Matches_Seq_inv in Hrest as (gap & sel & -> & Hgap & Hsel).
      exists u, gap, sel.
      split; [by apply literal_i_Matches_inv|]. split; [by apply literal_i_Matches_inv|].
      split; [by apply star_dot_Matches_inv | done].
    + right; right; right; left. exists part. split; [by apply literal_i_Matches_inv | done].
    + right; right; right; right. exists part. split; [by apply literal_i_Matches_inv | done].
  - intros (text & Hin & H).
    assert (exists pattern part,
               In pattern suspiciousPatterns_list /\ Matches pattern part /\
               contains part text)
      as (pattern & part & Hpattern & Hpart & Hcontains).
    { unfold suspiciousPatterns_list. cbn [In].
      destruct H as [H|[(part & Hpart & H)|[(u & gap & sel & Hu & Hsel & Hgap & H)|
                    [(part & Hpart & H)|(part & Hpart & H)]]]].
      - exists (literal ".."), "..". split; [auto|]. split; [apply literal_Matches | done].
      - exists (literal_i "<script"), part. split; [auto|].
        split; [by apply literal_i_Matches | done].
      - apply andb_true_iff in Hgap as [Hline Hascii].
        eexists _, (u +:+ gap +:+ sel). split; [do 2 right; left; reflexivity|].
        split; [|done].
        constructor; [by apply literal_i_Matches|].
        constructor; [by apply star_dot_Matches | by apply literal_i_Matches].
      - exists (literal_i "eval("), part. split; [auto 6|].
        split; [by apply literal_i_Matches | done].
      - exists (literal_i "base64"), part. split; [auto 6|].
        split; [by apply literal_i_Matches | done]. }
    apply existsb_exists. exists pattern. split; [exact Hpattern|].
    apply (existsb_texts (test pattern) req). exists text. split; [exact Hin|].
    by eapply test_complete.
Qed.

(** ** The error handler *)

Section ErrorHandler.
Context {rt : Runtime}.

(** X19. No function of [ErrorFactory] throws: each names an entry of the
    table. For the error it builds, [errorMiddleware] sends the status that
    is also the code of the body, a status between 400 and 599, with the
    message of the table; it sets the header Retry-After, to 60, for
    [rateLimitExceeded] and for no other; and [log] writes it with
    [console.error] when the status is 500 or more and with [console.warn]
    otherwise, never with [console.info]. *)
Theorem factory_errors_are_answered_consistently
    (f : ErrorFactory) (metadata : JValue) (req : HandledRequest) (p : Process) :
  exists e config status retry_after body,
    entry_of (errorType_of f) ERRORS_entries = Some config /\
    ErrorFactory_new f metadata p = (Ok e, tick p) /\
    errorMiddleware (Handled e) req (tick p) =
      (Ok (Some (SecureVibeError_log e (Some req)),
           Reply_error status retry_after body), tick p) /\
    status = code config /\ resp_code body = code config /\
    400 <= code config < 600 /\
    resp_message body = message config /\
    resp_retryAfter body = retry_after /\
    ((retry_after = Some 60 /\ f = rateLimitExceeded) \/
     (retry_after = None /\ f <> rateLimitExceeded)) /\
    fst (SecureVibeError_log e (Some req)) =
      (if code config >=? 500 then console_error else console_warn).
Proof.
  destruct f; do 5 eexists;
    (split; [reflexivity|]); (split; [reflexivity|]); (split; [reflexivity|]);
    (split; [reflexivity|]); (split; [reflexivity|]); (split; [cbn; lia|]);
    (split; [reflexivity|]);
    (split; [reflexivity|]); (split; [|reflexivity]);
    first [ by left | by right ].
Qed.

(** X20. What an answer discloses. For a [SecureVibeError] the details are
    in the body exactly when the process does not run in production or the
    request has the header [x-debug: true], so in production any client that
    sends the header gets them, custom details included. For any other
    error the message is the fixed one, the status is 500, and [err.message]
    and [err.stack] are in the body exactly outside production, whatever
    headers the request has. *)
Theorem details_are_disclosed_outside_production_or_on_x_debug
    (req : HandledRequest) (p : Process) :
  (forall e, exists retry_after body,
      errorMiddleware (Handled e) req p =
        (Ok (Some (SecureVibeError_log e (Some req)),
             Reply_error (code (err_config (error e))) retry_after body), p) /\
      resp_details body =
        (if production && negb (bool_decide (x_debug req = Some "true"))
         then None else Some (details (err_config (error e)))))
  /\
  (forall message stack, exists body,
      errorMiddleware (Unhandled message stack) req p
        = (Ok (None, Reply_plain 500 body), tick p) /\
      pr_message body = "An unexpected error occurred" /\
      pr_details body = (if production then None else message) /\
      pr_stack body = (if production then None else stack)).
Proof.
  split.
  - intros e. do 2 eexists. split; [reflexivity|].
    unfold toResponse, production. cbn [resp_details].
    destruct (bool_decide (env_NODE_ENV = Some "production")),
             (bool_decide (x_debug req = Some "true")); reflexivity.
  - intros message stack. eexists. split; [reflexivity|].
    cbn [pr_message pr_details pr_stack]. by destruct production.
Qed.

End ErrorHandler.

Lemma sensitive_spec key :
  sensitive key = true <-> key = "password" \/ key = "token" \/ key = "refreshToken".
Proof.
  unfold sensitive. rewrite !orb_true_iff, !bool_decide_eq_true. tauto.
Qed.

Lemma safe_fields_spec (fields : list (string * JValue)) key value :
  In (key, value) (filter (fun kv => negb (sensitive (fst kv))) fields) <->
  In (key, value) fields /\ sensitive key = false.
Proof.
  rewrite <- !list_elem_of_In, list_elem_of_filter. cbn [fst].
  destruct (sensitive key); cbn; intuition discriminate.
Qed.

(** X21. What [log(req)] keeps of the body of a request. A body that is an
    object or an array is logged as an object without the keys [password],
    [token] and [refreshToken]; every other property is logged with the
    value it has, in the same order. The values are not looked into: a
    password inside a nested object is logged. A body that is a string, a
    number, a boolean or null is not logged. *)
Theorem logged_body_has_no_top_level_credentials
    (e : ErrorObject) (req : HandledRequest) :
  exists entry,
    ld_request (snd (SecureVibeError_log e (Some req))) = Some entry /\
    match req_body (handled req) with
    | Some body =>
        if is_object body then
          exists fields,
            rl_body entry = Some (JObject fields) /\
            (forall key value, In (key, value) fields ->
               key <> "password" /\ key <> "token" /\ key <> "refreshToken") /\
            (forall key value,
               In (key, value) (spread body) ->
               key <> "password" -> key <> "token" -> key <> "refreshToken" ->
               In (key, value) fields) /\
            sublist fields (spread body)
        else rl_body entry = None
    | None => rl_body entry = None
    end.
Proof.
  eexists. split; [reflexivity|]. cbn [rl_body SecureVibeError_log snd ld_request].
  destruct (req_body (handled req)) as [body|]; [|reflexivity].
  assert (forall key, sensitive key = false <->
                      key <> "password" /\ key <> "token" /\ key <> "refreshToken") as Hkey.
  { intros key. pose proof (sensitive_spec key) as Hs.
    destruct (sensitive key); split; intros H; try done.
    - exfalso. destruct Hs as [Hs _]. specialize (Hs eq_refl). tauto.
    - split; [|split]; intros ->; destruct Hs as [_ Hs]; discriminate Hs; auto. }
  assert (is_object body = true ->
          exists fields,
            Some (safeBody body) = Some (JObject fields) /\
            (forall key value, In (key, value) fields ->
               key <> "password" /\ key <> "token" /\ key <> "refreshToken") /\
            (forall key value,
               In (key, value) (spread body) ->
               key <> "password" -> key <> "token" -> key <> "refreshToken" ->
               In (key, value) fields) /\
            sublist fields (spread body)) as Hsafe.
  { intros _. eexists. split; [reflexivity|]. split; [|split].
    - intros key value Hin. apply safe_fields_spec in Hin as [_ Hin]. by apply Hkey.
    - intros key value Hin H1 H2 H3. apply safe_fields_spec. split; [done|]. by apply Hkey.
    - apply sublist_filter. }
  destruct body as [|b|n|s|items|fields]; cbn [is_object falsy negb andb] in *;
    [reflexivity | by destruct b | by destruct n | by destruct s | by apply Hsafe..].
Qed.

(** ** The security score *)

Section SecurityScore.
Context {rt : Runtime}.

Lemma filter_since_run days logs p :
  exists kept,
    filter_since days logs p =
    (Ok kept,
     {| engine := engine p; requestTracker := requestTracker p;
        userRequestTracker := userRequestTracker p;
        clockReads := (clockReads p + length logs)%nat;
        randomDraws := randomDraws p |}).
Proof.
  revert p. induction logs as [|log rest IH]; intros p; cbn [filter_since length].
  - exists []. unfold ret. destruct p. cbn. do 2 f_equal. lia.
  - unfold bind at 1, now.
    destruct (IH (tick p)) as (kept & Hkept).
    unfold bind, ret. rewrite Hkept. eexists. f_equal.
    cbn [tick engine requestTracker userRequestTracker clockReads randomDraws].
    f_equal. lia.
Qed.

(** X22. [calculateSecurityScore] returns a score between 20 and 100 for
    every user and every clock. The lower bound of 0 in the code is never
    reached: the deductions stop at 30 below the base of 50. The call reads
    the clock once for every entry of the log of the user and changes nothing
    else. *)
Theorem security_score_is_between_20_and_100 (user : Account) (p : Process) :
  exists score,
    calculateSecurityScore user p =
    (Ok score,
     {| engine := engine p; requestTracker := requestTracker p;
        userRequestTracker := userRequestTracker p;
        clockReads := (clockReads p + log_count user)%nat;
        randomDraws := randomDraws p |}) /\
    20 <= score <= 100.
Proof.
  unfold calculateSecurityScore, log_count. cbv zeta.
  assert (exists recent,
             match acc_securityLogs user with
             | Some logs => filter_since 30 logs
             | None => ret []
             end p =
             (Ok recent,
              {| engine := engine p; requestTracker := requestTracker p;
                 userRequestTracker := userRequestTracker p;
                 clockReads := (clockReads p +
                                match acc_securityLogs user with
                                | Some logs => length logs
                                | None => 0
                                end)%nat;
                 randomDraws := randomDraws p |})) as (recent & Hrecent).
  { destruct (acc_securityLogs user) as [logs|]; [apply filter_since_run|].
    exists []. unfold ret. destruct p. cbn. do 2 f_equal. lia. }
  unfold bind. rewrite Hrecent. unfold ret. eexists. split; [reflexivity|].
  repeat match goal with |- context [if ?b then _ else _] => destruct b end.
  all: destruct (acc_devices user); lia.
Qed.

End SecurityScore.

(** ** Bursts of requests *)

Section Bursts.
Context {rt : Runtime}.




End Bursts.


(** ** The chain of security middleware *)

Section SecurityChain.
Context {rt : Runtime}.

Lemma detectSuspiciousActivity_total req p :
  exists v,
    detectSuspiciousActivity req p
      = (Ok (isSuspicious req, v), state_after (detectSuspiciousActivity req p)) /\
    userRequestTracker (state_after (detectSuspiciousActivity req p)) = userRequestTracker p.
Proof.
  rewrite detectSuspiciousActivity_run. cbv zeta.
  destruct (counter_of req p) as [d|]; [|by eexists].
  destruct (_ >? 60000); [by eexists|].
  destruct (_ >? 30); by eexists.
Qed.

Lemma userRateLimit_total req p :
  exists v, userRateLimit req p = (Ok v, state_after (userRateLimit req p)).
Proof.
  destruct (or_else (req_apiKey req) None) as [apiKey|] eqn:Hkey.
  2:{ unfold userRateLimit. rewrite Hkey. by eexists. }
  destruct (User_findOne apiKey) as [[user|]|message] eqn:Hfound.
  - assert (request_of req user) as Hreq.
    { exists apiKey. unfold or_else in Hkey.
      destruct (req_apiKey req) as [s|]; [|done].
      destruct (decide (s = "")); [done|]. by injection Hkey as ->. }
    rewrite (userRateLimit_run req user p Hreq). cbv zeta.
    destruct (quota_of user p) as [d|]; [|by eexists].
    destruct (_ >? uc_windowMs d); [by eexists|].
    destruct (_ >? uc_limit d); by eexists.
  - unfold userRateLimit. rewrite Hkey. unfold try_catch, bind, lift. rewrite Hfound.
    by eexists.
  - unfold userRateLimit. rewrite Hkey. unfold try_catch, bind, lift. rewrite Hfound.
    by eexists.
Qed.

(** X24. The chain [detectSuspiciousActivity], [userRateLimit],
    [performanceMonitor] never throws, whatever the database does, and never
    touches the encryption engine. It lets a request through exactly when
    the first two do, the second run in the state the first leaves. When
    [detectSuspiciousActivity] answers with 429, [userRateLimit] does not
    run: the request is not counted against the quota of the user. *)
Theorem security_middleware_stops_at_the_first_answer (req : Request) (p : Process) :
  let q1 := state_after (detectSuspiciousActivity req p) in
  let q2 := state_after (userRateLimit req q1) in
  exists v,
    result (security_middleware req p) = Ok v /\
    engine (state_after (security_middleware req p)) = engine p /\
    (v = Next <->
     verdict_of (detectSuspiciousActivity req p) = Some Next /\
     answer_of (userRateLimit req q1) = Some Next) /\
    (forall status body,
        verdict_of (detectSuspiciousActivity req p) = Some (Respond status body) ->
        security_middleware req p = (Ok (Respond status body), q1) /\
        userRequestTracker q1 = userRequestTracker p) /\
    (verdict_of (detectSuspiciousActivity req p) = Some Next ->
     forall status body,
       answer_of (userRateLimit req q1) = Some (Respond status body) ->
       security_middleware req p = (Ok (Respond status body), q2)).
Proof.
  intros q1 q2.
  pose proof (detectSuspiciousActivity_same_engine req p) as Hengine1.
  pose proof (userRateLimit_same_engine req q1) as Hengine2.
  unfold same_engine in Hengine1, Hengine2. fold q1 in Hengine1. fold q2 in Hengine2.
  destruct (detectSuspiciousActivity_total req p) as (v1 & Hrun1 & Htracker).
  destruct (userRateLimit_total req q1) as (v2 & Hrun2).
  fold q1 in Hrun1, Htracker. fold q2 in Hrun2.
  assert (security_middleware req p =
          match v1 with
          | Next => match v2 with
                    | Next => (Ok Next, tick q2)
                    | Respond _ _ => (Ok v2, q2)
                    end
          | Respond _ _ => (Ok v1, q1)
          end) as Hchain.
  { unfold security_middleware, app_use, performanceMonitor, bind, ret, now.
    rewrite Hrun1. cbn [snd]. destruct v1; [|reflexivity].
    rewrite Hrun2. by destruct v2. }
  rewrite Hchain. unfold verdict_of, answer_of. rewrite Hrun1, Hrun2. cbn [fst].
  destruct v1 as [|status1 body1]; [destruct v2 as [|status2 body2]|].
  - exists Next. cbn [result state_after fst snd engine tick].
    split; [done|]. split; [congruence|]. split; [done|].
    split; [by intros ? ? [=]|]. intros _ ? ? [=].
  - exists (Respond status2 body2). cbn [result state_after fst snd].
    split; [done|]. split; [congruence|]. split; [by split; [|intros [_ [=]]]|].
    split; [by intros ? ? [=]|]. by intros _ ? ? [= -> ->].
  - exists (Respond status1 body1). cbn [result state_after fst snd].
    split; [done|]. split; [done|]. split; [by split; [|intros [[=] _]]|].
    split; [by intros ? ? [= -> ->]|]. by intros [=].
Qed.

End SecurityChain.

(** ** The outcome of a call and the log agree *)

Section OutcomeAndLog.
Context {rt : Runtime}.

Lemma encrypt_try_Ok_log plainText context p encryptedText q :
  encrypt_try plainText context p = (Ok encryptedText, q) ->
  exists t level,
    last (securityLog (engine q))
      = Some (CRYPTO_EVENT t ENCRYPTION "SUCCESS" context None level).
Proof.
  unfold encrypt_try, bind. rewrite checkKeyRotation_run, generateSessionKey_run.
  destruct (detectAttackPattern_run context (tick (state_after (checkKeyRotation p))))
    as [flagged ->].
  destruct flagged.
  { rewrite triggerSecurityResponse_run. unfold throw. discriminate. }
  unfold randomBytes, lift, gets, now.
  destruct (createCipher_gcm _ _ _) as [[encrypted1 authTag1]|e]; [|discriminate].
  destruct (createCipheriv_cbc _ _ _) as [encrypted2|e]; [|discriminate].
  rewrite logEncryptionEvent_run. unfold ret. intros [= _ <-].
  cbn [engine with_engine securityLog set_securityLog].
  do 2 eexists. apply capped_last.
Qed.

Lemma decrypt_try_Ok_log encryptedText context p text q :
  decrypt_try encryptedText context p = (Ok text, q) ->
  exists t level,
    last (securityLog (engine q))
      = Some (CRYPTO_EVENT t DECRYPTION "SUCCESS" context None level).
Proof.
  unfold decrypt_try, bind. rewrite checkKeyRotation_run. cbv zeta.
  destruct (negb _).
  { rewrite triggerSecurityResponse_run. unfold throw. discriminate. }
  unfold gets, lift.
  destruct (createDecipheriv_cbc _ _ _) as [layer2Data|]; [|discriminate].
  rewrite generateSessionKey_run.
  destruct (createDecipher_gcm _ _ _ _) as [opened|]; [|discriminate].
  destruct (detectDecryptionAnomaly _ _).
  { rewrite triggerSecurityResponse_run. unfold throw. discriminate. }
  rewrite logDecryptionEvent_run. unfold ret. intros [= _ <-].
  cbn [engine with_engine securityLog set_securityLog].
  do 2 eexists. apply last_snoc.
Qed.

(** X25. The outcome of a call and the last entry of the log always agree.
    [encrypt] either returns a text and leaves an ENCRYPTION entry with the
    status SUCCESS and no error as the last entry of the log, or throws
    ENCRYPTION_FAILED and leaves an ENCRYPTION entry with the status FAILED
    and the cause; it throws no other error. The same holds of [decrypt],
    with DECRYPTION entries and DECRYPTION_FAILED. Each entry carries the
    context of the call. *)
Theorem outcome_and_log_agree (text : string) (context : Context) (p : Process) :
  (let r := encrypt text context p in
   (exists encryptedText t level,
       result r = Ok encryptedText /\
       last (securityLog (engine (state_after r)))
         = Some (CRYPTO_EVENT t ENCRYPTION "SUCCESS" context None level)) \/
   (exists cause t level,
       result r = Throw "ENCRYPTION_FAILED" /\
       last (securityLog (engine (state_after r)))
         = Some (CRYPTO_EVENT t ENCRYPTION "FAILED" context (Some cause) level)))
  /\
  (let r := decrypt text context p in
   (exists decrypted t level,
       result r = Ok decrypted /\
       last (securityLog (engine (state_after r)))
         = Some (CRYPTO_EVENT t DECRYPTION "SUCCESS" context None level)) \/
   (exists cause t level,
       result r = Throw "DECRYPTION_FAILED" /\
       last (securityLog (engine (state_after r)))
         = Some (CRYPTO_EVENT t DECRYPTION "FAILED" context (Some cause) level))).
Proof.
  split; cbv zeta.
  - unfold encrypt, try_catch.
    destruct (encrypt_try text context p) as [[encryptedText|cause] q] eqn:Htry.
    + left. destruct (encrypt_try_Ok_log _ _ _ _ _ Htry) as (t & level & Hlast).
      by exists encryptedText, t, level.
    + right. unfold encrypt_catch, bind. rewrite logEncryptionEvent_run. unfold throw.
      exists cause. do 2 eexists. split; [reflexivity|].
      cbn [state_after snd engine with_engine securityLog set_securityLog].
      apply capped_last.
  - unfold decrypt, try_catch.
    destruct (decrypt_try text context p) as [[decrypted|cause] q] eqn:Htry.
    + left. destruct (decrypt_try_Ok_log _ _ _ _ _ Htry) as (t & level & Hlast).
      by exists decrypted, t, level.
    + right. unfold decrypt_catch, bind. rewrite logDecryptionEvent_run. unfold throw.
      exists cause. do 2 eexists. split; [reflexivity|].
      cbn [state_after snd engine with_engine securityLog set_securityLog].
      apply last_snoc.
Qed.

End OutcomeAndLog.

